(** * bothub-nlp: session pool, registry protocol and NLU helpers

    A shallow embedding of

    - [src/app/server.py] (class [BotManager]: the process pool, the
      three-tier lookup, the blocking ask protocol, the periodic sweep and
      the registry kept in Redis),
    - [bothub_nlp_nlu/utils.py] (class [UpdateInterpreters]),
    - [bothub_nlp_nlu/evaluate.py] ([remove_empty_intent_examples]),

    followed by the properties of the specification stated on the embedding. *)

From Stdlib Require Import ZArith QArith Lia Ascii.
From stdpp Require Import gmap strings list fin_maps pretty.


(* ===================================================================== *)
(** * Part I: definitions *)
(* ===================================================================== *)

(** ** Python text

    A [str] is modelled as a Rocq [string] whose characters are the code
    points below 256.  Bytes read from Redis are decoded with
    [str(b, "utf-8")]; the store of the model holds the decoded text. *)

Module Text.

(** [str.isspace] on the code points below 256: TAB..CR, FS..US, SPACE,
    NEL (0x85) and NBSP (0xA0). *)
Definition is_space (c : ascii) : bool :=
  let n := N_of_ascii c in
  ((9 <=? n) && (n <=? 13) || (28 <=? n) && (n <=? 32)
   || (n =? 133) || (n =? 160))%N.

(** [s.split()]: the maximal runs of non-whitespace characters, in order. *)
Fixpoint split (s : string) : list string :=
  match s with
  | "" => []
  | String c s' =>
      if is_space c then split s'
      else
        match s' with
        | "" => [String c ""]
        | String c' _ =>
            if is_space c' then String c "" :: split s'
            else
              match split s' with
              | t :: ts => String c t :: ts
              | [] => [String c ""]
              end
        end
  end.

(** [sep.join(l)] *)
Fixpoint join (sep : string) (l : list string) : string :=
  match l with
  | [] => ""
  | [x] => x
  | x :: r => x +:+ sep +:+ join sep r
  end.

(** [x in l] on a list of strings *)
Definition contains (x : string) (l : list string) : bool :=
  bool_decide (x ∈ l).

(** [l.remove(x)]: drops the first occurrence; [None] stands for the
    [ValueError] Python raises when [x] does not occur. *)
Fixpoint remove (x : string) (l : list string) : option (list string) :=
  match l with
  | [] => None
  | y :: r => if decide (x = y) then Some r else (y ::.) <$> remove x r
  end.

(** A text that [split] gives back as one token. *)
Definition no_space (s : string) : Prop :=
  Forall (λ c, is_space c = false) (String.list_ascii_of_string s).

Definition token (s : string) : Prop := s ≠ "" ∧ no_space s.

End Text.

(** ** Python [dict] with string keys

    Insertion ordered: [d[k] = v] replaces in place when [k] is present and
    appends otherwise; [items()] walks the entries in that order. *)

Module Dict.

Definition t (V : Type) : Type := list (string * V).

Fixpoint get {V} (k : string) (d : t V) : option V :=
  match d with
  | [] => None
  | (k', v) :: r => if decide (k = k') then Some v else get k r
  end.

Fixpoint set {V} (k : string) (v : V) (d : t V) : t V :=
  match d with
  | [] => [(k, v)]
  | (k', v') :: r =>
      if decide (k = k') then (k, v) :: r else (k', v') :: set k v r
  end.

Definition mem {V} (k : string) (d : t V) : bool :=
  match get k d with Some _ => true | None => false end.

Definition keys {V} (d : t V) : list string := d.*1.

(** The invariant of a [dict]: no key twice. *)
Definition wf {V} (d : t V) : Prop := NoDup (keys d).

End Dict.

(** ** What lies outside the repository

    [cloudpickle] and the wall clock are collaborators of the code, not part
    of it.  [loads] answers [None] where [cloudpickle.loads] raises;
    [clock n] is what the [n]-th call of [datetime.now()] returns, in
    microseconds. *)

Class Externals := {
  Bot : Type;
  loads : string → option Bot;
  dumps : Bot → string;
  clock : nat → Z;
}.

(** ** [src/app/server.py]: the state the class works on *)

Module BotManager.

Inductive exn :=
  | ValueError (msg : string)
  | TypeError (msg : string)
  | KeyError (key : string)
  | DoesNotExist
  | PickleError.

(** A key of the Redis store: its text and the [ex=] it was written with.
    Redis drops a key when its time is up; that happens between the calls
    of the code, not inside them. *)
Record redis_entry := RedisEntry { value : string; ex : option Z }.

(** The dict built by [_start_bot_process].  The five objects are held by
    reference: a field is the identity of a [Process], [Queue] or [Event]. *)
Record bot_data := BotData {
  bot_instance : nat;
  answers_queue : nat;
  questions_queue : nat;
  new_question_event : nat;
  new_answer_event : nat;
  last_time_update : Z;
}.

(** A [RasaBotProcess]: the channels it was built with, the bot it serves
    and whether it still runs. *)
Record process `{Externals} := Process {
  p_questions : nat;
  p_answers : nat;
  p_new_question : nat;
  p_new_answer : nat;
  p_bot : Bot;
  p_alive : bool;
}.
Global Arguments Process {_} _ _ _ _ _ _.

(** What the code does to the world, in the order it does it. *)
Inductive event :=
  | Print (msg : string)
  | RedisGet (key : string)
  | RedisSet (key val : string) (ttl : option Z) (ok : bool)
  | RedisDelete (key : string) (deleted : Z)
  | DbGet (uuid : string)
  | Start (pid : nat)
  | Terminate (pid : nat).

Record state `{Externals} := State {
  (* the BotManager object *)
  _pool : Dict.t bot_data;
  instance_ip : string;
  (* Redis: the keys, and the replies the next [set] calls will get
     ([true]: stored; an empty list: every call is stored) *)
  redis : gmap string redis_entry;
  set_replies : list bool;
  (* table Bot of the database: uuid to pickled bot *)
  database : gmap string string;
  (* multiprocessing objects, by identity *)
  queues : gmap nat (list string);
  events : gmap nat bool;
  processes : gmap nat process;
  next_id : nat;
  (* readings: clock calls made so far, psutil's memory percentage, the
     address the metadata endpoint answers *)
  ticks : nat;
  memory_percent : Q;
  local_ipv4 : string;
  (* threading.Timer objects started, by delay in seconds *)
  timers : list Z;
  log : list event;
}.
Global Arguments State {_} _ _ _ _ _ _ _ _ _ _ _ _ _ _.

Section Model.
Context `{Externals}.

Definition with_pool (f : Dict.t bot_data → Dict.t bot_data) (s : state) : state :=
  State (f (_pool s)) (instance_ip s) (redis s) (set_replies s) (database s)
    (queues s) (events s) (processes s) (next_id s) (ticks s)
    (memory_percent s) (local_ipv4 s) (timers s) (log s).

Definition with_instance_ip (ip : string) (s : state) : state :=
  State (_pool s) ip (redis s) (set_replies s) (database s)
    (queues s) (events s) (processes s) (next_id s) (ticks s)
    (memory_percent s) (local_ipv4 s) (timers s) (log s).

Definition with_redis (f : gmap string redis_entry → gmap string redis_entry)
    (s : state) : state :=
  State (_pool s) (instance_ip s) (f (redis s)) (set_replies s) (database s)
    (queues s) (events s) (processes s) (next_id s) (ticks s)
    (memory_percent s) (local_ipv4 s) (timers s) (log s).

Definition with_set_replies (r : list bool) (s : state) : state :=
  State (_pool s) (instance_ip s) (redis s) r (database s)
    (queues s) (events s) (processes s) (next_id s) (ticks s)
    (memory_percent s) (local_ipv4 s) (timers s) (log s).

Definition with_queues (f : gmap nat (list string) → gmap nat (list string))
    (s : state) : state :=
  State (_pool s) (instance_ip s) (redis s) (set_replies s) (database s)
    (f (queues s)) (events s) (processes s) (next_id s) (ticks s)
    (memory_percent s) (local_ipv4 s) (timers s) (log s).

Definition with_events (f : gmap nat bool → gmap nat bool) (s : state) : state :=
  State (_pool s) (instance_ip s) (redis s) (set_replies s) (database s)
    (queues s) (f (events s)) (processes s) (next_id s) (ticks s)
    (memory_percent s) (local_ipv4 s) (timers s) (log s).

Definition with_processes (f : gmap nat process → gmap nat process)
    (s : state) : state :=
  State (_pool s) (instance_ip s) (redis s) (set_replies s) (database s)
    (queues s) (events s) (f (processes s)) (next_id s) (ticks s)
    (memory_percent s) (local_ipv4 s) (timers s) (log s).

Definition with_next_id (n : nat) (s : state) : state :=
  State (_pool s) (instance_ip s) (redis s) (set_replies s) (database s)
    (queues s) (events s) (processes s) n (ticks s)
    (memory_percent s) (local_ipv4 s) (timers s) (log s).

Definition with_ticks (n : nat) (s : state) : state :=
  State (_pool s) (instance_ip s) (redis s) (set_replies s) (database s)
    (queues s) (events s) (processes s) (next_id s) n
    (memory_percent s) (local_ipv4 s) (timers s) (log s).

Definition with_timers (t : list Z) (s : state) : state :=
  State (_pool s) (instance_ip s) (redis s) (set_replies s) (database s)
    (queues s) (events s) (processes s) (next_id s) (ticks s)
    (memory_percent s) (local_ipv4 s) t (log s).

Definition with_log (l : list event) (s : state) : state :=
  State (_pool s) (instance_ip s) (redis s) (set_replies s) (database s)
    (queues s) (events s) (processes s) (next_id s) (ticks s)
    (memory_percent s) (local_ipv4 s) (timers s) l.

(** ** The monad of the embedding

    A call returns ([Ok]), raises ([Raise]) or is parked for good at an
    [Event.wait()] or a [Queue.get()] ([Parked]); every outcome carries the
    state reached, since what was written before a raise stays written. *)

Inductive result (A : Type) :=
  | Ok (a : A) (s : state)
  | Raise (e : exn) (s : state)
  | Parked (s : state).
Global Arguments Ok {A} a s.
Global Arguments Raise {A} e s.
Global Arguments Parked {A} s.

Definition M (A : Type) : Type := state → result A.

Definition ret {A} (a : A) : M A := λ s, Ok a s.

Definition bind {A B} (m : M A) (k : A → M B) : M B :=
  λ s, match m s with
       | Ok a s' => k a s'
       | Raise e s' => Raise e s'
       | Parked s' => Parked s'
       end.

Definition raise {A} (e : exn) : M A := λ s, Raise e s.

Definition gets {A} (f : state → A) : M A := λ s, Ok (f s) s.

Definition modify (f : state → state) : M unit := λ s, Ok () (f s).

End Model.

Declare Scope py_scope.
Delimit Scope py_scope with py.
Notation "x <- m ; k" := (bind m (λ x, k))
  (at level 100, m at next level, right associativity) : py_scope.
Notation "m ;; k" := (bind m (λ _, k))
  (at level 100, right associativity) : py_scope.

Section Server.
Context `{Externals}.
Local Open Scope py_scope.

(** *** Primitives: output, clock, timers *)

Definition emit (ev : event) : M unit :=
  modify (λ s, with_log (log s ++ [ev]) s).

Definition print (msg : string) : M unit := emit (Print msg).

(** [datetime.now()] *)
Definition datetime_now : M Z :=
  λ s, Ok (clock (ticks s)) (with_ticks (S (ticks s)) s).

(** [timedelta(minutes=5)], in microseconds *)
Definition five_minutes : Z := 5 * 60 * 1000000.

(** [Timer(delay, self.garbage_collector).start()] *)
Definition Timer_start (delay : Z) : M unit :=
  modify (λ s, with_timers (timers s ++ [delay]) s).

(** *** Primitives: the Redis client

    [get] answers the text of a key or [None].  [set] answers whether the
    value was stored; a refused [set] leaves the store as it was.  [delete]
    answers the number of keys it removed. *)

Definition redis_get (key : string) : M (option string) :=
  emit (RedisGet key);;
  gets (λ s, value <$> redis s !! key).

Definition redis_set (key val : string) (ttl : option Z) : M bool :=
  replies <- gets set_replies;
  let ok := match replies with b :: _ => b | [] => true end in
  modify (with_set_replies (tail replies));;
  emit (RedisSet key val ttl ok);;
  (if ok then modify (with_redis (insert key (RedisEntry val ttl)))
   else ret ());;
  ret ok.

Definition redis_delete (key : string) : M Z :=
  present <- gets (λ s, redis s !! key);
  let n := match present with Some _ => 1%Z | None => 0%Z end in
  emit (RedisDelete key n);;
  modify (with_redis (delete key));;
  ret n.

(** [str(b, "utf-8")]: a [TypeError] when [b] is [None] *)
Definition str_utf8 (b : option string) : M string :=
  match b with
  | Some text => ret text
  | None => raise (TypeError "decoding to str: need a bytes-like object, NoneType found")
  end.

(** *** Primitives: the database and cloudpickle *)

(** Modelled from the spec: the model class [Bot] and [DATABASE] live in the
    package [models], which is not among the sources.  Section 6 gives the
    origin store as a lookup by session key that answers the serialized
    model or "not found".  [Bot_get] is [Bot.get(Bot.uuid == bot_uuid)]
    inside the execution context: the value is the row's [bot] column, and
    a missing row raises [DoesNotExist]. *)
Definition Bot_get (bot_uuid : string) : M string :=
  emit (DbGet bot_uuid);;
  row <- gets (λ s, database s !! bot_uuid);
  match row with
  | Some pickled => ret pickled
  | None => raise DoesNotExist
  end.

Definition cloudpickle_loads (b : string) : M Bot :=
  match loads b with
  | Some bot => ret bot
  | None => raise PickleError
  end.

(** *** Primitives: queues, events and processes *)

Definition fresh_id : M nat :=
  n <- gets next_id;
  modify (with_next_id (S n));;
  ret n.

(** [Queue()] *)
Definition Queue : M nat :=
  q <- fresh_id;
  modify (with_queues (insert q []));;
  ret q.

(** [Event()] *)
Definition Event : M nat :=
  e <- fresh_id;
  modify (with_events (insert e false));;
  ret e.

Definition Queue_put (q : nat) (item : string) : M unit :=
  modify (with_queues (alter (λ items, items ++ [item]) q)).

(** [q.get()] with no timeout: parked while the queue is empty *)
Definition Queue_get (q : nat) : M string :=
  λ s, match queues s !! q with
       | Some (item :: items) => Ok item (with_queues (insert q items) s)
       | _ => Parked s
       end.

Definition Event_set (e : nat) : M unit := modify (with_events (insert e true)).

Definition Event_clear (e : nat) : M unit := modify (with_events (insert e false)).

Definition Event_is_set (e : nat) (s : state) : bool := default false (events s !! e).

(** [e.wait()] with no timeout: parked while the flag is down *)
Definition Event_wait (e : nat) : M unit :=
  λ s, if Event_is_set e s then Ok () s else Parked s.

(** [RasaBotProcess(...)], [daemon = True], [start()] *)
Definition RasaBotProcess_start
    (questions_queue answers_queue new_question_event new_answer_event : nat)
    (bot : Bot) : M nat :=
  pid <- fresh_id;
  modify (with_processes (insert pid
    (Process questions_queue answers_queue new_question_event new_answer_event
       bot true)));;
  emit (Start pid);;
  ret pid.

(** [process.terminate()] *)
Definition terminate (pid : nat) : M unit :=
  modify (with_processes (alter (λ p,
    Process (p_questions p) (p_answers p) (p_new_question p) (p_new_answer p)
      (p_bot p) false) pid));;
  emit (Terminate pid).

(** ** [src/app/server.py]: the methods of [BotManager] *)

Definition bot_key (bot_uuid : string) : string := "BOT-" +:+ bot_uuid.
Definition server_key (ip : string) : string := "SERVER-" +:+ ip.
Definition alive_key (ip : string) : string := "SERVER-ALIVE-" +:+ ip.
Definition available_key : string := "SERVERS_INSTANCES_AVAILABLES".

Definition _get_bot_redis (bot_uuid : string) : M (option string) :=
  redis_get bot_uuid.

Definition _set_bot_redis (bot_uuid bot : string) : M bool :=
  redis_set bot_uuid bot None.

Definition _set_bot_in_instance_redis (bot_uuid : string) : M unit :=
  ip <- gets instance_ip;
  stored <- redis_set (bot_key bot_uuid) ip (Some 70%Z);
  if stored then
    raw <- redis_get (server_key ip);
    text <- str_utf8 raw;
    let server_bots := Text.split text ++ [bot_key bot_uuid] in
    let server_bots := Text.join " " server_bots in
    stored <- redis_set (server_key ip) server_bots None;
    if stored then print "Bot set in redis"
    else raise (ValueError "Error save bot in instance redis")
  else raise (ValueError "Error save bot in instance redis").

Definition _remove_bot_instance_redis (bot_uuid : string) : M unit :=
  ip <- gets instance_ip;
  deleted <- redis_delete (bot_key bot_uuid);
  if (deleted =? 0)%Z then raise (ValueError "Error remove bot in instance redis")
  else
    raw <- redis_get (server_key ip);
    text <- str_utf8 raw;
    match Text.remove (bot_key bot_uuid) (Text.split text) with
    | None => raise (ValueError "list.remove(x): x not in list")
    | Some server_bot_list =>
        let server_bot_list := Text.join " " server_bot_list in
        stored <- redis_set (server_key ip) server_bot_list None;
        if stored then print "Removing bot from instance redis"
        else raise (ValueError "Error remove bot in instance redis")
    end.

Definition _start_bot_process (bot : Bot) : M bot_data :=
  answers_queue <- Queue;
  questions_queue <- Queue;
  new_question_event <- Event;
  new_answer_event <- Event;
  bot <- RasaBotProcess_start questions_queue answers_queue
           new_question_event new_answer_event bot;
  now <- datetime_now;
  ret (BotData bot answers_queue questions_queue new_question_event
         new_answer_event now).

(** [self._pool[bot_uuid] = bot_data] *)
Definition pool_setitem (bot_uuid : string) (bot_data : bot_data) : M unit :=
  modify (with_pool (Dict.set bot_uuid bot_data)).

Definition _get_bot_data (bot_uuid : string) : M bot_data :=
  pool <- gets _pool;
  match Dict.get bot_uuid pool with
  | Some bot_data =>
      print "Reusing an instance...";;
      ret bot_data
  | None =>
      redis_bot <- _get_bot_redis bot_uuid;
      match redis_bot with
      | Some redis_bot =>
          print "Reusing from redis...";;
          redis_bot <- cloudpickle_loads redis_bot;
          bot_data <- _start_bot_process redis_bot;
          pool_setitem bot_uuid bot_data;;
          _set_bot_in_instance_redis bot_uuid;;
          ret bot_data
      | None =>
          print "Creating a new instance...";;
          instance <- Bot_get bot_uuid;
          bot <- cloudpickle_loads instance;
          _set_bot_redis bot_uuid (dumps bot);;
          bot_data <- _start_bot_process bot;
          pool_setitem bot_uuid bot_data;;
          _set_bot_in_instance_redis bot_uuid;;
          ret bot_data
      end
  end.

Definition _get_new_answer_event (bot_uuid : string) : M nat :=
  bot_data <- _get_bot_data bot_uuid; ret (new_answer_event bot_data).

Definition _get_new_question_event (bot_uuid : string) : M nat :=
  bot_data <- _get_bot_data bot_uuid; ret (new_question_event bot_data).

Definition _get_questions_queue (bot_uuid : string) : M nat :=
  bot_data <- _get_bot_data bot_uuid; ret (questions_queue bot_data).

Definition _get_answers_queue (bot_uuid : string) : M nat :=
  bot_data <- _get_bot_data bot_uuid; ret (answers_queue bot_data).

(** [self._pool[bot_uuid]['last_time_update'] = now] *)
Definition touch (bot_uuid : string) (now : Z) : M unit :=
  pool <- gets _pool;
  match Dict.get bot_uuid pool with
  | None => raise (KeyError bot_uuid)
  | Some d =>
      pool_setitem bot_uuid
        (BotData (bot_instance d) (answers_queue d) (questions_queue d)
           (new_question_event d) (new_answer_event d) now)
  end.

(** [ask], lines 90 to 97: everything up to the wait.  The value is the
    pair of objects the rest of the call holds on to. *)
Definition ask_request (question bot_uuid : string) : M (nat * nat) :=
  questions_queue <- _get_questions_queue bot_uuid;
  answers_queue <- _get_answers_queue bot_uuid;
  Queue_put questions_queue question;;
  new_question_event <- _get_new_question_event bot_uuid;
  Event_set new_question_event;;
  new_answer_event <- _get_new_answer_event bot_uuid;
  now <- datetime_now;
  touch bot_uuid now;;
  ret (answers_queue, new_answer_event).

(** [ask], lines 98 to 100: the wait and what follows it. *)
Definition ask_response (held : nat * nat) : M string :=
  let '(answers_queue, new_answer_event) := held in
  Event_wait new_answer_event;;
  Event_clear new_answer_event;;
  Queue_get answers_queue.

(** [ask].  The caller and the workers run side by side; [meanwhile] is
    what the other processes have done to the shared objects by the time
    the caller looks at the answer event. *)
Definition ask (meanwhile : state → state) (question bot_uuid : string) : M string :=
  held <- ask_request question bot_uuid;
  modify meanwhile;;
  ask_response held.

Definition start_bot_process (bot_uuid : string) : M unit :=
  _get_questions_queue bot_uuid;; ret ().

Definition start_garbage_collector : M unit := Timer_start 60.

(** The value written is [True]; the client sends its text. *)
Definition _set_server_alive : M unit :=
  ip <- gets instance_ip;
  stored <- redis_set (alive_key ip) "True" (Some 70%Z);
  if stored then print "Ping redis, i'm alive"
  else raise (ValueError "Error on ping redis").

Definition _set_usage_memory : M unit :=
  ip <- gets instance_ip;
  raw <- redis_get available_key;
  let update_servers :=
    match raw with Some text => Text.split text | None => [] end in
  usage_memory <- gets memory_percent;
  update_servers <-
    (if Qle_bool usage_memory 80 then
       if negb (Text.contains ip update_servers)
       then ret (update_servers ++ [ip])
       else ret update_servers
     else
       if Text.contains ip update_servers
       then match Text.remove ip update_servers with
            | Some l => ret l
            | None => raise (ValueError "list.remove(x): x not in list")
            end
       else ret update_servers);
  let update_servers := Text.join " " update_servers in
  stored <- redis_set available_key update_servers None;
  if stored then print "Setted servers availables"
  else raise (ValueError "Error on set servers availables").

(** The [for] loop of [garbage_collector] over [self._pool.items()]. *)
Fixpoint sweep (items : list (string * bot_data)) (new_pool : Dict.t bot_data)
    : M (Dict.t bot_data) :=
  match items with
  | [] => ret new_pool
  | (uuid, bot_instance_) :: items =>
      now <- datetime_now;
      if negb (five_minutes <=? now - last_time_update bot_instance_)%Z then
        _set_bot_in_instance_redis uuid;;
        sweep items (Dict.set uuid bot_instance_ new_pool)
      else
        _remove_bot_instance_redis uuid;;
        terminate (bot_instance bot_instance_);;
        sweep items new_pool
  end.

(** [garbage_collector].  The [Lock()] of the source is made anew at each
    call and is shared with nobody; it orders nothing. *)
Definition garbage_collector : M unit :=
  _set_server_alive;;
  pool <- gets _pool;
  new_pool <- sweep pool [];
  modify (with_pool (λ _, new_pool));;
  print "garbage collected...";;
  _set_usage_memory;;
  start_garbage_collector.

Definition _set_instance_redis : M unit :=
  ip <- gets local_ipv4;
  modify (with_instance_ip ip);;
  raw <- redis_get available_key;
  let update_servers :=
    match raw with Some text => Text.split text | None => [] end in
  let update_servers := Text.join " " (update_servers ++ [ip]) in
  stored <- redis_set (server_key ip) "" None;
  if stored then
    stored <- redis_set available_key update_servers None;
    if stored then print "Set instance in redis"
    else raise (ValueError "Error save instance in redis")
  else raise (ValueError "Error save instance in redis").

Definition __init__ : M unit :=
  _set_instance_redis;;
  _set_server_alive;;
  start_garbage_collector.

End Server.

End BotManager.

(** ** The worker on the other side of the channels *)

(** Modelled from the spec: [RasaBotProcess] lives in the module [rasabot],
    which is not among the sources.  Section 4.2 gives its loop: wait for
    "question ready", read one item from the inbound queue, compute an
    answer, write it to the outbound queue, set "answer ready", clear
    "question ready".  [worker_round] is one turn of that loop for the
    process [pid]; it changes nothing while the process is parked, has been
    terminated or has nothing to read. *)
Definition worker_round `{Externals} (engine : Bot → string → string) (pid : nat)
    (s : BotManager.state) : BotManager.state :=
  match BotManager.processes s !! pid with
  | Some p =>
      if BotManager.p_alive p
         && BotManager.Event_is_set (BotManager.p_new_question p) s then
        match BotManager.queues s !! BotManager.p_questions p with
        | Some (question :: waiting) =>
            let answer := engine (BotManager.p_bot p) question in
            BotManager.with_events
              (λ ev, <[BotManager.p_new_question p := false]>
                       (<[BotManager.p_new_answer p := true]> ev))
              (BotManager.with_queues
                 (λ qs, alter (λ items, items ++ [answer]) (BotManager.p_answers p)
                          (<[BotManager.p_questions p := waiting]> qs))
                 s)
        | _ => s
        end
      else s
  | None => s
  end.

(** ** [bothub_nlp_nlu/utils.py]: [UpdateInterpreters] *)

(** The values of a JSON answer that the code formats. *)
Inductive pyval :=
  | PyNone
  | PyInt (z : Z)
  | PyStr (s : string).

(** What an f-string prints for a value. *)
Definition format (v : pyval) : string :=
  match v with
  | PyNone => "None"
  | PyInt z => pretty z
  | PyStr s => s
  end.

(** The backend and the model storage are remote services.  [parse_nlu n]
    is the answer to the [n]-th request made to the backend, a JSON object;
    [retrieve_ok dir] tells whether [persistor.retrieve] into the temporary
    directory [dir] succeeds. *)
Class Backend := {
  parse_nlu : nat → string → string → gmap string pyval;
  retrieve_ok : nat → bool;
}.

Module UpdateInterpreters.

(** A loaded [BothubInterpreter]: the directory it was loaded from and what
    was retrieved into it.  Every such object is truthy. *)
Record interpreter := Interpreter {
  model_directory : nat;
  of_version : string;
  of_authorization : string;
  of_repository : string;
}.

Record state := State {
  interpreters : gmap string interpreter;
  requests : nat;
  next_directory : nat;
  retrieved : list (string * nat);
}.

Inductive result :=
  | Returned (i : interpreter) (s : state)
  | Raised (s : state)
  | RecursionError (s : state).

(** [dict.get(key)] on the backend's answer *)
Definition field (update_request : gmap string pyval) (key : string) : pyval :=
  default PyNone (update_request !! key).

Definition repository_name (update_request : gmap string pyval) : string :=
  format (field update_request "version_id") +:+ "_" +:+
  format (field update_request "total_training_end") +:+ "_" +:+
  format (field update_request "language").

(** [get]; [depth] bounds the nesting of the call in itself. *)
Fixpoint get `{Backend} (depth : nat)
    (repository_version repository_authorization : string) (use_cache : bool)
    (s : state) : result :=
  match depth with
  | O => RecursionError s
  | S depth =>
      let update_request :=
        parse_nlu (requests s) repository_version repository_authorization in
      let s := State (interpreters s) (S (requests s)) (next_directory s)
                 (retrieved s) in
      let repository_name := repository_name update_request in
      let reload :=
        let model_directory := next_directory s in
        let uuid := format (field update_request "repository_uuid") in
        let s := State (interpreters s) (requests s) (S model_directory)
                   (retrieved s ++ [(uuid, model_directory)]) in
        if retrieve_ok model_directory then
          let loaded := Interpreter model_directory repository_version
                          repository_authorization uuid in
          let s := State (<[repository_name := loaded]> (interpreters s))
                     (requests s) (next_directory s) (retrieved s) in
          get depth repository_version repository_authorization true s
        else Raised s in
      match interpreters s !! repository_name with
      | Some interpreter_ => if use_cache then Returned interpreter_ s else reload
      | None => reload
      end
  end.

End UpdateInterpreters.

(** ** [bothub_nlp_nlu/evaluate.py] *)

Module Evaluate.

(** The named tuple [IntentEvaluationResult] of rasa_nlu. *)
Record IntentEvaluationResult := Result {
  target : option string;
  prediction : option string;
  message : string;
  confidence : Q;
}.

(** [r._replace(prediction=p)] *)
Definition _replace_prediction (r : IntentEvaluationResult) (p : string)
    : IntentEvaluationResult :=
  Result (target r) (Some p) (message r) (confidence r).

(** [r.target != "" and r.target is not None] *)
Definition has_target (r : IntentEvaluationResult) : bool :=
  match target r with
  | None => false
  | Some t => negb (bool_decide (t = ""))
  end.

Definition remove_empty_intent_examples (intent_results : list IntentEvaluationResult)
    : list IntentEvaluationResult :=
  fold_left
    (λ filtered r,
       let r := match prediction r with
                | None => _replace_prediction r "no predicted"
                | Some _ => r
                end in
       if has_target r then filtered ++ [r] else filtered)
    intent_results [].

End Evaluate.

(** ** [bothub_nlp_nlu/utils.py]: the pipeline of an update *)

Global Instance pyval_eq_dec : EqDecision pyval.
Proof. solve_decision. Defined.

(** [bool(v)].  A JSON boolean is the integer 0 or 1, as in Python. *)
Definition truthy (v : pyval) : bool :=
  match v with
  | PyNone => false
  | PyInt z => negb (z =? 0)%Z
  | PyStr s => negb (bool_decide (s = ""))
  end.

Module Config.

(** A component of the pipeline: a dict literal, in the order it is
    written. *)
Definition component : Type := list (string * pyval).

(** What [RasaNLUModelConfig] is built from. *)
Record RasaNLUModelConfig := Build {
  language : pyval;
  pipeline : list component;
}.

Definition SpacyNLP : string :=
  "bothub_nlp_nlu.pipeline_components.optimized_spacy_nlp_with_labels.SpacyNLP".
Definition SpacyTokenizer : string :=
  "bothub_nlp_nlu.pipeline_components.tokenizer_spacy_with_labels.SpacyTokenizer".
Definition CRFLabelAsEntityExtractor : string :=
  "bothub_nlp_nlu.pipeline_components.crf_label_as_entity_extractor.CRFLabelAsEntityExtractor".
Definition CountVectorsFeaturizerCustom : string :=
  "bothub_nlp_nlu.pipeline_components.count_vectors_featurizer_no_lemmatize.CountVectorsFeaturizerCustom".

(** [{"name": n}] *)
Definition named (n : string) : component := [("name", PyStr n)].

(** [update.get(key)] *)
Definition get (update : gmap string pyval) (key : string) : pyval :=
  default PyNone (update !! key).

Definition get_rasa_nlu_config_from_update (update : gmap string pyval)
    : RasaNLUModelConfig :=
  let pipeline : list component := [] in
  let pipeline :=
    if bool_decide (get update "algorithm" = get update "ALGORITHM_STATISTICAL_MODEL")
    then
      let pipeline := pipeline ++ [named SpacyNLP] in
      let pipeline := pipeline ++ [named SpacyTokenizer] in
      let pipeline := pipeline ++ [named "RegexFeaturizer"] in
      let pipeline := pipeline ++ [named "SpacyFeaturizer"] in
      let pipeline := pipeline ++ [named "CRFEntityExtractor"] in
      let pipeline :=
        if truthy (get update "use_name_entities")
        then pipeline ++ [named "SpacyEntityExtractor"] else pipeline in
      let pipeline := pipeline ++ [named CRFLabelAsEntityExtractor] in
      pipeline ++ [named "SklearnIntentClassifier"]
    else
      let use_spacy :=
        bool_decide (get update "algorithm"
                     = get update "ALGORITHM_NEURAL_NETWORK_EXTERNAL") in
      let pipeline := pipeline ++ [named SpacyNLP] in
      let pipeline := pipeline ++ [named SpacyTokenizer] in
      let pipeline :=
        if use_spacy then pipeline ++ [named "SpacyFeaturizer"]
        else if truthy (get update "use_analyze_char") then
          pipeline ++ [[("name", PyStr "CountVectorsFeaturizer");
                        ("analyzer", PyStr "char");
                        ("min_ngram", PyInt 3);
                        ("max_ngram", PyInt 3);
                        ("token_pattern", PyStr "(?u)\b\w+\b")]]
        else
          pipeline ++ [[("name", PyStr CountVectorsFeaturizerCustom);
                        ("token_pattern", PyStr "(?u)\b\w+\b")]] in
      let pipeline :=
        pipeline ++ [[("name", PyStr "EmbeddingIntentClassifier");
                      ("similarity_type",
                       PyStr (if truthy (get update "use_competing_intents")
                              then "inner" else "cosine"))]] in
      let pipeline := pipeline ++ [named "CRFEntityExtractor"] in
      let pipeline :=
        if truthy (get update "use_name_entities")
        then pipeline ++ [named "SpacyEntityExtractor"] else pipeline in
      pipeline ++ [named CRFLabelAsEntityExtractor] in
  Build (get update "language") pipeline.

(** The names of the components of a pipeline, in order. *)
Definition names (c : RasaNLUModelConfig) : list pyval :=
  (λ component, default PyNone (Dict.get "name" component)) <$> pipeline c.

Definition is_featurizer (name : pyval) : bool :=
  bool_decide (name ∈ [PyStr "RegexFeaturizer"; PyStr "SpacyFeaturizer";
                       PyStr "CountVectorsFeaturizer";
                       PyStr CountVectorsFeaturizerCustom]).

Definition is_classifier (name : pyval) : bool :=
  bool_decide (name ∈ [PyStr "SklearnIntentClassifier";
                       PyStr "EmbeddingIntentClassifier"]).

(** The position of the first item of [l] that satisfies [p]. *)
Fixpoint position {A} (p : A → bool) (l : list A) : option nat :=
  match l with
  | [] => None
  | x :: l => if p x then Some 0 else S <$> position p l
  end.

End Config.

(** ** [bothub_nlp_nlu/utils.py]: the examples of an update, page by page *)

(** The backend serves the examples in pages.  Of an answer the code reads
    [.get("results")], [None] when the key is missing, and [.get("next")],
    the address of the next page.  An answer depends on what is asked
    only. *)
Record examples_page (A : Type) := ExamplesPage {
  results : option (list A);
  next : pyval;
}.
Global Arguments ExamplesPage {A} _ _.
Global Arguments results {A} _.
Global Arguments next {A} _.

Class ExamplesBackend (A : Type) := {
  request_backend_get_examples : string → bool → pyval → string → examples_page A;
  request_backend_get_examples_labels : string → bool → pyval → string → examples_page A;
}.

Module Examples.

(** How a call ends: with a value, which is [None] when the first answer
    has no results and no next page; with the [TypeError] of [+=] on
    [None]; or never, the loop going from page to page for ever.  A value
    comes with the number of requests made. *)
Inductive outcome (A : Type) :=
  | Returned (examples : option (list A)) (requests : nat)
  | TypeError (requests : nat)
  | Endless.
Global Arguments Returned {A} _ _.
Global Arguments TypeError {A} _.
Global Arguments Endless {A}.

Section Paged.
Context {A : Type}.
Variable request : string → bool → pyval → string → examples_page A.

(** The [while True] loop; [fuel] bounds the number of its rounds. *)
Fixpoint more (fuel : nat) (update_id repository_authorization : string)
    (page : pyval) (examples : option (list A)) (requests : nat) : outcome A :=
  match fuel with
  | O => Endless
  | S fuel =>
      let request_examples_page :=
        request update_id true page repository_authorization in
      let requests := S requests in
      match examples, results request_examples_page with
      | Some examples, Some more_results =>
          let examples := Some (examples ++ more_results) in
          match next request_examples_page with
          | PyNone => Returned examples requests
          | page => more fuel update_id repository_authorization page examples requests
          end
      | _, _ => TypeError requests
      end
  end.

(** The body the two functions share. *)
Definition paged (fuel : nat) (update_id repository_authorization : string)
    : outcome A :=
  let start_examples := request update_id false PyNone repository_authorization in
  let examples := results start_examples in
  let page := next start_examples in
  if truthy page
  then more fuel update_id repository_authorization page examples 1
  else Returned examples 1.

(** The pages that follow [page], each with the address of its successor:
    the backend serves them one after the other and the last one names no
    successor. *)
Fixpoint served (update_id repository_authorization : string) (page : pyval)
    (pages : list (list A * pyval)) : Prop :=
  match pages with
  | [] => False
  | (page_results, successor) :: pages =>
      request update_id true page repository_authorization
      = ExamplesPage (Some page_results) successor
      ∧ match pages with
        | [] => successor = PyNone
        | _ => successor ≠ PyNone
               ∧ served update_id repository_authorization successor pages
        end
  end.

End Paged.

Definition get_examples_request {A} `{ExamplesBackend A} :=
  paged request_backend_get_examples.

Definition get_examples_label_request {A} `{ExamplesBackend A} :=
  paged request_backend_get_examples_labels.

End Examples.

(** ** [bothub_nlp_nlu/evaluate.py]: the log of an evaluation *)

(** [rasa_nlu.evaluate] is a collaborator of the code.
    [_targets_predictions_from] unzips the results, and answers [None]
    where it raises; [get_evaluation_metrics] scores the predictions. *)
Class Metrics := {
  Report : Type;
  _targets_predictions_from :
    list Evaluate.IntentEvaluationResult
    → option (list (option string) * list (option string));
  get_evaluation_metrics :
    list (option string) → list (option string) → Report * Q * Q * Q;
}.

Module EvaluateLog.
Import Evaluate.

(** An item of the log: [{"text": .., "intent": ..,
    "intent_prediction": {"name": .., "confidence": ..}, "status": ..}] *)
Record log_item := LogItem {
  text : string;
  intent : option string;
  intent_prediction_name : option string;
  intent_prediction_confidence : Q;
  status : string;
}.

(** An item of the predictions: [{"text": .., "intent": ..,
    "predicted": .., "confidence": ..}] *)
Record prediction_item := PredictionItem {
  p_text : string;
  p_intent : option string;
  p_predicted : option string;
  p_confidence : Q;
}.

Definition collect_nlu_successes (intent_results : list IntentEvaluationResult)
    : list log_item :=
  (λ r, LogItem (message r) (target r) (prediction r) (confidence r) "success")
  <$> filter (λ r, target r = prediction r) intent_results.

Definition collect_nlu_errors (intent_results : list IntentEvaluationResult)
    : list log_item :=
  (λ r, LogItem (message r) (target r) (prediction r) (confidence r) "error")
  <$> filter (λ r, target r ≠ prediction r) intent_results.

(** The item a result is logged as, by the one collector or the other. *)
Definition logged (r : IntentEvaluationResult) : log_item :=
  LogItem (message r) (target r) (prediction r) (confidence r)
    (if decide (target r = prediction r) then "success" else "error").

Record intent_evaluation `{Metrics} := IntentEvaluation {
  predictions : list prediction_item;
  report : Report;
  precision : Q;
  f1_score : Q;
  accuracy : Q;
  log : list log_item;
}.
Global Arguments IntentEvaluation {_} _ _ _ _ _ _.

(** [evaluate_intents]; [None] when [_targets_predictions_from] raises. *)
Definition evaluate_intents `{Metrics} (intent_results : list IntentEvaluationResult)
    : option intent_evaluation :=
  let intent_results := remove_empty_intent_examples intent_results in
  unzipped ← _targets_predictions_from intent_results;
  let '(targets, predictions) := unzipped in
  let '(report, precision, f1, accuracy) :=
    get_evaluation_metrics targets predictions in
  let log := collect_nlu_errors intent_results ++ collect_nlu_successes intent_results in
  let predictions :=
    (λ res, PredictionItem (message res) (target res) (prediction res) (confidence res))
    <$> intent_results in
  Some (IntentEvaluation predictions report precision f1 accuracy log).

End EvaluateLog.

(** The state a call of [UpdateInterpreters.get] ends in. *)
Definition final (r : UpdateInterpreters.result) : UpdateInterpreters.state :=
  match r with
  | UpdateInterpreters.Returned _ s => s
  | UpdateInterpreters.Raised s => s
  | UpdateInterpreters.RecursionError s => s
  end.

(** ** [bothub_nlp_nlu/utils.py]: [PokeLogging]

    The classes work on the root logger of [logging], on a [ContextVar]
    and on a [StringIO].  Objects are told apart by their identity, a
    number; the root logger is the object 0.  A record is its level and
    its text; the text stands for the formatted line. *)

(** The module [contextvars] the program runs on.  The source calls
    [ContextVar.get(default=None)]: the class of the standard library, of
    Python 3.7 and later, takes the default by position only and raises
    [TypeError] for the keyword; the backport of the module for Python 3.6
    takes the keyword. *)
Class Contextvars := {
  get_takes_keyword : bool;
}.

Module PokeLogging.

(** A [PokeLoggingHandler]: the [PokeLogging] it was made for, the stream
    it writes to and its level. *)
Record handler := Handler {
  pl : nat;
  h_stream : nat;
  h_level : Z;
}.

Record state := State {
  (* the root logger: its handlers, in order, and its level *)
  handlers : list nat;
  level : Z;
  (* logging.captureWarnings *)
  capture : bool;
  (* the PokeLoggingHandler objects *)
  handler_of : gmap nat handler;
  (* the attribute [cxt] of the PokeLogging objects *)
  cxt_of : gmap nat nat;
  (* the current context: the value of each ContextVar that has one *)
  context : gmap nat nat;
  (* the StringIO objects: the lines written to each *)
  streams : gmap nat (list string);
  next_id : nat;
}.

Inductive error :=
  | TypeError
  | AttributeError.

(** How a call ends: it returns, or it raises; the state is the one it
    ends in. *)
Inductive outcome :=
  | Done (s : state)
  | Raised (e : error) (s : state).

Definition final (o : outcome) : state :=
  match o with
  | Done s | Raised _ s => s
  end.

(** [logging.getLogger()] *)
Definition getLogger : nat := 0.

(** [Logger.addHandler]: appended unless it is there. *)
Definition addHandler (hdlr : nat) (l : list nat) : list nat :=
  if bool_decide (hdlr ∈ l) then l else l ++ [hdlr].

(** [Logger.removeHandler]: the first occurrence is removed if there is
    one. *)
Fixpoint removeHandler (hdlr : nat) (l : list nat) : list nat :=
  match l with
  | [] => []
  | h :: l => if bool_decide (hdlr = h) then l else h :: removeHandler hdlr l
  end.

(** [__enter__] of the object [self], made with the level [loggingLevel];
    the value is the stream. *)
Definition __enter__ (self : nat) (loggingLevel : Z) (s : state) : nat * state :=
  let cxt := next_id s in
  let stream := S (next_id s) in
  let handler := S (S (next_id s)) in
  (stream,
   State (addHandler handler (handlers s))
     loggingLevel
     true
     (<[handler := Handler self stream loggingLevel]> (handler_of s))
     (<[self := cxt]> (cxt_of s))
     (<[cxt := self]> (context s))
     (<[stream := []]> (streams s))
     (S (S (S (next_id s))))).

(** [__exit__]: [self.logger.removeHandler(self.logger)] *)
Definition __exit__ (self : nat) (s : state) : state :=
  State (removeHandler getLogger (handlers s)) (level s) (capture s)
    (handler_of s) (cxt_of s) (context s) (streams s) (next_id s).

Section Code.
Context `{Contextvars}.

(** [PokeLoggingHandler.emit]: [self.pl.cxt] is read, then
    [get(default=None)] is called on it; where the call is taken, the line
    is written when the context variable holds the handler's
    [PokeLogging]. *)
Definition emit (h : handler) (line : string) (s : state) : outcome :=
  match cxt_of s !! pl h with
  | Some cxt =>
      if get_takes_keyword then
        if bool_decide (context s !! cxt = Some (pl h)) then
          Done
            (State (handlers s) (level s) (capture s) (handler_of s) (cxt_of s)
               (context s)
               (alter (λ lines, lines ++ [line]) (h_stream h) (streams s))
               (next_id s))
        else Done s
      else Raised TypeError s
  | None => Raised AttributeError s
  end.

(** [Logger.callHandlers]: the record is handed to each handler whose
    level it reaches; what a handler raises leaves the loop. *)
Fixpoint callHandlers (levelno : Z) (line : string) (hdlrs : list nat) (s : state)
    : outcome :=
  match hdlrs with
  | [] => Done s
  | hdlr :: hdlrs =>
      match handler_of s !! hdlr with
      | Some h =>
          if (h_level h <=? levelno)%Z then
            match emit h line s with
            | Done s => callHandlers levelno line hdlrs s
            | Raised e s => Raised e s
            end
          else callHandlers levelno line hdlrs s
      | None => callHandlers levelno line hdlrs s
      end
  end.

(** A record logged on the root logger: it is dropped below the level of
    the logger. *)
Definition log (levelno : Z) (line : string) (s : state) : outcome :=
  if (levelno <? level s)%Z then Done s
  else callHandlers levelno line (handlers s) s.

End Code.

(** [with PokeLogging(loggingLevel) as stream: body(stream)]; the value is
    the stream.  [__exit__] returns [None]: what the body raised is raised
    again after it. *)
Definition with_PokeLogging (loggingLevel : Z) (body : nat → state → outcome)
    (s : state) : nat * outcome :=
  let self := next_id s in
  let s := State (handlers s) (level s) (capture s) (handler_of s) (cxt_of s)
             (context s) (streams s) (S (next_id s)) in
  let '(stream, s) := __enter__ self loggingLevel s in
  (stream,
   match body stream s with
   | Done s => Done (__exit__ self s)
   | Raised e s => Raised e (__exit__ self s)
   end).

(** The objects of the state have been made, the handlers of the root
    logger are handlers, and the [PokeLogging] of a handler has its
    [cxt]. *)
Definition sound (s : state) : Prop :=
  Forall (λ hdlr, 0 < hdlr < next_id s) (handlers s)
  ∧ (∀ hdlr h, handler_of s !! hdlr = Some h →
               hdlr < next_id s ∧ h_stream h < next_id s ∧ pl h < next_id s
               ∧ is_Some (cxt_of s !! pl h))
  ∧ (∀ self cxt, cxt_of s !! self = Some cxt → cxt < next_id s)
  ∧ 0 < next_id s.

(** [s'] differs from [s] in what the streams hold, at most. *)
Definition quiet (s s' : state) : Prop :=
  handlers s' = handlers s ∧ level s' = level s ∧ capture s' = capture s
  ∧ handler_of s' = handler_of s ∧ cxt_of s' = cxt_of s
  ∧ context s' = context s ∧ next_id s' = next_id s.

(** One use of [PokeLogging] in which nothing is logged. *)
Definition idle_use (loggingLevel : Z) (s : state) : state :=
  final (with_PokeLogging loggingLevel (λ _ s, Done s) s).2.

(** A program that has not logged yet. *)
Definition fresh : state := State [] 30 false ∅ ∅ ∅ ∅ 1.

(** The two modules [contextvars]. *)
Definition standard_library : Contextvars := {| get_takes_keyword := false |}.
Definition backport : Contextvars := {| get_takes_keyword := true |}.

End PokeLogging.

(** ** [bothub_nlp_nlu/evaluate.py]: the evaluation of an update

    [rasa_nlu], [sklearn], [matplotlib], [boto3], the settings and the
    backend are collaborators of the code.  What they answer is a function
    of what they are asked; a report is the list of its rows, by key, in
    the order of [report.keys()]. *)

(** What is sent to the backend for the evaluation as a whole. *)
Record results_payload := ResultsPayload {
  update_id : string;
  matrix_chart : string;
  confidence_chart : string;
  log_json : list EvaluateLog.log_item;
  intentprecision : Q;
  intentf1_score : Q;
  intentaccuracy : Q;
  entityprecision : option Q;
  entityf1_score : option Q;
  entityaccuracy : option Q;
}.

Class Rasa `{Metrics} := {
  Evaluation : Type;
  Json : Type;
  Message : Type;
  TrainingData : Type;
  IntentTargets : Type;
  EntityTargets : Type;
  EntityPredictions : Type;
  Tokens : Type;
  Aligned : Type;
  Labels : Type;
  Row : Type;
  (* the backend *)
  request_backend_start_evaluation : string → string → list Evaluation;
  evaluation_get : Evaluation → string → Json;
  (* rasa_nlu.training_data *)
  Message_build : Json → Json → Json → Message;
  TrainingData_of : list Message → TrainingData;
  (* rasa_nlu.evaluate *)
  get_entity_extractors : UpdateInterpreters.interpreter → list string;
  get_entity_predictions :
    UpdateInterpreters.interpreter → TrainingData → EntityPredictions * Tokens;
  is_intent_classifier_present : UpdateInterpreters.interpreter → bool;
  get_intent_targets : TrainingData → IntentTargets;
  get_intent_predictions :
    IntentTargets → UpdateInterpreters.interpreter → TrainingData
    → list Evaluate.IntentEvaluationResult;
  get_entity_targets : TrainingData → EntityTargets;
  align_all_entity_predictions :
    EntityTargets → EntityPredictions → Tokens → list string → Aligned;
  merge_labels : Aligned → option string → Labels;
  substitute_labels : Labels → string → string → Labels;
  (* [get_evaluation_metrics] on the labels of the entities *)
  get_evaluation_metrics_of_labels : Labels → Labels → Report * Q * Q * Q;
  (* [report.keys()] with [report.get(key)] *)
  rows : Report → list (string * Row);
  (* the settings, uuid4, the S3 client *)
  aws_access_key_id : string;
  aws_secret_access_key : string;
  aws_bucket_name : string;
  endpoint_url : string;
  uuid4 : nat → string;
  (* whether [upload_fileobj] of a file name returns; it raises
     [ClientError] otherwise *)
  upload_fileobj : string → bool;
  request_backend_create_evaluate_results :
    results_payload → string → gmap string pyval;
}.

Module EvaluateUpdate.
Import Evaluate EvaluateLog.

(** The dict [evaluate_entities] returns when it has scored. *)
Record entity_evaluation `{Metrics} := EntityEvaluation {
  e_report : Report;
  e_precision : Q;
  e_f1_score : Q;
  e_accuracy : Q;
}.
Global Arguments EntityEvaluation {_} _ _ _ _.

Inductive error :=
  | UnboundLocalError (name : string)
  | AttributeError (msg : string)
  | RasaError
  | RetrievalError
  | RecursionError.

(** What the code does to the world outside, in order. *)
Inductive event `{Rasa} :=
  | Upload (bucket filename : string) (stored : bool)
  | LoggerError (filename : string)
  | CreateEvaluateResults (payload : results_payload)
  | CreateEvaluateResultsIntent (evaluate_id : pyval) (intent_key : string) (row : Row)
  | CreateEvaluateResultsScore (evaluate_id : pyval) (update : string)
      (entity_key : string) (row : Row).

Record world `{Rasa} := World {
  cache : UpdateInterpreters.state;
  uuids : nat;
  events : list event;
}.
Global Arguments World {_ _} _ _ _.

Inductive outcome `{Rasa} (A : Type) :=
  | Done (a : A) (w : world)
  | Failed (e : error) (w : world).
Global Arguments Done {_ _ A} _ _.
Global Arguments Failed {_ _ A} _ _.

Section Code.
Context `{Rasa}.

Definition excluded_itens : list string :=
  ["micro avg"; "macro avg"; "weighted avg"; "no_entity"; "no predicted"].

Definition tell (evs : list event) (w : world) : world :=
  World (cache w) (uuids w) (events w ++ evs).

(** The events that reach the backend. *)
Definition posted (ev : event) : bool :=
  match ev with
  | Upload _ _ _ | LoggerError _ => false
  | _ => true
  end.

(** What has reached the backend so far. *)
Definition posts (w : world) : list event :=
  filter (λ ev, posted ev = true) (events w).

(** The value is [None] for the empty dict. *)
Definition evaluate_entities (targets : EntityTargets)
    (predictions : EntityPredictions) (tokens : Tokens) (extractors : list string)
    : option entity_evaluation :=
  let aligned_predictions :=
    align_all_entity_predictions targets predictions tokens extractors in
  let merged_targets := merge_labels aligned_predictions None in
  let merged_targets := substitute_labels merged_targets "O" "no_entity" in
  fold_left
    (λ result extractor,
       let merged_predictions := merge_labels aligned_predictions (Some extractor) in
       let merged_predictions :=
         substitute_labels merged_predictions "O" "no_entity" in
       let '(report, precision, f1, accuracy) :=
         get_evaluation_metrics_of_labels merged_targets merged_predictions in
       Some (EntityEvaluation report precision f1 accuracy))
    extractors None.

(** One upload inside [try] and [except ClientError]: the address when it
    is stored, the address so far and a line of the logger when not. *)
Definition upload (filename url_so_far : string) (w : world) : string * world :=
  if upload_fileobj filename
  then (endpoint_url +:+ "/" +:+ aws_bucket_name +:+ "/" +:+ filename,
        tell [Upload aws_bucket_name filename true] w)
  else (url_so_far,
        tell [Upload aws_bucket_name filename false; LoggerError filename] w).

(** The value is the pair of ["matrix_chart"] and ["confidence_chart"]. *)
Definition plot_and_save_charts (update : string)
    (intent_results : list IntentEvaluationResult) (w : world)
    : outcome (string * string) :=
  let confmat_url := "" in
  let intent_hist_url := "" in
  if forallb (λ setting, negb (bool_decide (setting = "")))
       [aws_access_key_id; aws_secret_access_key; aws_bucket_name]
  then
    let confmat_filename :=
      "repository_" +:+ update +:+ "/confmat_" +:+ uuid4 (uuids w) +:+ ".png" in
    let intent_hist_filename :=
      "repository_" +:+ update +:+ "/intent_hist_" +:+ uuid4 (S (uuids w))
      +:+ ".png" in
    let w := World (cache w) (S (S (uuids w))) (events w) in
    let intent_results := remove_empty_intent_examples intent_results in
    match _targets_predictions_from intent_results with
    | None => Failed RasaError w
    | Some _ =>
        let '(confmat_url, w) := upload confmat_filename confmat_url w in
        let '(intent_hist_url, w) := upload intent_hist_filename intent_hist_url w in
        Done (confmat_url, intent_hist_url) w
    end
  else Done (confmat_url, intent_hist_url) w.

(** The keys a loop of [evaluate_update] reports: [key and key not in
    excluded_itens]. *)
Definition reported (key : string) : bool :=
  negb (bool_decide (key = "")) && negb (bool_decide (key ∈ excluded_itens)).

(** The value is the pair of ["id"] and ["version"].  [depth] bounds the
    nesting of [UpdateInterpreters.get]. *)
Definition evaluate_update `{Backend} (depth : nat)
    (update repository_authorization : string) (w : world)
    : outcome (pyval * pyval) :=
  let evaluations :=
    request_backend_start_evaluation update repository_authorization in
  let training_examples :=
    (λ evaluate, Message_build (evaluation_get evaluate "text")
                   (evaluation_get evaluate "intent")
                   (evaluation_get evaluate "entities")) <$> evaluations in
  let test_data := TrainingData_of training_examples in
  match UpdateInterpreters.get depth update repository_authorization false
          (cache w) with
  | UpdateInterpreters.Raised c =>
      Failed RetrievalError (World c (uuids w) (events w))
  | UpdateInterpreters.RecursionError c =>
      Failed RecursionError (World c (uuids w) (events w))
  | UpdateInterpreters.Returned interpreter c =>
      let w := World c (uuids w) (events w) in
      let extractor := get_entity_extractors interpreter in
      let '(entity_predictions, tokens) :=
        get_entity_predictions interpreter test_data in
      (* the local variable [intent_results], bound in the first branch
         only, and result["intent_evaluation"] *)
      let intent_results :=
        if is_intent_classifier_present interpreter
        then Some (get_intent_predictions (get_intent_targets test_data)
                     interpreter test_data)
        else None in
      match
        match intent_results with
        | Some intent_results =>
            match evaluate_intents intent_results with
            | Some evaluation => Some (Some evaluation)
            | None => None
            end
        | None => Some None
        end
      with
      | None => Failed RasaError w
      | Some intent_evaluation =>
          (* result["entity_evaluation"]: [None], or what
             [evaluate_entities] returned *)
          let entity_evaluation :=
            match extractor with
            | [] => None
            | _ => Some (evaluate_entities (get_entity_targets test_data)
                           entity_predictions tokens extractor)
            end in
          match intent_results with
          | None => Failed (UnboundLocalError "intent_results") w
          | Some intent_results =>
              match plot_and_save_charts update intent_results w with
              | Failed e w => Failed e w
              | Done (matrix_chart, confidence_chart) w =>
                  match intent_evaluation, entity_evaluation with
                  | None, _ =>
                      Failed (AttributeError "'NoneType' object has no attribute 'get'") w
                  | Some _, None =>
                      Failed (AttributeError "'NoneType' object has no attribute 'get'") w
                  | Some intent_evaluation, Some entity_evaluation =>
                      let payload :=
                        ResultsPayload update matrix_chart confidence_chart
                          (log intent_evaluation)
                          (precision intent_evaluation)
                          (f1_score intent_evaluation)
                          (accuracy intent_evaluation)
                          (e_precision <$> entity_evaluation)
                          (e_f1_score <$> entity_evaluation)
                          (e_accuracy <$> entity_evaluation) in
                      let evaluate_result :=
                        request_backend_create_evaluate_results payload
                          repository_authorization in
                      let w := tell [CreateEvaluateResults payload] w in
                      let evaluate_id :=
                        UpdateInterpreters.field evaluate_result "evaluate_id" in
                      let w :=
                        fold_left
                          (λ w '(intent_key, intent),
                             if reported intent_key
                             then tell [CreateEvaluateResultsIntent evaluate_id
                                          intent_key intent] w
                             else w)
                          (rows (report intent_evaluation)) w in
                      match entity_evaluation with
                      | None =>
                          (* [entity_reports] is [None] *)
                          Failed (AttributeError
                                    "'NoneType' object has no attribute 'keys'") w
                      | Some entity_evaluation =>
                          let w :=
                            fold_left
                              (λ w '(entity_key, entity),
                                 if reported entity_key
                                 then tell [CreateEvaluateResultsScore evaluate_id
                                              update entity_key entity] w
                                 else w)
                              (rows (e_report entity_evaluation)) w in
                          Done (evaluate_id,
                                UpdateInterpreters.field evaluate_result
                                  "evaluate_version")
                            w
                      end
                  end
              end
          end
      end
  end.

End Code.

End EvaluateUpdate.

(** ** Notions used in the statements *)

Section Notions.
Context `{Externals}.
Import BotManager.

(** The state a call ends in, whatever its outcome. *)
Definition state_of {A} (r : result A) : state :=
  match r with
  | Ok _ s => s
  | Raise _ s => s
  | Parked s => s
  end.

(** Redis stores the next [n] values it is sent. *)
Definition accepts (n : nat) (s : state) : Prop :=
  Forall (λ reply, reply = true) (take n (set_replies s)).

(** Redis stores every value it is sent from now on. *)
Definition obliging (s : state) : Prop :=
  Forall (λ reply, reply = true) (set_replies s).

(** The session list of this instance, as the code reads it. *)
Definition listed (s : state) : list string :=
  match redis s !! server_key (instance_ip s) with
  | Some e => Text.split (value e)
  | None => []
  end.

(** The instances listed as available, as the code reads them. *)
Definition available (s : state) : list string :=
  match redis s !! available_key with
  | Some e => Text.split (value e)
  | None => []
  end.

(** The list [_set_usage_memory] writes for the instance [ip], from the
    list [l] it read and from whether usage is at most 80 %. *)
Definition updated (ip : string) (le80 : bool) (l : list string) : list string :=
  if le80 then (if Text.contains ip l then l else l ++ [ip])
  else default l (Text.remove ip l).

(** The instance announced itself: its session list exists. *)
Definition announced (s : state) : Prop :=
  is_Some (redis s !! server_key (instance_ip s)).

(** The registry knows the session [bot_uuid] as owned by this instance. *)
Definition owned (s : state) (bot_uuid : string) : Prop :=
  is_Some (redis s !! bot_key bot_uuid) ∧ bot_key bot_uuid ∈ listed s.

(** An entry is younger than five minutes at the clock reading [now]. *)
Definition young (now : Z) (d : bot_data) : Prop :=
  (now - last_time_update d < five_minutes)%Z.

Global Instance young_dec now d : Decision (young now d).
Proof. unfold young. apply _. Defined.

(** The entries of [items] that are young when the sweep looks at them;
    the sweep reads the clock once per entry, starting at reading [t]. *)
Fixpoint survivors (t : nat) (items : list (string * bot_data))
    : list (string * bot_data) :=
  match items with
  | [] => []
  | (uuid, d) :: items =>
      if decide (young (clock t) d) then (uuid, d) :: survivors (S t) items
      else survivors (S t) items
  end.

(** The requests made to the database so far. *)
Definition is_origin_read (ev : event) : bool :=
  match ev with DbGet _ => true | _ => false end.

Definition origin_reads (s : state) : list event :=
  filter (λ ev, is_origin_read ev = true) (log s).

(** The entry [_start_bot_process] builds in the state [s]: the two queues,
    the two events and the process are numbered from [next_id s], in the
    order they are created, and the entry is stamped with the next clock
    reading. *)
Definition new_entry (s : state) : bot_data :=
  BotData (4 + next_id s) (next_id s) (1 + next_id s) (2 + next_id s)
    (3 + next_id s) (clock (ticks s)).

(** The process started for [new_entry s] from the bot [bot]. *)
Definition new_process (s : state) (bot : Bot) : process :=
  Process (1 + next_id s) (next_id s) (2 + next_id s) (3 + next_id s) bot true.

(** [s'] differs from [s] in Redis, in the replies Redis still owes and in
    the log at most, and the log has no new request to the database. *)
Definition registry_only (s s' : state) : Prop :=
  _pool s' = _pool s ∧ instance_ip s' = instance_ip s
  ∧ database s' = database s ∧ queues s' = queues s ∧ events s' = events s
  ∧ processes s' = processes s ∧ next_id s' = next_id s ∧ ticks s' = ticks s
  ∧ memory_percent s' = memory_percent s ∧ local_ipv4 s' = local_ipv4 s
  ∧ timers s' = timers s ∧ origin_reads s' = origin_reads s.

(** [s'] has the pool map and the timers of [s]. *)
Definition pool_kept (s s' : state) : Prop :=
  _pool s' = _pool s ∧ timers s' = timers s.

(** However the call [m] ends, the state it ends in is related by [R] to
    the state it started from. *)
Definition preserves {A} (R : state → state → Prop) (m : M A) : Prop :=
  ∀ s, R s (state_of (m s)).

(** The process behind an entry no longer runs. *)
Definition stopped (s : state) (d : bot_data) : Prop :=
  ∀ p, processes s !! bot_instance d = Some p → p_alive p = false.

End Notions.

(** ** Further notions: what a call can end in, and two invariants *)

Section MoreNotions.
Context `{Externals}.
Import BotManager.

(** The call [m] is never parked: it returns or it raises. *)
Definition prompt {A} (m : M A) : Prop := ∀ s s', m s ≠ Parked s'.

(** [s'] has the timers of [s]. *)
Definition timers_kept (s s' : state) : Prop := timers s' = timers s.

(** The call [m] starts the timer of the next sweep when it returns, and
    only then. *)
Definition arming (m : M unit) : Prop :=
  ∀ s, match m s with
       | Ok _ s' => timers s' = timers s ++ [60%Z]
       | Raise _ s' => timers s' = timers s
       | Parked _ => False
       end.

End MoreNotions.

Section Invariants.
Context `{Externals}.
Import BotManager.

(** The registry agrees with the pool: the instance has announced itself,
    no session is in the pool twice, and every session of the pool has its
    owner key in Redis and its name in the session list of the instance. *)
Definition consistent (s : state) : Prop :=
  announced s ∧ Dict.wf (_pool s)
  ∧ ∀ u, u ∈ Dict.keys (_pool s) → owned s u.

(** A session that some tier can resolve: the pool holds it, or Redis holds
    a snapshot that unpickles, or Redis holds none and the database holds a
    bot that unpickles. *)
Definition resolvable (s : state) (bot_uuid : string) : Prop :=
  is_Some (Dict.get bot_uuid (_pool s))
  ∨ (∃ e bot, redis s !! bot_uuid = Some e ∧ loads (value e) = Some bot)
  ∨ (redis s !! bot_uuid = None
     ∧ ∃ pickled bot, database s !! bot_uuid = Some pickled
                      ∧ loads pickled = Some bot).

(** The objects an entry of the pool refers to. *)
Definition objects (d : bot_data) : list nat :=
  [bot_instance d; answers_queue d; questions_queue d;
   new_question_event d; new_answer_event d].

(** No object is referred to twice in the pool, by one entry or by two, and
    every object of the pool has been created. *)
Definition apart (s : state) : Prop :=
  Dict.wf (_pool s)
  ∧ NoDup ((_pool s).*2 ≫= objects)
  ∧ Forall (λ n, n < next_id s) ((_pool s).*2 ≫= objects).

(** [s'] has the pool map of [s] and has created no object since. *)
Definition heap_kept (s s' : state) : Prop :=
  _pool s' = _pool s ∧ next_id s' = next_id s.

End Invariants.

(** ** Sample worlds

    A pickle is any non-empty text and unpickles to itself; the clock
    advances by 100 seconds from one reading to the next. *)

Module Sample.
Import BotManager.

Definition externals : Externals := {|
  Bot := string;
  loads := λ b, match b with "" => None | _ => Some b end;
  dumps := λ bot, bot;
  clock := λ n, (100000000 * Z.of_nat n)%Z;
|}.

Definition ip : string := "10.0.0.1".

(** A machine that has not started yet; the database holds the bot "b",
    Redis a snapshot of the bot "a". *)
Definition cold : @state externals :=
  State [] "" {[ "a" := RedisEntry "model-a" None ]} []
    {[ "b" := "model-b" ]} ∅ ∅ ∅ 0 0 (50 # 1) ip [] [].

(** The state [s] when the next replies of Redis to [set] are [replies]. *)
Definition refusing (replies : list bool) (s : @state externals) : @state externals :=
  with_set_replies replies s.

(** The state [s] when psutil reports [percent]. *)
Definition under_memory (percent : Q) (s : @state externals) : @state externals :=
  State (_pool s) (instance_ip s) (redis s) (set_replies s) (database s)
    (queues s) (events s) (processes s) (next_id s) (ticks s)
    percent (local_ipv4 s) (timers s) (log s).

(** The state [s] once the key [key] has expired in Redis. *)
Definition expired (key : string) (s : @state externals) : @state externals :=
  with_redis (delete key) s.

(** Runs [m] and keeps the state it ends in. *)
Definition after {A} (m : @M externals A) (s : @state externals) : @state externals :=
  @state_of externals A (m s).

(** The state [s] after [n] more readings of the clock by others. *)
Definition later (n : nat) (s : @state externals) : @state externals :=
  with_ticks (n + ticks s) s.

(** The machine after [__init__]. *)
Definition started : @state externals := Eval vm_compute in after __init__ cold.

(** The machine after a restart of the process: the objects of the old
    process are gone, Redis, the database and the clock are what they were. *)
Definition reboot (s : @state externals) : @state externals :=
  State [] "" (redis s) (set_replies s) (database s) ∅ ∅ ∅ 0 (ticks s)
    (memory_percent s) (local_ipv4 s) [] (log s).

(** The started machine after a restart. *)
Definition restarted : @state externals :=
  Eval vm_compute in after __init__ (reboot started).

(** The started machine once "a" has been resolved, at clock reading 0. *)
Definition serving_a : @state externals :=
  Eval vm_compute in after (_get_bot_data "a") started.

(** ... and once "b" has been resolved too, 400 seconds later. *)
Definition busy : @state externals :=
  Eval vm_compute in after (_get_bot_data "b") (later 3 serving_a).

(** The stub engine of Scenario A. *)
Definition stub_engine (bot question : string) : string := "stub-answer".

(** A backend that always gives the same answer for a repository, and a
    model storage that always delivers. *)
Definition backend : Backend := {|
  parse_nlu := λ _ _ _,
    {[ "version_id" := PyInt 7; "total_training_end" := PyInt 3;
       "language" := PyStr "en"; "repository_uuid" := PyStr "r-1" ]};
  retrieve_ok := λ _, true;
|}.

(** No interpreter loaded yet. *)
Definition no_interpreters : UpdateInterpreters.state :=
  UpdateInterpreters.State ∅ 0 0 [].

End Sample.

(** ** Further sample worlds *)

Module Scenes.
Import BotManager.

(** The started machine when Redis holds, under "z", a snapshot that does
    not unpickle. *)
Definition corrupted : @state Sample.externals :=
  Eval vm_compute in
    with_redis (insert "z" (RedisEntry "" None)) Sample.started.

End Scenes.

Module Worlds.

(** The backend of the samples when the model storage does not deliver. *)
Definition offline : Backend := {|
  parse_nlu := @parse_nlu Sample.backend;
  retrieve_ok := λ _, false;
|}.

(** A backend that serves the examples of any update in three pages; the
    second page gives the empty text as the address of the third.  It has
    no labels. *)
Definition library : ExamplesBackend string := {|
  request_backend_get_examples := λ _ _ page _,
    if bool_decide (page = PyNone)
    then ExamplesPage (Some ["e1"]) (PyStr "page-2")
    else if bool_decide (page = PyStr "page-2")
    then ExamplesPage (Some ["e2"; "e3"]) (PyStr "")
    else if bool_decide (page = PyStr "")
    then ExamplesPage (Some ["e4"]) PyNone
    else ExamplesPage None PyNone;
  request_backend_get_examples_labels := λ _ _ _ _, ExamplesPage None (PyStr "");
|}.

(** Metrics that score everything 1, and an unzip that raises on no
    result. *)
Definition metrics : Metrics := {|
  Report := unit;
  _targets_predictions_from := λ l,
    match l with
    | [] => None
    | _ => Some (Evaluate.target <$> l, Evaluate.prediction <$> l)
    end;
  get_evaluation_metrics := λ _ _, (tt, 1%Q, 1%Q, 1%Q);
|}.

(** Three results: one without prediction, one without target, one
    right. *)
Definition three_results : list Evaluate.IntentEvaluationResult :=
  [Evaluate.Result (Some "greet") None "hi" (1 # 2);
   Evaluate.Result None (Some "greet") "hm" (1 # 10);
   Evaluate.Result (Some "bye") (Some "bye") "ciao" (9 # 10)].

(** A backend on which the repository is trained again after the first
    request: the later answers carry another [total_training_end]. *)
Definition retrained : Backend := {|
  parse_nlu := λ n _ _,
    {[ "version_id" := PyInt 7;
       "total_training_end" := PyInt (match n with 0 => 3 | _ => 4 end);
       "language" := PyStr "en"; "repository_uuid" := PyStr "r-1" ]};
  retrieve_ok := λ _, true;
|}.

(** A cache that holds a model of the second training already. *)
Definition stale : UpdateInterpreters.state :=
  UpdateInterpreters.State
    {[ "7_4_en" := UpdateInterpreters.Interpreter 0 "v0" "auth" "r-1" ]}
    0 1 [("r-1", 0)].

End Worlds.

(** ** A sample evaluation *)

Module Studio.
Import EvaluateUpdate.

(** A model with both a classifier and an extractor; the classifier gives
    the three results of [Worlds.three_results]; a report has four rows,
    one of them an average and one without a name; the storage refuses
    every upload. *)
Definition rasa : @Rasa Worlds.metrics := {|
  Evaluation := string;
  Json := string;
  Message := string;
  TrainingData := list string;
  IntentTargets := unit;
  EntityTargets := unit;
  EntityPredictions := unit;
  Tokens := unit;
  Aligned := unit;
  Labels := unit;
  Row := nat;
  request_backend_start_evaluation := λ _ _, ["hi"];
  evaluation_get := λ evaluate _, evaluate;
  Message_build := λ text _ _, text;
  TrainingData_of := λ l, l;
  get_entity_extractors := λ _, ["CRFEntityExtractor"];
  get_entity_predictions := λ _ _, (tt, tt);
  is_intent_classifier_present := λ _, true;
  get_intent_targets := λ _, tt;
  get_intent_predictions := λ _ _ _, Worlds.three_results;
  get_entity_targets := λ _, tt;
  align_all_entity_predictions := λ _ _ _ _, tt;
  merge_labels := λ _ _, tt;
  substitute_labels := λ _ _ _, tt;
  get_evaluation_metrics_of_labels := λ _ _,
    (tt : @Report Worlds.metrics, 1%Q, 1%Q, 1%Q);
  rows := λ _, [("greet", 1); ("micro avg", 2); ("", 3); ("bye", 4)];
  aws_access_key_id := "id";
  aws_secret_access_key := "secret";
  aws_bucket_name := "bucket";
  endpoint_url := "https://storage";
  uuid4 := λ n, pretty n;
  upload_fileobj := λ _, false;
  request_backend_create_evaluate_results := λ _ _,
    {[ "evaluate_id" := PyInt 5; "evaluate_version" := PyInt 1 ]};
|}.

(** Nothing loaded, nothing done. *)
Definition quiet_world : @world Worlds.metrics rasa :=
  World Sample.no_interpreters 0 [].

End Studio.

(* ===================================================================== *)
(** * Part II: properties *)
(* ===================================================================== *)

(** ** Python text: [split] and [join] *)

Section TextFacts.
Import Text.

Lemma split_cons c s :
  split (String c s) =
    if is_space c then split s
    else match s with
         | "" => [String c ""]
         | String c' _ =>
             if is_space c' then String c "" :: split s
             else match split s with
                  | t :: ts => String c t :: ts
                  | [] => [String c ""]
                  end
         end.
Proof. reflexivity. Qed.

Lemma split_head_nonspace c s : is_space c = false → split (String c s) ≠ [].
Proof.
  intros Hc. rewrite split_cons, Hc. destruct s as [|c' s']; [done|].
  destruct (is_space c'); [done|]. by destruct (split (String c' s')).
Qed.

(** Splitting commutes with gluing two texts by a whitespace character. *)
Lemma split_app_space a c b :
  is_space c = true → split (a +:+ String c b) = split a ++ split b.
Proof.
  intros Hc. induction a as [|x a IH].
  - change ("" +:+ String c b) with (String c b). by rewrite split_cons, Hc.
  - change (String x a +:+ String c b) with (String x (a +:+ String c b)).
    rewrite !(split_cons x). destruct (is_space x) eqn:Hx; [exact IH|].
    destruct a as [|y a'].
    + change ("" +:+ String c b) with (String c b). cbv beta iota.
      by rewrite Hc, (split_cons c), Hc.
    + change (String y a' +:+ String c b) with (String y (a' +:+ String c b)) in *.
      cbv beta iota. destruct (is_space y) eqn:Hy.
      * by rewrite IH.
      * rewrite IH. pose proof (split_head_nonspace y a' Hy) as Hne.
        destruct (split (String y a')); [done|]. reflexivity.
Qed.

Lemma split_join l : split (join " " l) = l ≫= split.
Proof.
  induction l as [|x l IH]; [done|].
  destruct l as [|y l].
  - simpl. by rewrite app_nil_r.
  - change (join " " (x :: y :: l)) with (x +:+ String " " (join " " (y :: l))).
    rewrite split_app_space by done. by rewrite IH.
Qed.

Lemma split_tokens s : Forall token (split s).
Proof.
  induction s as [|c s IH]; [constructor|].
  rewrite split_cons. destruct (is_space c) eqn:Hc; [done|].
  assert (Hone : token (String c "")).
  { split; [done|]. repeat constructor. done. }
  destruct s as [|c' s']; [by repeat constructor|].
  destruct (is_space c'); [by constructor|].
  destruct (split (String c' s')) as [|t ts]; [by repeat constructor|].
  inversion IH as [|?? [_ Ht] Hts]; subst. constructor; [|done].
  split; [done|]. by constructor.
Qed.

Lemma split_token t : token t → split t = [t].
Proof.
  intros [Hne Hns]. induction t as [|c t IH]; [done|].
  inversion Hns as [|?? Hc Ht]; subst. rewrite split_cons, Hc.
  destruct t as [|c' t']; [done|].
  inversion Ht as [|?? Hc' _]; subst. rewrite Hc'.
  rewrite IH; done.
Qed.

Lemma bind_split_tokens l : Forall token l → l ≫= split = l.
Proof.
  induction 1 as [|t l Ht _ IH]; [done|].
  rewrite bind_cons, IH, split_token; done.
Qed.

(** What the code stores, read back: a list of tokens survives the round
    trip through [join] and [split]. *)
Lemma split_join_tokens l : Forall token l → split (join " " l) = l.
Proof. intros Hl. by rewrite split_join, bind_split_tokens. Qed.

Lemma remove_Some x l : x ∈ l → is_Some (remove x l).
Proof.
  induction 1 as [y l|y z l _ IH]; simpl.
  - rewrite decide_True by done. eauto.
  - destruct (decide (y = z)); [eauto|]. destruct IH as [l' ->]. eauto.
Qed.

Lemma remove_sublist x l l' : remove x l = Some l' → l' ⊆ l.
Proof.
  revert l'. induction l as [|y l IH]; intros l'; simpl; [done|].
  destruct (decide (x = y)) as [->|Hne].
  - intros [= ->] z Hz. by apply elem_of_cons; right.
  - destruct (remove x l) as [r|]; [|done]. intros [= <-] z.
    rewrite !elem_of_cons. intros [->|Hz]; [by left|right]. by apply (IH r).
Qed.

Lemma remove_other x y l l' : remove x l = Some l' → y ≠ x → y ∈ l → y ∈ l'.
Proof.
  revert l'. induction l as [|z l IH]; intros l'; simpl; [done|].
  destruct (decide (x = z)) as [->|Hne].
  - intros [= ->] Hy [->|Hin]%elem_of_cons; done.
  - destruct (remove x l) as [r|]; [|done]. intros [= <-] Hy.
    rewrite !elem_of_cons. intros [->|Hin]; [by left|right]. by apply (IH r).
Qed.

Lemma contains_true x l : contains x l = true ↔ x ∈ l.
Proof. unfold contains. by rewrite bool_decide_eq_true. Qed.

End TextFacts.

(** ** Python dict *)

Section DictFacts.
Context {V : Type}.
Implicit Types (d : Dict.t V) (k : string) (v : V).

Lemma dict_get_None k d : Dict.get k d = None ↔ k ∉ Dict.keys d.
Proof.
  induction d as [|[k' v'] d IH]; simpl.
  - split; [intros _; apply not_elem_of_nil | done].
  - destruct (decide (k = k')) as [->|Hne].
    + split; [done|]. intros []. apply list_elem_of_here.
    + rewrite IH, not_elem_of_cons. tauto.
Qed.

Lemma dict_set_absent k v d : Dict.get k d = None → Dict.set k v d = d ++ [(k, v)].
Proof.
  induction d as [|[k' v'] d IH]; simpl; [done|].
  destruct (decide (k = k')); [done|]. intros Hd. by rewrite IH.
Qed.

Lemma dict_get_set k v d : Dict.get k (Dict.set k v d) = Some v.
Proof.
  induction d as [|[k' v'] d IH]; simpl.
  - by rewrite decide_True.
  - destruct (decide (k = k')) as [->|Hne]; simpl.
    + by rewrite decide_True.
    + by rewrite decide_False.
Qed.

Lemma dict_get_elem k v d : Dict.get k d = Some v → (k, v) ∈ d.
Proof.
  induction d as [|[k' v'] d IH]; simpl; [done|].
  destruct (decide (k = k')) as [->|Hne].
  - intros [= ->]. apply list_elem_of_here.
  - intros Hd. apply list_elem_of_further. auto.
Qed.

End DictFacts.

(** ** Tactics for the state record

    [sproj] computes the projections of an updated state and nothing else;
    [state_ext] proves two states equal field by field. *)

Ltac sproj :=
  cbn [BotManager._pool BotManager.instance_ip BotManager.redis
       BotManager.set_replies BotManager.database BotManager.queues
       BotManager.events BotManager.processes BotManager.next_id
       BotManager.ticks BotManager.memory_percent BotManager.local_ipv4
       BotManager.timers BotManager.log
       BotManager.with_pool BotManager.with_instance_ip BotManager.with_redis
       BotManager.with_set_replies BotManager.with_queues BotManager.with_events
       BotManager.with_processes BotManager.with_next_id BotManager.with_ticks
       BotManager.with_timers BotManager.with_log
       BotManager.value BotManager.ex fmap option_fmap option_map
       state_of tail].

Tactic Notation "sproj" "in" hyp(H) :=
  cbn [BotManager._pool BotManager.instance_ip BotManager.redis
       BotManager.set_replies BotManager.database BotManager.queues
       BotManager.events BotManager.processes BotManager.next_id
       BotManager.ticks BotManager.memory_percent BotManager.local_ipv4
       BotManager.timers BotManager.log
       BotManager.with_pool BotManager.with_instance_ip BotManager.with_redis
       BotManager.with_set_replies BotManager.with_queues BotManager.with_events
       BotManager.with_processes BotManager.with_next_id BotManager.with_ticks
       BotManager.with_timers BotManager.with_log
       BotManager.value BotManager.ex fmap option_fmap option_map
       state_of tail] in H.

(** ** The registry calls of [BotManager] *)

Section Registry.
Context `{Externals}.
Import BotManager.
Local Open Scope py_scope.

Lemma bot_key_ne_server_key u ip : bot_key u ≠ server_key ip.
Proof. discriminate. Qed.

Lemma bot_key_ne_available u : bot_key u ≠ available_key.
Proof. discriminate. Qed.

Lemma bot_key_inj u v : bot_key u = bot_key v → u = v.
Proof. unfold bot_key. apply (inj (String.app "BOT-")). Qed.

Lemma state_ext a1 a2 a3 a4 a5 a6 a7 a8 a9 a10 a11 a12 a13 a14
    b1 b2 b3 b4 b5 b6 b7 b8 b9 b10 b11 b12 b13 b14 :
  a1 = b1 → a2 = b2 → a3 = b3 → a4 = b4 → a5 = b5 → a6 = b6 → a7 = b7 →
  a8 = b8 → a9 = b9 → a10 = b10 → a11 = b11 → a12 = b12 → a13 = b13 →
  a14 = b14 →
  State a1 a2 a3 a4 a5 a6 a7 a8 a9 a10 a11 a12 a13 a14 =
  State b1 b2 b3 b4 b5 b6 b7 b8 b9 b10 b11 b12 b13 b14.
Proof. by intros; subst. Qed.

Lemma accepts_S n s :
  accepts (S n) s →
  accepts 1 s ∧ ∀ s', set_replies s' = tail (set_replies s) → accepts n s'.
Proof.
  unfold accepts. destruct (set_replies s) as [|b r]; simpl.
  - intros _. split; [constructor|]. intros s' ->. by rewrite take_nil.
  - inversion 1; subst. split; [by repeat constructor|]. by intros s' ->.
Qed.

Lemma accepts_head s :
  accepts 1 s → match set_replies s with b :: _ => b | [] => true end = true.
Proof.
  unfold accepts. destruct (set_replies s) as [|b r]; simpl; [done|].
  by inversion 1.
Qed.

Lemma obliging_accepts n s : obliging s → accepts n s.
Proof. unfold obliging, accepts. apply Forall_take. Qed.

Lemma obliging_tail s s' :
  obliging s → set_replies s' = tail (set_replies s) → obliging s'.
Proof.
  unfold obliging. intros Hs ->. destruct Hs; [constructor | done].
Qed.

(** A stored [set]. *)
Lemma redis_set_stored key val ttl s :
  accepts 1 s →
  redis_set key val ttl s =
    Ok true (with_redis (insert key (RedisEntry val ttl))
               (with_log (log s ++ [RedisSet key val ttl true])
                  (with_set_replies (tail (set_replies s)) s))).
Proof.
  intros Hs%accepts_head. unfold redis_set, bind, gets, modify, emit, ret.
  sproj. rewrite Hs. reflexivity.
Qed.

(** A refused [set]. *)
Lemma redis_set_refused key val ttl s rest :
  set_replies s = false :: rest →
  redis_set key val ttl s =
    Ok false (with_log (log s ++ [RedisSet key val ttl false])
                (with_set_replies rest s)).
Proof.
  unfold redis_set, bind, gets, modify, emit, ret. intros ->. reflexivity.
Qed.

End Registry.


(** [mrun] runs a call forward through the primitives until it meets a
    lookup, a [redis_set] or a method it does not know how to run. *)
Ltac mrun :=
  cbn [BotManager.bind BotManager.gets BotManager.modify BotManager.emit
       BotManager.ret BotManager.raise BotManager.print BotManager.str_utf8
       BotManager.redis_get BotManager.cloudpickle_loads BotManager.pool_setitem
       BotManager.Bot_get BotManager.fresh_id BotManager.Queue BotManager.Event
       BotManager.Queue_put BotManager.Event_set BotManager.Event_clear
       BotManager.RasaBotProcess_start BotManager.terminate
       BotManager.datetime_now BotManager.Timer_start
       BotManager._get_bot_redis BotManager._set_bot_redis
       BotManager._start_bot_process BotManager.start_garbage_collector
       BotManager._pool BotManager.instance_ip BotManager.redis
       BotManager.set_replies BotManager.database BotManager.queues
       BotManager.events BotManager.processes BotManager.next_id
       BotManager.ticks BotManager.memory_percent BotManager.local_ipv4
       BotManager.timers BotManager.log
       BotManager.with_pool BotManager.with_instance_ip BotManager.with_redis
       BotManager.with_set_replies BotManager.with_queues BotManager.with_events
       BotManager.with_processes BotManager.with_next_id BotManager.with_ticks
       BotManager.with_timers BotManager.with_log
       BotManager.value BotManager.ex fmap option_fmap option_map
       BotManager.bot_instance BotManager.answers_queue BotManager.questions_queue
       BotManager.new_question_event BotManager.new_answer_event
       BotManager.last_time_update
       state_of tail].

Ltac state_ext :=
  sproj; apply state_ext; try reflexivity;
  try (rewrite <- ?app_assoc; reflexivity).

Section Claim.
Context `{Externals}.
Import BotManager.
Local Open Scope py_scope.
Local Arguments redis_set : simpl never.

(** The owner key is refused: the call raises with Redis as it was. *)
Lemma claim_first_refused u s rest :
  set_replies s = false :: rest →
  _set_bot_in_instance_redis u s =
    Raise (ValueError "Error save bot in instance redis")
      (with_log (log s ++ [RedisSet (bot_key u) (instance_ip s) (Some 70%Z) false])
         (with_set_replies rest s)).
Proof.
  intros Hs. unfold _set_bot_in_instance_redis.
  unfold bind at 1. unfold gets at 1. unfold bind at 1.
  by rewrite (redis_set_refused _ _ _ _ rest).
Qed.

(** Both writes are stored: the call returns. *)
Lemma claim_stored u s e :
  accepts 2 s →
  redis s !! server_key (instance_ip s) = Some e →
  _set_bot_in_instance_redis u s =
    Ok () (with_redis
             (λ r, <[server_key (instance_ip s) :=
                       RedisEntry (Text.join " " (Text.split (value e) ++ [bot_key u])) None]>
                     (<[bot_key u := RedisEntry (instance_ip s) (Some 70%Z)]> r))
          (with_set_replies (tail (tail (set_replies s)))
          (with_log (log s ++
             [RedisSet (bot_key u) (instance_ip s) (Some 70%Z) true;
              RedisGet (server_key (instance_ip s));
              RedisSet (server_key (instance_ip s))
                (Text.join " " (Text.split (value e) ++ [bot_key u])) None true;
              Print "Bot set in redis"]) s))).
Proof.
  intros [H1 H2]%accepts_S He. unfold _set_bot_in_instance_redis.
  unfold bind at 1. unfold gets at 1. unfold bind at 1.
  rewrite redis_set_stored by done.
  unfold bind at 1. unfold redis_get, print, str_utf8, bind, emit, gets, modify, ret. sproj.
  rewrite lookup_insert_ne by apply bot_key_ne_server_key. rewrite He. sproj.
  rewrite redis_set_stored by (by apply H2).
  sproj. f_equal. state_ext.
Qed.

(** The list is refused after the owner key was stored: the call raises. *)
Lemma claim_second_refused u s e rest :
  set_replies s = true :: false :: rest →
  redis s !! server_key (instance_ip s) = Some e →
  ∃ s', _set_bot_in_instance_redis u s = Raise (ValueError "Error save bot in instance redis") s'
        ∧ redis s' = <[bot_key u := RedisEntry (instance_ip s) (Some 70%Z)]> (redis s).
Proof.
  intros Hs He. unfold _set_bot_in_instance_redis.
  unfold bind at 1. unfold gets at 1. unfold bind at 1.
  rewrite redis_set_stored by (unfold accepts; rewrite Hs; by repeat constructor).
  unfold bind at 1. unfold redis_get, print, str_utf8, bind, emit, gets, modify, ret. sproj.
  rewrite lookup_insert_ne by apply bot_key_ne_server_key. rewrite He. sproj.
  rewrite (redis_set_refused _ _ _ _ rest) by (sproj; by rewrite Hs).
  sproj. eexists. split; [reflexivity|]. reflexivity.
Qed.

(** No session list to read: the call raises. *)
Lemma claim_unannounced u s :
  accepts 1 s →
  redis s !! server_key (instance_ip s) = None →
  ∃ msg s', _set_bot_in_instance_redis u s = Raise (TypeError msg) s'.
Proof.
  intros Hs He. unfold _set_bot_in_instance_redis.
  unfold bind at 1. unfold gets at 1. unfold bind at 1.
  rewrite redis_set_stored by done.
  unfold bind at 1. unfold redis_get, print, str_utf8, bind, emit, gets, modify, ret. sproj.
  rewrite lookup_insert_ne by apply bot_key_ne_server_key. rewrite He. sproj.
  unfold raise. eauto.
Qed.

(** The call returns only when both values were stored; otherwise it raises. *)
Lemma claim_cases u s :
  (accepts 2 s ∧ announced s ∧ ∃ s', _set_bot_in_instance_redis u s = Ok () s')
  ∨ (∃ e s', _set_bot_in_instance_redis u s = Raise e s').
Proof.
  unfold accepts, announced.
  destruct (set_replies s) as [|[] [|[] rest]] eqn:Hs;
    destruct (redis s !! server_key (instance_ip s)) as [e|] eqn:He.
  all: try (left; split; [by repeat constructor | split; [by eauto|] ];
            rewrite (claim_stored u s e) by
              (try done; unfold accepts; rewrite Hs; by repeat constructor);
            by eauto).
  all: right.
  all: try (destruct (claim_unannounced u s) as (msg & s1 & ->);
            [unfold accepts; rewrite Hs; by repeat constructor | done | by eauto]).
  all: try (rewrite (claim_first_refused u s _ Hs); by eauto).
  all: try (destruct (claim_second_refused u s e rest Hs He) as (s1 & -> & _); by eauto).
Qed.

(** C4.  Claiming a session, [_set_bot_in_instance_redis]: when the write
    of the owner key is refused the call raises and Redis, the session list
    of the instance included, is as it was; when Redis stores both values
    the call returns with the owner key set and the session appended to the
    list; the call returns only if both values were stored, and it never
    parks: every failed step ends in a raise. *)
Theorem claim_session_all_or_error (bot_uuid : string) (s : state) :
  (∀ rest, set_replies s = false :: rest →
     ∃ s', _set_bot_in_instance_redis bot_uuid s
             = Raise (ValueError "Error save bot in instance redis") s'
           ∧ redis s' = redis s ∧ listed s' = listed s ∧ _pool s' = _pool s)
  ∧ (accepts 2 s → announced s →
     ∃ s', _set_bot_in_instance_redis bot_uuid s = Ok () s'
           ∧ redis s' !! bot_key bot_uuid
               = Some (RedisEntry (instance_ip s) (Some 70%Z))
           ∧ redis s' !! server_key (instance_ip s)
               = Some (RedisEntry
                         (Text.join " " (listed s ++ [bot_key bot_uuid])) None))
  ∧ (∀ s', _set_bot_in_instance_redis bot_uuid s = Ok () s' →
       accepts 2 s ∧ announced s)
  ∧ (∀ s', _set_bot_in_instance_redis bot_uuid s ≠ Parked s').
Proof.
  split; [|split; [|split]].
  - intros rest Hs. rewrite (claim_first_refused bot_uuid s rest Hs).
    eexists. split; [reflexivity|]. by repeat split.
  - intros Hs [e He]. rewrite (claim_stored bot_uuid s e Hs He).
    eexists. split; [reflexivity|]. sproj. split.
    + rewrite lookup_insert_ne by (apply not_eq_sym, bot_key_ne_server_key).
      by rewrite lookup_insert_eq.
    + rewrite lookup_insert_eq. unfold listed. by rewrite He.
  - intros s' Hrun.
    destruct (claim_cases bot_uuid s) as [(? & ? & _)|(e & s1 & Hraise)]; [done|].
    by rewrite Hraise in Hrun.
  - intros s' Hrun.
    destruct (claim_cases bot_uuid s) as [(_ & _ & s1 & Hok)|(e & s1 & Hraise)];
      by rewrite Hrun in *.
Qed.

End Claim.

(** On the started sample machine: a refused owner key raises and leaves
    Redis alone, and an obliging Redis lets the claim of "a" return. *)
Lemma claim_session_witness :
  (∃ s', @BotManager._set_bot_in_instance_redis Sample.externals "a"
           (Sample.refusing [false] Sample.started)
         = BotManager.Raise (BotManager.ValueError "Error save bot in instance redis") s'
         ∧ BotManager.redis s' = BotManager.redis (Sample.refusing [false] Sample.started))
  ∧ (∃ s', @BotManager._set_bot_in_instance_redis Sample.externals "a" Sample.started
           = BotManager.Ok () s').
Proof.
  split.
  - destruct (@claim_session_all_or_error Sample.externals "a"
                (Sample.refusing [false] Sample.started)) as (H1 & _).
    destruct (H1 [] eq_refl) as (s' & Hrun & Hredis & _).
    exact (ex_intro _ s' (conj Hrun Hredis)).
  - destruct (@claim_session_all_or_error Sample.externals "a" Sample.started)
      as (_ & H2 & _).
    destruct H2 as (s' & Hrun & _).
    + unfold accepts. vm_compute. constructor.
    + unfold announced. vm_compute. eexists. reflexivity.
    + exact (ex_intro _ s' Hrun).
Defined.

(** ** [remove_empty_intent_examples] *)

Section Intents.
Import Evaluate.

Lemma has_target_spec r :
  has_target r = true ↔ target r ≠ None ∧ target r ≠ Some "".
Proof.
  unfold has_target. destruct (target r) as [t|].
  - rewrite negb_true_iff, bool_decide_eq_false. split.
    + intros Hne. split; [done | congruence].
    + intros [_ Hne] ->. done.
  - split; [done | by intros [? _]].
Qed.

Lemma remove_empty_fold l acc :
  fold_left
    (λ filtered r,
       let r := match prediction r with
                | None => _replace_prediction r "no predicted"
                | Some _ => r
                end in
       if has_target r then filtered ++ [r] else filtered) l acc
  = acc ++
    ((λ r, Result (target r) (Some (default "no predicted" (prediction r)))
             (message r) (confidence r))
     <$> filter (λ r, target r ≠ None ∧ target r ≠ Some "") l).
Proof.
  revert acc. induction l as [|r l IH]; intros acc; simpl.
  - by rewrite app_nil_r.
  - rewrite IH. clear IH.
    assert (Hfix : has_target
              match prediction r with
              | None => _replace_prediction r "no predicted"
              | Some _ => r
              end = has_target r).
    { by destruct (prediction r). }
    rewrite Hfix. destruct (has_target r) eqn:Ht.
    + apply has_target_spec in Ht. rewrite filter_cons_True by done.
      rewrite fmap_cons, <- app_assoc. simpl. do 2 f_equal.
      destruct r as [t [p|] m c]; reflexivity.
    + rewrite filter_cons_False; [done|].
      intros Hr%has_target_spec. congruence.
Qed.

(** C10.  [remove_empty_intent_examples] returns exactly the results whose
    target is neither [None] nor the empty string, in their original order;
    in each of them a prediction that was [None] reads "no predicted", and
    target, message, confidence and any other prediction are as they were. *)
Theorem remove_empty_intent_examples_spec (intent_results : list IntentEvaluationResult) :
  remove_empty_intent_examples intent_results =
    (λ r, Result (target r) (Some (default "no predicted" (prediction r)))
            (message r) (confidence r))
    <$> filter (λ r, target r ≠ None ∧ target r ≠ Some "") intent_results.
Proof. unfold remove_empty_intent_examples. by rewrite remove_empty_fold. Qed.

End Intents.

(** ** [UpdateInterpreters.get] *)

Section Interpreters.
Context `{Backend}.
Import UpdateInterpreters.

Lemma get_unfold depth rv ra use_cache s :
  get (S depth) rv ra use_cache s =
    let update_request := parse_nlu (requests s) rv ra in
    let key := repository_name update_request in
    let uuid := format (field update_request "repository_uuid") in
    let reload :=
      if retrieve_ok (next_directory s) then
        get depth rv ra true
          (State (<[key := Interpreter (next_directory s) rv ra uuid]> (interpreters s))
             (S (requests s)) (S (next_directory s))
             (retrieved s ++ [(uuid, next_directory s)]))
      else Raised (State (interpreters s) (S (requests s)) (S (next_directory s))
                     (retrieved s ++ [(uuid, next_directory s)])) in
    match interpreters s !! key with
    | Some i => if use_cache then
                  Returned i (State (interpreters s) (S (requests s))
                                (next_directory s) (retrieved s))
                else reload
    | None => reload
    end.
Proof. reflexivity. Qed.

(** Whatever the backend answers, a returned interpreter is the cache's
    entry under the key of the last answer. *)
Lemma get_returns_entry depth rv ra use_cache s i s' :
  get depth rv ra use_cache s = Returned i s' →
  ∃ n, requests s' = S n ∧ requests s ≤ n
       ∧ interpreters s' !! repository_name (parse_nlu n rv ra) = Some i.
Proof.
  revert use_cache s. induction depth as [|depth IH]; intros use_cache s; [done|].
  rewrite get_unfold. cbv zeta.
  assert (Hreload :
    (if retrieve_ok (next_directory s) then
        get depth rv ra true
          (State (<[repository_name (parse_nlu (requests s) rv ra) :=
                      Interpreter (next_directory s) rv ra
                        (format (field (parse_nlu (requests s) rv ra) "repository_uuid"))]>
                    (interpreters s))
             (S (requests s)) (S (next_directory s))
             (retrieved s ++
                [(format (field (parse_nlu (requests s) rv ra) "repository_uuid"),
                  next_directory s)]))
      else Raised (State (interpreters s) (S (requests s)) (S (next_directory s))
                     (retrieved s ++
                        [(format (field (parse_nlu (requests s) rv ra) "repository_uuid"),
                          next_directory s)]))) = Returned i s' →
    ∃ n, requests s' = S n ∧ requests s ≤ n
         ∧ interpreters s' !! repository_name (parse_nlu n rv ra) = Some i).
  { destruct (retrieve_ok (next_directory s)); [|done].
    intros (n & Hn & Hle & Hi)%IH. simpl in Hle. exists n. split; [done|]. split; [lia|done]. }
  destruct (interpreters s !! repository_name (parse_nlu (requests s) rv ra))
    as [j|] eqn:Hj; [|exact Hreload].
  destruct use_cache; [|exact Hreload].
  intros [= -> <-]. exists (requests s). simpl. done.
Qed.

(** A call that accepts the cache overwrites no entry, and what it
    retrieves comes after what was retrieved. *)
Lemma get_cached_keeps depth : ∀ rv ra s i s',
  get depth rv ra true s = Returned i s' →
  (∀ k j, interpreters s !! k = Some j → interpreters s' !! k = Some j)
  ∧ ∃ rest, retrieved s' = retrieved s ++ rest.
Proof.
  induction depth as [|depth IH]; intros rv ra s i s'; [done|].
  rewrite get_unfold. cbv zeta.
  destruct (interpreters s !! repository_name (parse_nlu (requests s) rv ra))
    as [j0|] eqn:Hkey.
  { intros [= _ <-]. cbn [interpreters retrieved]. split; [done|].
    exists []. by rewrite app_nil_r. }
  destruct (retrieve_ok (next_directory s)); [|done].
  intros [Hkeep [rest Hrest] ]%IH. cbn [interpreters retrieved] in Hkeep, Hrest.
  split.
  - intros k j Hk. apply Hkeep. rewrite lookup_insert_ne; [done|].
    intros <-. congruence.
  - eexists. rewrite Hrest, <- app_assoc. reflexivity.
Qed.

(** C9.  [UpdateInterpreters.get]: with [use_cache] and an entry under the
    key built from the backend's answer, that entry is returned and nothing
    is retrieved.  Otherwise a model is retrieved and loaded and stored
    under the key, and [get] calls itself, which asks the backend again:
    when the next answer gives the same key the loaded model is returned;
    whenever the call returns, the loaded model is still the cache's entry
    under the key, and the interpreter returned is the cache's entry under
    the key of the backend's last answer. *)
Theorem get_serves_from_cache (repository_version repository_authorization : string)
    (use_cache : bool) (s : state) (depth : nat) :
  let update_request :=
    parse_nlu (requests s) repository_version repository_authorization in
  let key := repository_name update_request in
  let uuid := format (field update_request "repository_uuid") in
  let loaded :=
    Interpreter (next_directory s) repository_version repository_authorization uuid in
  (∀ i, use_cache = true → interpreters s !! key = Some i →
     get (S depth) repository_version repository_authorization use_cache s
       = Returned i (State (interpreters s) (S (requests s)) (next_directory s)
                       (retrieved s)))
  ∧ (use_cache = false ∨ interpreters s !! key = None →
     retrieve_ok (next_directory s) = true →
     repository_name
       (parse_nlu (S (requests s)) repository_version repository_authorization) = key →
     get (S (S depth)) repository_version repository_authorization use_cache s
       = Returned loaded
           (State (<[key := loaded]> (interpreters s)) (S (S (requests s)))
              (S (next_directory s))
              (retrieved s ++ [(uuid, next_directory s)])))
  ∧ (use_cache = false ∨ interpreters s !! key = None →
     ∀ i s',
       get depth repository_version repository_authorization use_cache s
       = Returned i s' →
       retrieve_ok (next_directory s) = true
       ∧ interpreters s' !! key = Some loaded
       ∧ ∃ rest, retrieved s' = retrieved s ++ (uuid, next_directory s) :: rest)
  ∧ (∀ i s',
       get depth repository_version repository_authorization use_cache s
       = Returned i s' →
       ∃ n, requests s' = S n ∧ requests s ≤ n
            ∧ interpreters s'
                !! repository_name
                     (parse_nlu n repository_version repository_authorization)
              = Some i).
Proof.
  cbv zeta. split; [|split; [|split] ].
  - intros i -> Hi. rewrite get_unfold. cbv zeta. by rewrite Hi.
  - intros Hmiss Hok Hsame. rewrite get_unfold. cbv zeta. rewrite Hok.
    assert (Hnested :
      get (S depth) repository_version repository_authorization true
        (State (<[repository_name (parse_nlu (requests s) repository_version
                                     repository_authorization) :=
                    Interpreter (next_directory s) repository_version
                      repository_authorization
                      (format (field (parse_nlu (requests s) repository_version
                                        repository_authorization) "repository_uuid"))]>
                  (interpreters s))
           (S (requests s)) (S (next_directory s))
           (retrieved s ++
              [(format (field (parse_nlu (requests s) repository_version
                                 repository_authorization) "repository_uuid"),
                next_directory s)]))
      = Returned
          (Interpreter (next_directory s) repository_version repository_authorization
             (format (field (parse_nlu (requests s) repository_version
                               repository_authorization) "repository_uuid")))
          (State (<[repository_name (parse_nlu (requests s) repository_version
                                       repository_authorization) :=
                      Interpreter (next_directory s) repository_version
                        repository_authorization
                        (format (field (parse_nlu (requests s) repository_version
                                          repository_authorization) "repository_uuid"))]>
                    (interpreters s))
             (S (S (requests s))) (S (next_directory s))
             (retrieved s ++
                [(format (field (parse_nlu (requests s) repository_version
                                   repository_authorization) "repository_uuid"),
                  next_directory s)]))).
    { rewrite get_unfold. cbv zeta. simpl. rewrite Hsame.
      by rewrite lookup_insert_eq. }
    destruct Hmiss as [-> | Hnone].
    + by destruct (interpreters s !! _).
    + by rewrite Hnone.
  - intros Hmiss i s'. destruct depth as [|depth]; [done|].
    rewrite get_unfold. cbv zeta.
    assert (Hreload :
      (if retrieve_ok (next_directory s) then
         get depth repository_version repository_authorization true
           (State (<[repository_name (parse_nlu (requests s) repository_version
                                        repository_authorization) :=
                       Interpreter (next_directory s) repository_version
                         repository_authorization
                         (format (field (parse_nlu (requests s) repository_version
                                           repository_authorization)
                                    "repository_uuid"))]>
                     (interpreters s))
              (S (requests s)) (S (next_directory s))
              (retrieved s ++
                 [(format (field (parse_nlu (requests s) repository_version
                                    repository_authorization) "repository_uuid"),
                   next_directory s)]))
       else Raised (State (interpreters s) (S (requests s)) (S (next_directory s))
                      (retrieved s ++
                         [(format (field (parse_nlu (requests s) repository_version
                                            repository_authorization)
                                     "repository_uuid"),
                           next_directory s)]))) = Returned i s' →
      retrieve_ok (next_directory s) = true
      ∧ interpreters s'
          !! repository_name (parse_nlu (requests s) repository_version
                                repository_authorization)
        = Some (Interpreter (next_directory s) repository_version
                  repository_authorization
                  (format (field (parse_nlu (requests s) repository_version
                                    repository_authorization) "repository_uuid")))
      ∧ ∃ rest,
          retrieved s'
          = retrieved s ++
            (format (field (parse_nlu (requests s) repository_version
                               repository_authorization) "repository_uuid"),
             next_directory s) :: rest).
    { destruct (retrieve_ok (next_directory s)); [|done].
      intros [Hkeep [rest Hrest] ]%get_cached_keeps.
      cbn [interpreters retrieved] in Hkeep, Hrest.
      split; [done|]. split.
      - apply Hkeep. by rewrite lookup_insert_eq.
      - exists rest. by rewrite Hrest, <- app_assoc. }
    destruct Hmiss as [-> | Hnone].
    + by destruct (interpreters s !! _).
    + by rewrite Hnone.
  - intros i s'. apply get_returns_entry.
Qed.

End Interpreters.

(** On the sample backend: the first call loads the model into directory 0
    and stores it under "7_3_en"; the second call is served from the cache. *)
Lemma get_serves_from_cache_witness :
  @UpdateInterpreters.get Sample.backend 2 "v1" "auth" true Sample.no_interpreters
    = UpdateInterpreters.Returned
        (UpdateInterpreters.Interpreter 0 "v1" "auth" "r-1")
        (UpdateInterpreters.State
           {[ "7_3_en" := UpdateInterpreters.Interpreter 0 "v1" "auth" "r-1" ]}
           2 1 [("r-1", 0)])
  ∧ @UpdateInterpreters.get Sample.backend 1 "v1" "auth" true
      (UpdateInterpreters.State
         {[ "7_3_en" := UpdateInterpreters.Interpreter 0 "v1" "auth" "r-1" ]}
         2 1 [("r-1", 0)])
    = UpdateInterpreters.Returned
        (UpdateInterpreters.Interpreter 0 "v1" "auth" "r-1")
        (UpdateInterpreters.State
           {[ "7_3_en" := UpdateInterpreters.Interpreter 0 "v1" "auth" "r-1" ]}
           3 1 [("r-1", 0)]).
Proof.
  split.
  - destruct (@get_serves_from_cache Sample.backend "v1" "auth" true
                Sample.no_interpreters 0) as (_ & Hmiss & _).
    rewrite Hmiss; [vm_compute; reflexivity | by right | reflexivity | reflexivity].
  - destruct (@get_serves_from_cache Sample.backend "v1" "auth" true
                (UpdateInterpreters.State
                   {[ "7_3_en" := UpdateInterpreters.Interpreter 0 "v1" "auth" "r-1" ]}
                   2 1 [("r-1", 0)]) 0) as (Hhit & _).
    apply Hhit; [reflexivity | vm_compute; reflexivity].
Defined.

(** C9, the claim as stated fails.  On a backend whose answers change
    after the first request, the key of the first answer is "7_3_en".
    With nothing cached, the call retrieves twice and returns the model it
    stored under the key of the later answers, which is not the cache's
    entry under "7_3_en".  With [use_cache] false and a model cached under
    the later key, the call stores a fresh model under "7_3_en" and returns
    the cached one. *)
Lemma retrained_model_is_another_entry :
  UpdateInterpreters.repository_name (@parse_nlu Worlds.retrained 0 "v1" "auth")
  = "7_3_en"
  ∧ (∃ i s',
       @UpdateInterpreters.get Worlds.retrained 3 "v1" "auth" true
         Sample.no_interpreters
       = UpdateInterpreters.Returned i s'
       ∧ UpdateInterpreters.interpreters Sample.no_interpreters !! "7_3_en" = None
       ∧ UpdateInterpreters.interpreters s' !! "7_3_en" ≠ Some i)
  ∧ ∃ s',
      @UpdateInterpreters.get Worlds.retrained 2 "v1" "auth" false Worlds.stale
      = UpdateInterpreters.Returned
          (UpdateInterpreters.Interpreter 0 "v0" "auth" "r-1") s'
      ∧ UpdateInterpreters.interpreters Worlds.stale !! "7_4_en"
        = Some (UpdateInterpreters.Interpreter 0 "v0" "auth" "r-1")
      ∧ UpdateInterpreters.interpreters s' !! "7_3_en"
        = Some (UpdateInterpreters.Interpreter 1 "v1" "auth" "r-1").
Proof.
  split; [vm_compute; reflexivity|]. split.
  - eexists _, _. split; [vm_compute; reflexivity|]. split; [done|].
    vm_compute. discriminate.
  - eexists. split; [vm_compute; reflexivity|]. split; vm_compute; reflexivity.
Qed.

(** ** Resolution: [_get_bot_data] *)

Section Resolution.
Context `{Externals}.
Import BotManager.
Local Open Scope py_scope.
Local Arguments redis_set : simpl never.

Lemma bind_run {A B} (m : M A) (k : A → M B) s a s1 :
  m s = Ok a s1 → bind m k s = k a s1.
Proof. unfold bind. by intros ->. Qed.

Lemma bind_raise {A B} (m : M A) (k : A → M B) s e s1 :
  m s = Raise e s1 → bind m k s = Raise e s1.
Proof. unfold bind. by intros ->. Qed.

Lemma origin_reads_app s l :
  filter (λ ev, is_origin_read ev = true) (log s ++ l)
  = origin_reads s ++ filter (λ ev, is_origin_read ev = true) l.
Proof. unfold origin_reads. by rewrite filter_app. Qed.

Lemma registry_only_refl s : registry_only s s.
Proof. by repeat split. Qed.

Lemma registry_only_trans s1 s2 s3 :
  registry_only s1 s2 → registry_only s2 s3 → registry_only s1 s3.
Proof.
  unfold registry_only. intros H12 H23. destruct_and!.
  repeat split; congruence.
Qed.

(** Whatever it ends in, a claim touches the registry only. *)
Lemma claim_registry_only u s :
  registry_only s (state_of (_set_bot_in_instance_redis u s)).
Proof.
  unfold accepts, announced.
  destruct (set_replies s) as [|[] [|[] rest]] eqn:Hs;
    destruct (redis s !! server_key (instance_ip s)) as [e|] eqn:He.
  all: unfold _set_bot_in_instance_redis, redis_set, redis_get, print, str_utf8,
         bind, emit, gets, modify, ret, raise; sproj; rewrite Hs; sproj;
       rewrite ?lookup_insert_ne by apply bot_key_ne_server_key;
       rewrite ?He; sproj; rewrite ?Hs; sproj.
  all: unfold registry_only, origin_reads; sproj; rewrite <- ?app_assoc;
       rewrite ?filter_app; simpl; rewrite ?app_nil_r; by repeat split.
Qed.

(** [_start_bot_process] always returns: it allocates the four channel
    objects and the process, starts it and stamps the entry. *)
Lemma start_bot_process_run bot s :
  _start_bot_process bot s =
    Ok (new_entry s)
       (with_ticks (S (ticks s))
       (with_log (log s ++ [Start (4 + next_id s)])
       (with_processes (insert (4 + next_id s) (new_process s bot))
       (with_events (λ ev, <[3 + next_id s := false]> (<[2 + next_id s := false]> ev))
       (with_queues (λ qs, <[1 + next_id s := []]> (<[next_id s := []]> qs))
       (with_next_id (5 + next_id s) s)))))).
Proof. reflexivity. Qed.

(** Tier 1: the key is in the pool. *)
Lemma resolve_local u s d :
  Dict.get u (_pool s) = Some d →
  _get_bot_data u s = Ok d (with_log (log s ++ [Print "Reusing an instance..."]) s).
Proof.
  intros Hd. unfold _get_bot_data, print, bind, emit, gets, modify, ret.
  by rewrite Hd.
Qed.

(** Tier 2: a snapshot in Redis. *)
Lemma resolve_snapshot u s e bot e' :
  Dict.get u (_pool s) = None →
  redis s !! u = Some e →
  loads (value e) = Some bot →
  accepts 2 s →
  redis s !! server_key (instance_ip s) = Some e' →
  _get_bot_data u s =
    Ok (new_entry s)
       (with_redis
          (λ r, <[server_key (instance_ip s) :=
                    RedisEntry (Text.join " " (Text.split (value e') ++ [bot_key u])) None]>
                  (<[bot_key u := RedisEntry (instance_ip s) (Some 70%Z)]> r))
       (with_set_replies (tail (tail (set_replies s)))
       (with_pool (Dict.set u (new_entry s))
       (with_ticks (S (ticks s))
       (with_log (log s ++
          [RedisGet u; Print "Reusing from redis..."; Start (4 + next_id s);
           RedisSet (bot_key u) (instance_ip s) (Some 70%Z) true;
           RedisGet (server_key (instance_ip s));
           RedisSet (server_key (instance_ip s))
             (Text.join " " (Text.split (value e') ++ [bot_key u])) None true;
           Print "Bot set in redis"])
       (with_processes (insert (4 + next_id s) (new_process s bot))
       (with_events (λ ev, <[3 + next_id s := false]> (<[2 + next_id s := false]> ev))
       (with_queues (λ qs, <[1 + next_id s := []]> (<[next_id s := []]> qs))
       (with_next_id (5 + next_id s) s))))))))).
Proof.
  intros Hd He Hbot Hs He'.
  unfold _get_bot_data. mrun. rewrite Hd. mrun. rewrite He. mrun.
  unfold cloudpickle_loads. rewrite Hbot. mrun.
  erewrite bind_run; [|eapply claim_stored; [exact Hs|sproj; exact He']].
  mrun. f_equal. state_ext.
Qed.

Lemma Bot_get_found u s pickled :
  database s !! u = Some pickled →
  Bot_get u s = Ok pickled (with_log (log s ++ [DbGet u]) s).
Proof. intros Hrow. unfold Bot_get, bind, emit, gets, modify. sproj. by rewrite Hrow. Qed.

Lemma Bot_get_missing u s :
  database s !! u = None →
  Bot_get u s = Raise DoesNotExist (with_log (log s ++ [DbGet u]) s).
Proof. intros Hrow. unfold Bot_get, bind, emit, gets, modify. sproj. by rewrite Hrow. Qed.

(** Tier 3: the database. *)
Lemma resolve_origin u s pickled bot e' :
  Dict.get u (_pool s) = None →
  redis s !! u = None →
  database s !! u = Some pickled →
  loads pickled = Some bot →
  accepts 3 s →
  redis s !! server_key (instance_ip s) = Some e' →
  _get_bot_data u s =
    Ok (new_entry s)
       (with_redis
          (λ r, <[server_key (instance_ip s) :=
                    RedisEntry (Text.join " " (Text.split (value e') ++ [bot_key u])) None]>
                  (<[bot_key u := RedisEntry (instance_ip s) (Some 70%Z)]>
                     (<[u := RedisEntry (dumps bot) None]> r)))
       (with_set_replies (tail (tail (tail (set_replies s))))
       (with_pool (Dict.set u (new_entry s))
       (with_ticks (S (ticks s))
       (with_log (log s ++
          [RedisGet u; Print "Creating a new instance..."; DbGet u;
           RedisSet u (dumps bot) None true; Start (4 + next_id s);
           RedisSet (bot_key u) (instance_ip s) (Some 70%Z) true;
           RedisGet (server_key (instance_ip s));
           RedisSet (server_key (instance_ip s))
             (Text.join " " (Text.split (value e') ++ [bot_key u])) None true;
           Print "Bot set in redis"])
       (with_processes (insert (4 + next_id s) (new_process s bot))
       (with_events (λ ev, <[3 + next_id s := false]> (<[2 + next_id s := false]> ev))
       (with_queues (λ qs, <[1 + next_id s := []]> (<[next_id s := []]> qs))
       (with_next_id (5 + next_id s) s))))))))).
Proof.
  intros Hd He Hrow Hbot [Hs1 Hs2]%accepts_S He'.
  assert (Hne : u ≠ server_key (instance_ip s)) by congruence.
  unfold _get_bot_data. mrun. rewrite Hd. mrun. rewrite He. mrun.
  erewrite bind_run; [|by apply Bot_get_found]. mrun.
  unfold cloudpickle_loads. rewrite Hbot. mrun.
  erewrite bind_run; [|by apply redis_set_stored]. mrun.
  erewrite bind_run;
    [|eapply claim_stored; [by apply Hs2|sproj; by rewrite lookup_insert_ne]].
  mrun. f_equal. state_ext.
Qed.

(** No tier knows the key. *)
Lemma resolve_unknown u s :
  Dict.get u (_pool s) = None →
  redis s !! u = None →
  database s !! u = None →
  _get_bot_data u s =
    Raise DoesNotExist
      (with_log (log s ++ [RedisGet u; Print "Creating a new instance..."; DbGet u]) s).
Proof.
  intros Hd He Hrow.
  unfold _get_bot_data. mrun. rewrite Hd. mrun. rewrite He. mrun.
  erewrite bind_raise; [|by apply Bot_get_missing]. f_equal. state_ext.
Qed.

Lemma state_of_bind_ret {A B} (m : M A) (b : B) s :
  state_of (bind m (λ _, ret b) s) = state_of (m s).
Proof. unfold bind, ret. by destruct (m s). Qed.

Lemma redis_set_cases key val ttl s :
  ∃ b s', redis_set key val ttl s = Ok b s' ∧ registry_only s s'.
Proof.
  unfold redis_set, bind, emit, gets, modify, ret. sproj.
  destruct (set_replies s) as [|[] rest]; sproj.
  all: do 2 eexists; split; [reflexivity|].
  all: unfold registry_only, origin_reads; sproj;
       rewrite ?filter_app; simpl; rewrite ?app_nil_r; by repeat split.
Qed.

(** A resolution that returns leaves the entry it returns in the pool. *)
Lemma resolve_enters_pool u s d s' :
  _get_bot_data u s = Ok d s' → Dict.get u (_pool s') = Some d.
Proof.
  destruct (Dict.get u (_pool s)) as [d0|] eqn:Hd.
  { rewrite (resolve_local u s d0 Hd). by intros [= <- <-]. }
  unfold _get_bot_data. mrun. rewrite Hd. mrun.
  destruct (redis s !! u) as [e|] eqn:He; mrun.
  - unfold cloudpickle_loads. destruct (loads (value e)) as [bot|]; mrun; [|done].
    match goal with
    | |- bind (_set_bot_in_instance_redis u) _ ?s1 = _ → _ =>
        pose proof (claim_registry_only u s1) as (Hpool & _);
        destruct (_set_bot_in_instance_redis u s1) as [[] s2|e0 s2|s2] eqn:Hrun
    end; unfold bind; rewrite Hrun; [| done .. ].
    mrun. intros [= <- <-]. sproj in Hpool. rewrite Hpool. apply dict_get_set.
  - destruct (database s !! u) as [pickled|] eqn:Hrow;
      [erewrite bind_run; [|by apply Bot_get_found]
      |erewrite bind_raise; [done|by apply Bot_get_missing] ].
    mrun. unfold cloudpickle_loads. destruct (loads pickled) as [bot|]; mrun; [|done].
    unfold _set_bot_redis.
    match goal with
    | |- bind (redis_set ?k ?v ?t) _ ?s1 = _ → _ =>
        destruct (redis_set_cases k v t s1) as (b & s2 & Hset & Hreg);
        rewrite (bind_run _ _ _ _ _ Hset)
    end.
    mrun.
    match goal with
    | |- bind (_set_bot_in_instance_redis u) _ ?s3 = _ → _ =>
        pose proof (claim_registry_only u s3) as (Hpool & _);
        destruct (_set_bot_in_instance_redis u s3) as [[] s4|e0 s4|s4] eqn:Hrun
    end; unfold bind; rewrite Hrun; [| done .. ].
    mrun. intros [= <- <-]. sproj in Hpool. rewrite Hpool. apply dict_get_set.
Qed.

(** While the pool or Redis knows the key, the database is not asked,
    however the resolution ends. *)
Lemma resolve_spares_origin u s :
  is_Some (Dict.get u (_pool s)) ∨ is_Some (redis s !! u) →
  origin_reads (state_of (_get_bot_data u s)) = origin_reads s.
Proof.
  intros Hhit.
  destruct (Dict.get u (_pool s)) as [d0|] eqn:Hd.
  { rewrite (resolve_local u s d0 Hd). unfold origin_reads. sproj.
    rewrite filter_app. simpl. by rewrite app_nil_r. }
  destruct Hhit as [[? [=]]|[e He]].
  unfold _get_bot_data. mrun. rewrite Hd. mrun. rewrite He. mrun.
  unfold cloudpickle_loads. destruct (loads (value e)) as [bot|]; mrun.
  - rewrite state_of_bind_ret.
    match goal with
    | |- context [_set_bot_in_instance_redis u ?s1] =>
        pose proof (claim_registry_only u s1) as Hreg
    end.
    unfold registry_only in Hreg. destruct_and!.
    match goal with Hor : origin_reads _ = origin_reads _ |- _ => rewrite Hor end.
    unfold origin_reads. sproj. rewrite <- ?app_assoc, filter_app. simpl.
    by rewrite app_nil_r.
  - unfold origin_reads. sproj. rewrite <- ?app_assoc, filter_app. simpl.
    by rewrite app_nil_r.
Qed.

Lemma uuid_ne_bot_key u : u ≠ bot_key u.
Proof.
  intros Heq. apply (f_equal String.length) in Heq.
  change (bot_key u) with (String "B" (String "O" (String "T" (String "-" u)))) in Heq.
  simpl in Heq. lia.
Qed.

Lemma ask_request_raises question u s e s' :
  _get_bot_data u s = Raise e s' → ask_request question u s = Raise e s'.
Proof.
  intros Hrun. unfold ask_request, _get_questions_queue.
  erewrite bind_raise; [done|]. erewrite bind_raise; done.
Qed.

(** C8.  A key that neither the pool, nor Redis, nor the database knows:
    the resolution raises the database's [DoesNotExist] after one lookup,
    [ask] passes the same error on to its caller, and the pool, Redis and
    the processes are as they were. *)
Theorem unknown_session_not_found (meanwhile : state → state)
    (question bot_uuid : string) (s : state) :
  Dict.get bot_uuid (_pool s) = None →
  redis s !! bot_uuid = None →
  database s !! bot_uuid = None →
  ∃ s', _get_bot_data bot_uuid s = Raise DoesNotExist s'
        ∧ ask meanwhile question bot_uuid s = Raise DoesNotExist s'
        ∧ _pool s' = _pool s ∧ redis s' = redis s ∧ processes s' = processes s
        ∧ origin_reads s' = origin_reads s ++ [DbGet bot_uuid].
Proof.
  intros Hd He Hrow. pose proof (resolve_unknown _ _ Hd He Hrow) as Hrun.
  eexists. split; [exact Hrun|]. split.
  - unfold ask. erewrite bind_raise; [done|]. by apply ask_request_raises.
  - sproj. repeat split. unfold origin_reads. sproj. by rewrite filter_app.
Qed.
End Resolution.

(** On the started sample machine nobody knows "c". *)
Lemma unknown_session_witness :
  ∃ s', @BotManager.ask Sample.externals id "hello" "c" Sample.started
          = BotManager.Raise BotManager.DoesNotExist s'
        ∧ BotManager._pool s' = BotManager._pool Sample.started.
Proof.
  destruct (@unknown_session_not_found Sample.externals id "hello" "c" Sample.started)
    as (s' & _ & Hask & Hpool & _).
  - reflexivity.
  - vm_compute. reflexivity.
  - vm_compute. reflexivity.
  - exact (ex_intro _ s' (conj Hask Hpool)).
Defined.

(** ** The ask protocol *)

Section Ask.
Context `{Externals}.
Import BotManager.
Local Open Scope py_scope.

Lemma touch_run u now s d :
  Dict.get u (_pool s) = Some d →
  touch u now s =
    Ok () (with_pool
             (Dict.set u
                (BotData (bot_instance d) (answers_queue d) (questions_queue d)
                   (new_question_event d) (new_answer_event d) now)) s).
Proof. intros Hd. unfold touch, pool_setitem, bind, gets, modify. by rewrite Hd. Qed.

Lemma ask_request_run question u s d s1 :
  _get_bot_data u s = Ok d s1 →
  ask_request question u s =
    Ok (answers_queue d, new_answer_event d)
       (with_pool
          (Dict.set u
             (BotData (bot_instance d) (answers_queue d) (questions_queue d)
                (new_question_event d) (new_answer_event d) (clock (ticks s1))))
       (with_ticks (S (ticks s1))
       (with_events (insert (new_question_event d) true)
       (with_queues (alter (λ items, items ++ [question]) (questions_queue d))
       (with_log (log s1 ++ [Print "Reusing an instance..."; Print "Reusing an instance...";
                             Print "Reusing an instance..."]) s1))))).
Proof.
  intros Hrun. pose proof (resolve_enters_pool _ _ _ _ Hrun) as Hd.
  unfold ask_request, _get_questions_queue, _get_answers_queue,
    _get_new_question_event, _get_new_answer_event.
  erewrite bind_run; [|erewrite bind_run; [|exact Hrun]; reflexivity].
  erewrite bind_run;
    [|erewrite bind_run; [|apply resolve_local; exact Hd]; reflexivity].
  mrun.
  erewrite bind_run;
    [|erewrite bind_run; [|apply resolve_local; sproj; exact Hd]; reflexivity].
  mrun.
  erewrite bind_run;
    [|erewrite bind_run; [|apply resolve_local; sproj; exact Hd]; reflexivity].
  mrun. erewrite bind_run; [|apply touch_run; sproj; exact Hd].
  mrun. f_equal. state_ext.
Qed.

Lemma ask_response_parked answers_queue new_answer_event s :
  Event_is_set new_answer_event s = false →
  ask_response (answers_queue, new_answer_event) s = Parked s.
Proof. intros Hev. unfold ask_response, Event_wait, bind. by rewrite Hev. Qed.

Lemma ask_response_answer answers_queue new_answer_event s answer waiting :
  Event_is_set new_answer_event s = true →
  queues s !! answers_queue = Some (answer :: waiting) →
  ask_response (answers_queue, new_answer_event) s =
    Ok answer (with_queues (insert answers_queue waiting)
                 (with_events (insert new_answer_event false) s)).
Proof.
  intros Hev Hq. unfold ask_response, Event_wait, Event_clear, Queue_get, bind, modify.
  rewrite Hev. sproj. by rewrite Hq.
Qed.

(** C2.  [ask]: once the entry is resolved, the question is appended to the
    entry's question queue, the question event is set and the entry's
    [last_time_update] is set to the clock, all before the wait; the wait
    has no timeout: while the answer event is down the call stays parked
    whatever the clock reads; once the event is up it is cleared and the
    head of the answer queue, and nothing more, is taken and returned;
    a resolution that finds the key in the pool leaves every time stamp as
    it was. *)
Theorem ask_protocol (question bot_uuid : string) (s : state) :
  (∀ d s1, _get_bot_data bot_uuid s = Ok d s1 →
     ∃ s2, ask_request question bot_uuid s
             = Ok (answers_queue d, new_answer_event d) s2
           ∧ queues s2
               = alter (λ items, items ++ [question]) (questions_queue d) (queues s1)
           ∧ events s2 = <[new_question_event d := true]> (events s1)
           ∧ Dict.get bot_uuid (_pool s2)
               = Some (BotData (bot_instance d) (answers_queue d) (questions_queue d)
                         (new_question_event d) (new_answer_event d)
                         (clock (ticks s1))))
  ∧ (∀ answers_queue new_answer_event s3,
     (Event_is_set new_answer_event s3 = false →
        ask_response (answers_queue, new_answer_event) s3 = Parked s3)
     ∧ (∀ answer waiting,
        Event_is_set new_answer_event s3 = true →
        queues s3 !! answers_queue = Some (answer :: waiting) →
        ask_response (answers_queue, new_answer_event) s3
          = Ok answer (with_queues (insert answers_queue waiting)
                         (with_events (insert new_answer_event false) s3))))
  ∧ (∀ meanwhile held s2,
     ask_request question bot_uuid s = Ok held s2 →
     ask meanwhile question bot_uuid s = ask_response held (meanwhile s2))
  ∧ (∀ d, Dict.get bot_uuid (_pool s) = Some d →
     _pool (state_of (_get_bot_data bot_uuid s)) = _pool s).
Proof.
  split; [|split; [|split]].
  - intros d s1 Hrun. rewrite (ask_request_run _ _ _ _ _ Hrun).
    eexists. split; [reflexivity|]. sproj. repeat split. apply dict_get_set.
  - intros aq ev s3. split.
    + apply ask_response_parked.
    + intros answer waiting. apply ask_response_answer.
  - intros meanwhile held s2 Hreq. unfold ask.
    rewrite (bind_run _ _ _ _ _ Hreq). reflexivity.
  - intros d Hd. by rewrite (resolve_local _ _ _ Hd).
Qed.

End Ask.

(** Scenario A on the started sample machine: "b" is not known yet, the
    worker answers while the caller waits, and the caller gets the answer. *)
Lemma ask_protocol_witness :
  ∃ s', @BotManager.ask Sample.externals
          (@worker_round Sample.externals Sample.stub_engine 4)
          "hello" "b" Sample.started
        = BotManager.Ok "stub-answer" s'.
Proof.
  destruct (@ask_protocol Sample.externals "hello" "b" Sample.started)
    as (_ & _ & Hask & _).
  erewrite Hask; [|vm_compute; reflexivity].
  eexists. vm_compute. reflexivity.
Defined.

(** ** The tiers of the resolution *)

Section Tiers.
Context `{Externals}.
Import BotManager.
Local Open Scope py_scope.

Lemma ask_request_resolved question u s held s1 :
  ask_request question u s = Ok held s1 → ∃ d s0, _get_bot_data u s = Ok d s0.
Proof.
  destruct (_get_bot_data u s) as [d s0|e s0|s0] eqn:Hres; [by eauto| |].
  - by rewrite (ask_request_raises _ _ _ _ _ Hres).
  - unfold ask_request, _get_questions_queue, bind. by rewrite Hres.
Qed.

(** C1.  Resolution, [_get_bot_data], goes through the pool, Redis and the
    database in that order and stops at the first that knows the key:
    a key in the pool gives the entry the pool holds, with nothing else
    done; an entry once returned is in the pool, so the next call for the
    key returns the same entry, hence the same worker; while the pool or
    Redis knows the key the database is not asked, however the call ends;
    a key known to Redis only is unpickled from the snapshot, served by a
    new process, entered last in the pool and published in the registry;
    a key known to neither is fetched from the database, its pickle is
    written to Redis, and only then is the process started, the entry
    entered and the ownership published. *)
Theorem resolve_tiers (bot_uuid : string) (s : state) :
  (∀ d, Dict.get bot_uuid (_pool s) = Some d →
     _get_bot_data bot_uuid s
       = Ok d (with_log (log s ++ [Print "Reusing an instance..."]) s))
  ∧ (∀ d s', _get_bot_data bot_uuid s = Ok d s' →
     ∃ s'', _get_bot_data bot_uuid s' = Ok d s'' ∧ _pool s'' = _pool s'
            ∧ processes s'' = processes s')
  ∧ (∀ question1 question2 held s1,
     ask_request question1 bot_uuid s = Ok held s1 →
     ∃ s2, ask_request question2 bot_uuid s1 = Ok held s2
           ∧ bot_instance <$> Dict.get bot_uuid (_pool s2)
             = bot_instance <$> Dict.get bot_uuid (_pool s1)
           ∧ processes s2 = processes s1)
  ∧ (is_Some (Dict.get bot_uuid (_pool s)) ∨ is_Some (redis s !! bot_uuid) →
     origin_reads (state_of (_get_bot_data bot_uuid s)) = origin_reads s)
  ∧ (∀ e bot,
     Dict.get bot_uuid (_pool s) = None →
     redis s !! bot_uuid = Some e →
     loads (value e) = Some bot →
     accepts 2 s → announced s →
     ∃ s', _get_bot_data bot_uuid s = Ok (new_entry s) s'
           ∧ processes s' !! bot_instance (new_entry s) = Some (new_process s bot)
           ∧ _pool s' = _pool s ++ [(bot_uuid, new_entry s)]
           ∧ redis s' !! bot_key bot_uuid
               = Some (RedisEntry (instance_ip s) (Some 70%Z))
           ∧ redis s' !! server_key (instance_ip s)
               = Some (RedisEntry
                         (Text.join " " (listed s ++ [bot_key bot_uuid])) None)
           ∧ log s' = log s ++
               [RedisGet bot_uuid; Print "Reusing from redis...";
                Start (bot_instance (new_entry s));
                RedisSet (bot_key bot_uuid) (instance_ip s) (Some 70%Z) true;
                RedisGet (server_key (instance_ip s));
                RedisSet (server_key (instance_ip s))
                  (Text.join " " (listed s ++ [bot_key bot_uuid])) None true;
                Print "Bot set in redis"])
  ∧ (∀ pickled bot,
     Dict.get bot_uuid (_pool s) = None →
     redis s !! bot_uuid = None →
     database s !! bot_uuid = Some pickled →
     loads pickled = Some bot →
     accepts 3 s → announced s →
     ∃ s', _get_bot_data bot_uuid s = Ok (new_entry s) s'
           ∧ processes s' !! bot_instance (new_entry s) = Some (new_process s bot)
           ∧ _pool s' = _pool s ++ [(bot_uuid, new_entry s)]
           ∧ redis s' !! bot_uuid = Some (RedisEntry (dumps bot) None)
           ∧ redis s' !! bot_key bot_uuid
               = Some (RedisEntry (instance_ip s) (Some 70%Z))
           ∧ redis s' !! server_key (instance_ip s)
               = Some (RedisEntry
                         (Text.join " " (listed s ++ [bot_key bot_uuid])) None)
           ∧ log s' = log s ++
               [RedisGet bot_uuid; Print "Creating a new instance...";
                DbGet bot_uuid; RedisSet bot_uuid (dumps bot) None true;
                Start (bot_instance (new_entry s));
                RedisSet (bot_key bot_uuid) (instance_ip s) (Some 70%Z) true;
                RedisGet (server_key (instance_ip s));
                RedisSet (server_key (instance_ip s))
                  (Text.join " " (listed s ++ [bot_key bot_uuid])) None true;
                Print "Bot set in redis"]).
Proof.
  split; [|split; [|split; [|split; [|split]]]].
  - apply resolve_local.
  - intros d s' Hd%resolve_enters_pool. rewrite (resolve_local _ _ _ Hd).
    eexists. by repeat split.
  - intros question1 question2 held s1 Hask.
    destruct (ask_request_resolved _ _ _ _ _ Hask) as (d & s0 & Hres).
    rewrite (ask_request_run _ _ _ _ _ Hres) in Hask. injection Hask as <- <-.
    set (d' := BotData (bot_instance d) (answers_queue d) (questions_queue d)
                 (new_question_event d) (new_answer_event d) (clock (ticks s0))).
    match goal with |- ∃ _, ask_request _ _ ?s1 = _ ∧ _ =>
      assert (Hd' : Dict.get bot_uuid (_pool s1) = Some d')
        by (sproj; apply dict_get_set);
      rewrite (ask_request_run question2 bot_uuid s1 d' _
                 (resolve_local _ _ _ Hd'))
    end.
    eexists. split; [reflexivity|]. sproj. by rewrite !dict_get_set.
  - apply resolve_spares_origin.
  - intros e bot Hd He Hbot Hs [e' He'].
    rewrite (resolve_snapshot _ _ _ _ _ Hd He Hbot Hs He').
    eexists. split; [reflexivity|]. sproj. unfold listed. rewrite He'.
    repeat split.
    + by rewrite lookup_insert_eq.
    + by apply dict_set_absent.
    + rewrite lookup_insert_ne by (apply not_eq_sym, bot_key_ne_server_key).
      by rewrite lookup_insert_eq.
    + by rewrite lookup_insert_eq.
  - intros pickled bot Hd He Hrow Hbot Hs [e' He'].
    assert (Hne : bot_uuid ≠ server_key (instance_ip s)) by congruence.
    rewrite (resolve_origin _ _ _ _ _ Hd He Hrow Hbot Hs He').
    eexists. split; [reflexivity|]. sproj. unfold listed. rewrite He'.
    repeat split.
    + by rewrite lookup_insert_eq.
    + by apply dict_set_absent.
    + rewrite lookup_insert_ne by done.
      rewrite lookup_insert_ne by (apply not_eq_sym, uuid_ne_bot_key).
      by rewrite lookup_insert_eq.
    + rewrite lookup_insert_ne by (apply not_eq_sym, bot_key_ne_server_key).
      by rewrite lookup_insert_eq.
    + by rewrite lookup_insert_eq.
Qed.

End Tiers.

(** On the started sample machine: "a" is served from its snapshot without
    a request to the database, "b" is fetched from the database and its
    pickle is written to Redis. *)
Lemma resolve_tiers_witness :
  (∃ s', @BotManager._get_bot_data Sample.externals "a" Sample.started
           = BotManager.Ok (@new_entry Sample.externals Sample.started) s'
         ∧ BotManager._pool s'
           = [("a", @new_entry Sample.externals Sample.started)])
  ∧ (∃ s', @BotManager._get_bot_data Sample.externals "b" Sample.started
           = BotManager.Ok (@new_entry Sample.externals Sample.started) s'
         ∧ BotManager.redis s' !! "b" = Some (BotManager.RedisEntry "model-b" None)).
Proof.
  split.
  - destruct (@resolve_tiers Sample.externals "a" Sample.started)
      as (_ & _ & _ & _ & Hsnap & _).
    destruct (Hsnap (BotManager.RedisEntry "model-a" None) "model-a")
      as (s' & Hrun & _ & Hpool & _).
    + reflexivity.
    + vm_compute. reflexivity.
    + reflexivity.
    + unfold accepts. vm_compute. constructor.
    + unfold announced. vm_compute. eexists. reflexivity.
    + exact (ex_intro _ s' (conj Hrun Hpool)).
  - destruct (@resolve_tiers Sample.externals "b" Sample.started)
      as (_ & _ & _ & _ & _ & Hdb).
    destruct (Hdb "model-b" "model-b") as (s' & Hrun & _ & _ & Hsnap & _).
    + reflexivity.
    + vm_compute. reflexivity.
    + vm_compute. reflexivity.
    + reflexivity.
    + unfold accepts. vm_compute. constructor.
    + unfold announced. vm_compute. eexists. reflexivity.
    + exact (ex_intro _ s' (conj Hrun Hsnap)).
Defined.

(** ** The sweep: [garbage_collector] *)

Section Sweep.
Context `{Externals}.
Import BotManager.
Local Open Scope py_scope.
Local Arguments redis_set : simpl never.

Lemma alive_key_ne_server_key ip : alive_key ip ≠ server_key ip.
Proof.
  change (alive_key ip) with ("SERVER-" +:+ ("ALIVE-" +:+ ip)). unfold server_key.
  intros Heq%(inj (String.app "SERVER-")). apply (f_equal String.length) in Heq.
  change ("ALIVE-" +:+ ip)
    with (String "A" (String "L" (String "I" (String "V" (String "E" (String "-" ip))))))
    in Heq.
  simpl in Heq. lia.
Qed.

Lemma alive_key_ne_bot_key ip u : alive_key ip ≠ bot_key u.
Proof. discriminate. Qed.

Lemma available_key_ne_server_key ip : available_key ≠ server_key ip.
Proof. discriminate. Qed.

Lemma state_of_bind {A B} (m : M A) (k : A → M B) s :
  state_of (bind m k s) =
    match m s with
    | Ok a s1 => state_of (k a s1)
    | Raise _ s1 => s1
    | Parked s1 => s1
    end.
Proof. unfold bind. by destruct (m s). Qed.

Lemma redis_delete_present key s o :
  redis s !! key = Some o →
  redis_delete key s =
    Ok 1%Z (with_redis (delete key) (with_log (log s ++ [RedisDelete key 1]) s)).
Proof.
  intros Hk. unfold redis_delete, bind, gets, emit, modify, ret. by rewrite Hk.
Qed.

Lemma redis_delete_absent key s :
  redis s !! key = None →
  redis_delete key s =
    Ok 0%Z (with_redis (delete key) (with_log (log s ++ [RedisDelete key 0]) s)).
Proof.
  intros Hk. unfold redis_delete, bind, gets, emit, modify, ret. by rewrite Hk.
Qed.

(** A successful claim, as the sweep needs it. *)
Lemma claim_step u s :
  obliging s → announced s →
  ∃ s', _set_bot_in_instance_redis u s = Ok () s'
        ∧ obliging s' ∧ registry_only s s'
        ∧ redis s' =
            <[server_key (instance_ip s) :=
                RedisEntry (Text.join " " (listed s ++ [bot_key u])) None]>
              (<[bot_key u := RedisEntry (instance_ip s) (Some 70%Z)]> (redis s)).
Proof.
  intros Hs [e He].
  rewrite (claim_stored u s e (obliging_accepts 2 s Hs) He).
  eexists. split; [reflexivity|]. split; [|split].
  - unfold obliging in *. sproj. destruct Hs as [|?? ? [|]]; by repeat constructor.
  - unfold registry_only, origin_reads. sproj. rewrite filter_app. simpl.
    rewrite app_nil_r. by repeat split.
  - sproj. unfold listed. by rewrite He.
Qed.

(** A successful release. *)
Lemma release_step u s :
  obliging s → announced s →
  is_Some (redis s !! bot_key u) → bot_key u ∈ listed s →
  ∃ s' l, _remove_bot_instance_redis u s = Ok () s'
          ∧ Text.remove (bot_key u) (listed s) = Some l
          ∧ obliging s' ∧ registry_only s s'
          ∧ redis s' =
              <[server_key (instance_ip s) := RedisEntry (Text.join " " l) None]>
                (delete (bot_key u) (redis s)).
Proof.
  intros Hs [e He] [o Ho] Hin.
  destruct (remove_Some _ _ Hin) as [l Hl].
  unfold listed in Hl, Hin. rewrite He in Hl, Hin.
  unfold _remove_bot_instance_redis. mrun.
  erewrite bind_run; [|by eapply redis_delete_present]. mrun.
  change (1 =? 0)%Z with false. mrun.
  rewrite lookup_delete_ne by apply bot_key_ne_server_key. rewrite He. mrun.
  rewrite Hl.
  erewrite bind_run; [|apply redis_set_stored; by apply obliging_accepts]. mrun.
  unfold print, emit, modify.
  exists (with_redis
            (λ r, <[server_key (instance_ip s) := RedisEntry (Text.join " " l) None]>
                    (delete (bot_key u) r))
         (with_set_replies (tail (set_replies s))
         (with_log (log s ++
            [RedisDelete (bot_key u) 1; RedisGet (server_key (instance_ip s));
             RedisSet (server_key (instance_ip s)) (Text.join " " l) None true;
             Print "Removing bot from instance redis"]) s))), l.
  split; [f_equal; state_ext|]. split; [unfold listed; by rewrite He|].
  split; [|split].
  - unfold obliging in *. sproj. destruct Hs; by repeat constructor.
  - unfold registry_only, origin_reads. sproj. rewrite filter_app. simpl.
    rewrite app_nil_r. by repeat split.
  - reflexivity.
Qed.

(** *** What a call leaves alone *)

Global Instance registry_only_preorder : PreOrder registry_only.
Proof.
  split.
  - intros s. apply registry_only_refl.
  - intros s1 s2 s3. apply registry_only_trans.
Qed.

Global Instance pool_kept_preorder : PreOrder pool_kept.
Proof.
  split.
  - by intros s.
  - intros s1 s2 s3 [? ?] [? ?]. split; congruence.
Qed.

Lemma registry_only_pool_kept s s' : registry_only s s' → pool_kept s s'.
Proof. unfold registry_only, pool_kept. intros (Hp & _ & _ & _ & _ & _ & _ & _ & _ & _ & Ht & _). by split. Qed.

Lemma preserves_bind {A B} R `{!PreOrder R} (m : M A) (k : A → M B) :
  preserves R m → (∀ a, preserves R (k a)) → preserves R (bind m k).
Proof.
  intros Hm Hk s. rewrite state_of_bind. specialize (Hm s).
  destruct (m s) as [a s1|e s1|s1]; [|done..].
  etrans; [exact Hm|]. apply Hk.
Qed.

Lemma preserves_ret {A} R `{!PreOrder R} (a : A) : preserves R (ret a).
Proof. by intros s. Qed.

Lemma preserves_raise {A} R `{!PreOrder R} e : preserves R (raise (A:=A) e).
Proof. by intros s. Qed.

Lemma preserves_gets {A} R `{!PreOrder R} (f : state → A) : preserves R (gets f).
Proof. by intros s. Qed.

Lemma preserves_weaken {A} (R R' : state → state → Prop) (m : M A) :
  (∀ s s', R s s' → R' s s') → preserves R m → preserves R' m.
Proof. intros HR Hm s. apply HR, Hm. Qed.

Lemma emit_registry_only ev :
  is_origin_read ev = false → preserves registry_only (emit ev).
Proof.
  intros Hev s. unfold emit, modify, registry_only, origin_reads. sproj.
  rewrite filter_app, filter_cons_False, filter_nil, app_nil_r by by rewrite Hev.
  by repeat split.
Qed.

Lemma print_registry_only msg : preserves registry_only (print msg).
Proof. by apply emit_registry_only. Qed.

Lemma redis_get_registry_only key : preserves registry_only (redis_get key).
Proof.
  unfold redis_get. apply preserves_bind; [apply _|by apply emit_registry_only|].
  intros _. apply preserves_gets, _.
Qed.

Lemma redis_set_registry_only key val ttl : preserves registry_only (redis_set key val ttl).
Proof. intros s. by destruct (redis_set_cases key val ttl s) as (b & s' & -> & Hreg). Qed.

Lemma redis_delete_registry_only key : preserves registry_only (redis_delete key).
Proof.
  intros s. destruct (redis s !! key) as [o|] eqn:Hk.
  - rewrite (redis_delete_present _ _ _ Hk). unfold registry_only, origin_reads.
    sproj. rewrite filter_app. simpl. rewrite app_nil_r. by repeat split.
  - rewrite (redis_delete_absent _ _ Hk). unfold registry_only, origin_reads.
    sproj. rewrite filter_app. simpl. rewrite app_nil_r. by repeat split.
Qed.

Lemma str_utf8_registry_only raw : preserves registry_only (str_utf8 raw).
Proof. destruct raw; [apply preserves_ret, _ | apply preserves_raise, _]. Qed.

Lemma claim_preserves u : preserves registry_only (_set_bot_in_instance_redis u).
Proof. intros s. apply claim_registry_only. Qed.

End Sweep.

(** [preserves_tac] walks through a method built from the primitives above. *)
Ltac preserves_step :=
  lazymatch goal with
  | |- preserves _ (BotManager.print _) => apply print_registry_only
  | |- preserves _ (BotManager.redis_get _) => apply redis_get_registry_only
  | |- preserves _ (BotManager.redis_set _ _ _) => apply redis_set_registry_only
  | |- preserves _ (BotManager.redis_delete _) => apply redis_delete_registry_only
  | |- preserves _ (BotManager.str_utf8 _) => apply str_utf8_registry_only
  | |- preserves _ (BotManager._set_bot_in_instance_redis _) => apply claim_preserves
  | |- preserves _ (BotManager.ret _) => apply preserves_ret; apply _
  | |- preserves _ (BotManager.raise _) => apply preserves_raise; apply _
  | |- preserves _ (BotManager.gets _) => apply preserves_gets; apply _
  | |- preserves _ (BotManager.bind _ _) => apply preserves_bind; [apply _| |intros ?]
  | |- preserves _ (if ?b then _ else _) => destruct b
  | |- preserves _ (match ?x with _ => _ end) => destruct x
  | |- preserves _ (let _ := _ in _) => cbv zeta
  end.

Ltac preserves_tac := repeat preserves_step.

Section SweepLoop.
Context `{Externals}.
Import BotManager.
Local Open Scope py_scope.
Local Arguments redis_set : simpl never.

Lemma release_preserves u : preserves registry_only (_remove_bot_instance_redis u).
Proof. unfold _remove_bot_instance_redis. preserves_tac. Qed.

Lemma server_alive_preserves : preserves registry_only _set_server_alive.
Proof. unfold _set_server_alive. preserves_tac. Qed.

Lemma usage_memory_preserves : preserves registry_only _set_usage_memory.
Proof. unfold _set_usage_memory. preserves_tac. Qed.

Lemma terminate_run pid s :
  terminate pid s =
    Ok () (with_log (log s ++ [Terminate pid])
             (with_processes
                (alter (λ p, Process (p_questions p) (p_answers p) (p_new_question p)
                               (p_new_answer p) (p_bot p) false) pid) s)).
Proof. reflexivity. Qed.

Lemma terminate_pool_kept pid : preserves pool_kept (terminate pid).
Proof. intros s. by rewrite terminate_run. Qed.

Lemma datetime_now_pool_kept : preserves pool_kept datetime_now.
Proof. by intros s. Qed.

(** The loop changes neither the pool map nor the timers, however it ends. *)
Lemma sweep_pool_kept items new_pool : preserves pool_kept (sweep items new_pool).
Proof.
  revert new_pool. induction items as [|[u d] items IH]; intros new_pool.
  - apply preserves_ret, _.
  - cbn [sweep]. apply preserves_bind; [apply _|apply datetime_now_pool_kept|].
    intros now. destruct (negb _).
    + apply preserves_bind; [apply _| |intros _; apply IH].
      eapply preserves_weaken; [apply registry_only_pool_kept|apply claim_preserves].
    + apply preserves_bind; [apply _| |intros _].
      { eapply preserves_weaken; [apply registry_only_pool_kept|apply release_preserves]. }
      apply preserves_bind; [apply _|apply terminate_pool_kept|intros _; apply IH].
Qed.

Lemma bind_assoc {A B C} (m : M A) (k : A → M B) (k' : B → M C) s :
  bind (bind m k) k' s = bind m (λ a, bind (k a) k') s.
Proof. unfold bind. by destruct (m s). Qed.

Lemma bind_ext {A B} (m : M A) (k k' : A → M B) s :
  (∀ a s1, k a s1 = k' a s1) → bind m k s = bind m k' s.
Proof. intros Hk. unfold bind. by destruct (m s). Qed.

Lemma sweep_app items1 items2 new_pool s :
  sweep (items1 ++ items2) new_pool s
  = bind (sweep items1 new_pool) (λ new_pool, sweep items2 new_pool) s.
Proof.
  revert new_pool s. induction items1 as [|[u d] items1 IH]; intros new_pool s.
  - reflexivity.
  - cbn [app sweep]. rewrite bind_assoc. apply bind_ext. intros now s1.
    destruct (negb _).
    + rewrite bind_assoc. apply bind_ext. intros _ s2. apply IH.
    + rewrite bind_assoc. apply bind_ext. intros _ s2.
      rewrite bind_assoc. apply bind_ext. intros _ s3. apply IH.
Qed.

(** C5, as the code has it.  When the release of an idle session raises,
    the sweep ends there: [garbage_collector] raises the same error in the
    state the release left, so the sessions after it are not looked at;
    the pool map is not replaced and no timer is started. *)
Theorem sweep_stops_at_failed_eviction (s s0 s1 s2 : state)
    (before after : list (string * bot_data)) (uuid : string) (d : bot_data)
    (new_pool : Dict.t bot_data) (e : exn) :
  _pool s = before ++ (uuid, d) :: after →
  _set_server_alive s = Ok () s0 →
  sweep before [] s0 = Ok new_pool s1 →
  ¬ young (clock (ticks s1)) d →
  _remove_bot_instance_redis uuid (with_ticks (S (ticks s1)) s1) = Raise e s2 →
  garbage_collector s = Raise e s2 ∧ _pool s2 = _pool s ∧ timers s2 = timers s.
Proof.
  intros Hpool Halive Hbefore Hold Hrelease.
  pose proof (server_alive_preserves s) as Hk0%registry_only_pool_kept.
  rewrite Halive in Hk0. cbn [state_of] in Hk0.
  pose proof (sweep_pool_kept before [] s0) as Hk1.
  rewrite Hbefore in Hk1. cbn [state_of] in Hk1.
  pose proof (release_preserves uuid (with_ticks (S (ticks s1)) s1))
    as Hk2%registry_only_pool_kept.
  rewrite Hrelease in Hk2. cbn [state_of] in Hk2.
  split.
  - unfold garbage_collector.
    rewrite (bind_run _ _ _ _ _ Halive). mrun.
    destruct Hk0 as [-> _]. rewrite Hpool.
    erewrite bind_raise; [done|]. rewrite sweep_app, (bind_run _ _ _ _ _ Hbefore).
    cbn [sweep]. mrun.
    assert (Hcond : negb (five_minutes <=? clock (ticks s1) - last_time_update d)%Z
                    = false).
    { unfold young in Hold. apply negb_false_iff, Z.leb_le. lia. }
    rewrite Hcond. by erewrite bind_raise.
  - destruct Hk0 as [Hp0 Ht0], Hk1 as [Hp1 Ht1], Hk2 as [Hp2 Ht2].
    sproj in Hp2. sproj in Ht2. split; congruence.
Qed.

End SweepLoop.

(** *** The loop when nothing fails *)

Section SweepRun.
Context `{Externals}.
Import BotManager.
Local Open Scope py_scope.
Local Arguments redis_set : simpl never.

Lemma dict_get_set_ne {V} (k k' : string) (v : V) (d : Dict.t V) :
  k ≠ k' → Dict.get k' (Dict.set k v d) = Dict.get k' d.
Proof.
  intros Hne. induction d as [|[k0 v0] d IH]; simpl.
  - by rewrite decide_False by done.
  - destruct (decide (k = k0)) as [->|Hk]; simpl.
    + by rewrite !decide_False by done.
    + destruct (decide (k' = k0)); [done|]. exact IH.
Qed.

Lemma listed_tokens s : Forall Text.token (listed s).
Proof.
  unfold listed. destruct (redis s !! server_key (instance_ip s)).
  - apply split_tokens.
  - constructor.
Qed.

Lemma young_cond now d :
  negb (five_minutes <=? now - last_time_update d)%Z = bool_decide (young now d).
Proof.
  unfold young. destruct (Z.leb_spec five_minutes (now - last_time_update d)).
  - by rewrite bool_decide_eq_false_2 by lia.
  - by rewrite bool_decide_eq_true_2 by lia.
Qed.

Lemma survivors_keys t items k :
  k ∈ (survivors t items).*1 → k ∈ items.*1.
Proof.
  revert t. induction items as [|[u d] items IH]; intros t; cbn [survivors]; [done|].
  destruct (decide _); rewrite ?fmap_cons, ?elem_of_cons.
  - intros [->|Hk]; [by left|right; by eapply IH].
  - intros Hk. right. by eapply IH.
Qed.


Lemma listed_after_claim s s' u :
  instance_ip s' = instance_ip s →
  redis s' =
    <[server_key (instance_ip s) :=
        RedisEntry (Text.join " " (listed s ++ [bot_key u])) None]>
      (<[bot_key u := RedisEntry (instance_ip s) (Some 70%Z)]> (redis s)) →
  listed s' = listed s ++ Text.split (bot_key u).
Proof.
  intros Hip Hredis. unfold listed at 1. rewrite Hip, Hredis, lookup_insert_eq.
  cbn [value]. rewrite split_join, bind_app, bind_split_tokens by apply listed_tokens.
  simpl. by rewrite app_nil_r.
Qed.

Lemma listed_after_release s s' u l :
  instance_ip s' = instance_ip s →
  Text.remove (bot_key u) (listed s) = Some l →
  redis s' =
    <[server_key (instance_ip s) := RedisEntry (Text.join " " l) None]>
      (delete (bot_key u) (redis s)) →
  listed s' = l.
Proof.
  intros Hip Hl Hredis. unfold listed at 1. rewrite Hip, Hredis, lookup_insert_eq.
  cbn [value]. apply split_join_tokens.
  apply Forall_forall. intros x Hx%(remove_sublist _ _ _ Hl).
  by eapply Forall_forall; [apply listed_tokens|].
Qed.

Lemma stopped_after_terminate s pid d :
  stopped s d ∨ pid = bot_instance d →
  stopped
    (with_log (log s ++ [Terminate pid])
       (with_processes
          (alter (λ p, Process (p_questions p) (p_answers p) (p_new_question p)
                         (p_new_answer p) (p_bot p) false) pid) s)) d.
Proof.
  intros Hd p. sproj. rewrite lookup_alter.
  destruct (decide (pid = bot_instance d)) as [->|Hne].
  - destruct (processes s !! bot_instance d); [|done]. by intros [= <-].
  - destruct Hd as [Hd|]; [|done]. apply Hd.
Qed.

(** The loop on an obliging Redis and a registry that knows the sessions
    of the pool: it returns the young entries, refreshes their owner keys,
    deletes the owner keys of the others and stops their processes. *)
Lemma sweep_run items : ∀ new_pool s,
  obliging s → announced s → NoDup items.*1 →
  (∀ u d, (u, d) ∈ items → owned s u) →
  (∀ u, u ∈ items.*1 → Dict.get u new_pool = None) →
  ∃ s', sweep items new_pool s = Ok (new_pool ++ survivors (ticks s) items) s'
        ∧ obliging s' ∧ announced s' ∧ pool_kept s s'
        ∧ instance_ip s' = instance_ip s
        ∧ (∀ k, (∀ u, u ∈ items.*1 → k ≠ bot_key u) →
                k ≠ server_key (instance_ip s) → redis s' !! k = redis s !! k)
        ∧ (∀ i u d, items !! i = Some (u, d) →
             if decide (young (clock (ticks s + i)) d)
             then redis s' !! bot_key u
                  = Some (RedisEntry (instance_ip s) (Some 70%Z))
             else redis s' !! bot_key u = None ∧ stopped s' d)
        ∧ (∀ d, stopped s d → stopped s' d).
Proof.
  induction items as [|[u d] items IH]; intros new_pool s Hs Hann Hnd Hown Hacc.
  { exists s. cbn [sweep survivors]. rewrite app_nil_r.
    repeat split; try done. }
  apply NoDup_cons in Hnd as [Hu Hnd].
  assert (Hother : ∀ u' d', (u', d') ∈ items → u' ≠ u).
  { intros u' d' Hin ->. apply Hu. apply list_elem_of_fmap. by exists (u, d'). }
  cbn [sweep survivors].
  rewrite (bind_run _ _ s (clock (ticks s)) (with_ticks (S (ticks s)) s)) by done.
  rewrite young_cond. destruct (decide (young (clock (ticks s)) d)) as [Hy|Hy].
  - rewrite bool_decide_eq_true_2 by done.
    destruct (claim_step u (with_ticks (S (ticks s)) s) Hs Hann)
      as (s2 & Hrun & Hs2 & Hreg & Hredis).
    rewrite (bind_run _ _ _ _ _ Hrun).
    pose proof Hreg as (Hp2 & Hip2 & _ & _ & _ & Hproc2 & _ & Htick2 & _ & _ & Htm2 & _).
    sproj in Hp2. sproj in Hip2. sproj in Hproc2. sproj in Htick2. sproj in Htm2.
    sproj in Hredis.
    pose proof (listed_after_claim (with_ticks (S (ticks s)) s) s2 u Hip2 Hredis)
      as Hlisted.
    destruct (IH (Dict.set u d new_pool) s2) as
      (s' & Hloop & Hs' & Hann' & [Hp' Htm'] & Hip' & Hframe & Hidx & Hdead);
      [done| | done | | |].
    + unfold announced. rewrite Hip2, Hredis, lookup_insert_eq. eauto.
    + intros u' d' Hin. destruct (Hown u' d') as [Hkey Hl]; [by right|]. split.
      * rewrite Hredis, lookup_insert_ne by (apply not_eq_sym, bot_key_ne_server_key).
        destruct (decide (bot_key u = bot_key u')) as [->|Hne].
        -- rewrite lookup_insert_eq. eauto.
        -- by rewrite lookup_insert_ne.
      * rewrite Hlisted. apply elem_of_app. by left.
    + intros u' Hin. rewrite dict_get_set_ne; [apply Hacc; by right|].
      intros ->. done.
    + exists s'. rewrite Hloop, Htick2.
      rewrite (dict_set_absent u d new_pool) by (apply Hacc; by left).
      rewrite <- app_assoc. split; [done|]. split; [done|]. split; [done|].
      split; [split; congruence|]. split; [congruence|]. split; [|split].
      * intros k Hk Hks. rewrite Hframe.
        -- rewrite Hredis, !lookup_insert_ne; [done| |done].
           apply not_eq_sym, Hk. by left.
        -- intros u' Hin. apply Hk. by right.
        -- by rewrite Hip2.
      * intros [|i] u' d' Hi; simpl in Hi.
        -- injection Hi as <- <-. rewrite Nat.add_0_r, decide_True by done.
           rewrite Hframe.
           ++ rewrite Hredis.
              rewrite lookup_insert_ne by (apply not_eq_sym, bot_key_ne_server_key).
              by rewrite lookup_insert_eq.
           ++ intros u' Hin Heq%bot_key_inj. by subst.
           ++ rewrite Hip2. apply bot_key_ne_server_key.
        -- specialize (Hidx i u' d' Hi). rewrite Htick2, Hip2 in Hidx.
           by replace (ticks s + S i) with (S (ticks s) + i) by lia.
      * intros d0 Hd0. apply Hdead. intros p. rewrite Hproc2. apply Hd0.
  - rewrite bool_decide_eq_false_2 by done.
    destruct (Hown u d) as [Hkey Hl]; [by left|].
    destruct (release_step u (with_ticks (S (ticks s)) s) Hs Hann Hkey Hl)
      as (s2 & l & Hrun & Hrem & Hs2 & Hreg & Hredis).
    rewrite (bind_run _ _ _ _ _ Hrun), (bind_run _ _ _ _ _ (terminate_run _ _)).
    pose proof Hreg as (Hp2 & Hip2 & _ & _ & _ & Hproc2 & _ & Htick2 & _ & _ & Htm2 & _).
    sproj in Hp2. sproj in Hip2. sproj in Hproc2. sproj in Htick2. sproj in Htm2.
    sproj in Hredis.
    pose proof (listed_after_release (with_ticks (S (ticks s)) s) s2 u l Hip2 Hrem Hredis)
      as Hlisted.
    match goal with
    | |- ∃ _, sweep _ _ ?s3 = _ ∧ _ =>
        destruct (IH new_pool s3) as
          (s' & Hloop & Hs' & Hann' & [Hp' Htm'] & Hip' & Hframe & Hidx & Hdead)
    end; [done| | done | | |].
    + unfold announced. sproj. rewrite Hip2, Hredis, lookup_insert_eq. eauto.
    + intros u' d' Hin. destruct (Hown u' d') as [Hkey' Hl']; [by right|].
      assert (Hne : bot_key u' ≠ bot_key u).
      { intros Heq%bot_key_inj. by eapply Hother. }
      split.
      * sproj. rewrite Hredis.
        rewrite lookup_insert_ne by (apply not_eq_sym, bot_key_ne_server_key).
        by rewrite lookup_delete_ne.
      * change (bot_key u' ∈ listed s2). rewrite Hlisted.
        by eapply remove_other.
    + intros u' Hin. apply Hacc. by right.
    + exists s'. rewrite Hloop. sproj. rewrite Htick2.
      split; [done|]. split; [done|]. split; [done|].
      sproj in Hp'. sproj in Htm'. sproj in Hip'.
      split; [split; congruence|]. split; [congruence|]. split; [|split].
      * intros k Hk Hks. rewrite Hframe.
        -- sproj. rewrite Hredis, lookup_insert_ne, lookup_delete_ne; [done| |done].
           apply not_eq_sym, Hk. by left.
        -- intros u' Hin. apply Hk. by right.
        -- sproj. by rewrite Hip2.
      * intros [|i] u' d' Hi; simpl in Hi.
        -- injection Hi as <- <-. rewrite Nat.add_0_r, decide_False by done. split.
           ++ rewrite Hframe.
              ** sproj. rewrite Hredis.
                 rewrite lookup_insert_ne by (apply not_eq_sym, bot_key_ne_server_key).
                 by rewrite lookup_delete_eq.
              ** intros u' Hin Heq%bot_key_inj. by subst.
              ** sproj. rewrite Hip2. apply bot_key_ne_server_key.
           ++ apply Hdead. apply stopped_after_terminate. by right.
        -- specialize (Hidx i u' d' Hi). sproj in Hidx. rewrite Htick2, Hip2 in Hidx.
           by replace (ticks s + S i) with (S (ticks s) + i) by lia.
      * intros d0 Hd0. apply Hdead. apply stopped_after_terminate. left.
        intros p. rewrite Hproc2. apply Hd0.
Qed.

End SweepRun.

(** *** The whole sweep *)

Section Collector.
Context `{Externals}.
Import BotManager.
Local Open Scope py_scope.
Local Arguments redis_set : simpl never.

Lemma server_alive_step s :
  obliging s →
  ∃ s', _set_server_alive s = Ok () s'
        ∧ obliging s' ∧ registry_only s s'
        ∧ redis s' = <[alive_key (instance_ip s) := RedisEntry "True" (Some 70%Z)]> (redis s).
Proof.
  intros Hs. unfold _set_server_alive. mrun.
  erewrite bind_run; [|apply redis_set_stored; by apply obliging_accepts]. mrun.
  unfold print, emit, modify. eexists. split; [reflexivity|]. split; [|split].
  - unfold obliging in *. sproj. destruct Hs; by repeat constructor.
  - unfold registry_only, origin_reads. sproj. rewrite <- app_assoc, filter_app. simpl.
    rewrite app_nil_r. by repeat split.
  - reflexivity.
Qed.




End Collector.

(** ** The list of available instances when it is a set *)

Section Availability.
Context `{Externals}.
Import BotManager.
Local Open Scope py_scope.
Local Arguments redis_set : simpl never.

Lemma available_tokens s : Forall Text.token (available s).
Proof.
  unfold available. destruct (redis s !! available_key).
  - apply split_tokens.
  - constructor.
Qed.

Lemma remove_None x l : x ∉ l → Text.remove x l = None.
Proof.
  induction l as [|y l IH]; [done|]. rewrite not_elem_of_cons. intros [Hne Hl].
  simpl. rewrite decide_False by done. by rewrite IH.
Qed.

Lemma remove_NoDup x l l' :
  NoDup l → Text.remove x l = Some l' → NoDup l' ∧ x ∉ l'.
Proof.
  revert l'. induction l as [|y l IH]; intros l'; [done|].
  rewrite NoDup_cons. intros [Hy Hl]. simpl.
  destruct (decide (x = y)) as [->|Hne].
  - by intros [= <-].
  - destruct (Text.remove x l) as [r|] eqn:Hr; [|done]. intros [= <-].
    destruct (IH r Hl eq_refl) as [Hr1 Hr2]. split.
    + apply NoDup_cons. split; [|done].
      intros Hin. apply Hy. by eapply remove_sublist.
    + rewrite not_elem_of_cons. by split.
Qed.

Lemma remove_keeps x y l l' :
  Text.remove x l = Some l' → y ≠ x → (y ∈ l' ↔ y ∈ l).
Proof.
  intros Hl Hne. split.
  - by apply (remove_sublist _ _ _ Hl).
  - by apply (remove_other _ _ _ _ Hl).
Qed.

Lemma updated_tokens ip le80 l :
  Text.token ip → Forall Text.token l → Forall Text.token (updated ip le80 l).
Proof.
  intros Hip Hl. unfold updated. destruct le80.
  - destruct (Text.contains ip l); [done|]. apply Forall_app. split; [done|].
    by apply Forall_singleton.
  - destruct (Text.remove ip l) as [l'|] eqn:Hr; [|done]. simpl.
    apply Forall_forall. intros x Hx%(remove_sublist _ _ _ Hr).
    by eapply Forall_forall.
Qed.

(** On an obliging Redis the call returns and the list it leaves is
    [updated]. *)
Lemma usage_memory_list s :
  obliging s → Text.token (instance_ip s) →
  ∃ s', _set_usage_memory s = Ok () s'
        ∧ obliging s' ∧ instance_ip s' = instance_ip s
        ∧ memory_percent s' = memory_percent s
        ∧ available s'
          = updated (instance_ip s) (Qle_bool (memory_percent s) 80) (available s).
Proof.
  intros Hs Hip. unfold _set_usage_memory. mrun.
  assert (Hl : (match value <$> redis s !! available_key with
                | Some text => Text.split text
                | None => []
                end) = available s).
  { unfold available. by destruct (redis s !! available_key). }
  rewrite Hl. clear Hl.
  assert (Hfinish : ∀ l, Forall Text.token l →
    ∃ s', bind (redis_set available_key (Text.join " " l) None)
            (λ stored, if stored then print "Setted servers availables"
                       else raise (ValueError "Error on set servers availables"))
            (with_log (log s ++ [RedisGet available_key]) s) = Ok () s'
          ∧ obliging s' ∧ instance_ip s' = instance_ip s
          ∧ memory_percent s' = memory_percent s
          ∧ available s' = l).
  { intros l Hl.
    erewrite bind_run; [|apply redis_set_stored; by apply obliging_accepts].
    unfold print, emit, modify. eexists. split; [reflexivity|].
    split; [|split; [done|split; [done|] ] ].
    - unfold obliging in *. sproj. destruct Hs; by repeat constructor.
    - unfold available. sproj. rewrite lookup_insert_eq. cbn [value].
      by apply split_join_tokens. }
  pose proof (updated_tokens (instance_ip s) (Qle_bool (memory_percent s) 80)
                (available s) Hip (available_tokens s)) as Htok.
  unfold updated in *. destruct (Qle_bool (memory_percent s) 80).
  - destruct (Text.contains (instance_ip s) (available s)); cbn [negb]; mrun;
      by apply Hfinish.
  - destruct (Text.contains (instance_ip s) (available s)) eqn:Hin; mrun.
    + apply contains_true, remove_Some in Hin as [l Hr]. rewrite Hr in *. mrun.
      by apply Hfinish.
    + assert (Hr : Text.remove (instance_ip s) (available s) = None).
      { apply remove_None. intros Hin'%contains_true. congruence. }
      rewrite Hr in Htok |- *. by apply Hfinish.
Qed.

(** When the list read holds no address twice, the call leaves the
    instance listed exactly when usage is at most 80 %, leaves the other
    addresses as they were, and a second call at the same usage leaves the
    list as the first one left it. *)
Lemma usage_memory_on_a_set s :
  obliging s → Text.token (instance_ip s) → NoDup (available s) →
  ∃ s', _set_usage_memory s = Ok () s'
        ∧ NoDup (available s')
        ∧ (instance_ip s ∈ available s' ↔ Qle_bool (memory_percent s) 80 = true)
        ∧ (∀ x, x ≠ instance_ip s → x ∈ available s' ↔ x ∈ available s)
        ∧ ∃ s'', _set_usage_memory s' = Ok () s'' ∧ available s'' = available s'.
Proof.
  intros Hs Hip Hnd.
  destruct (usage_memory_list s Hs Hip) as (s' & Hrun & Hs' & Hip' & Hmem' & Hl').
  assert (Hprops :
    NoDup (available s')
    ∧ (instance_ip s ∈ available s' ↔ Qle_bool (memory_percent s) 80 = true)
    ∧ (∀ x, x ≠ instance_ip s → x ∈ available s' ↔ x ∈ available s)).
  { rewrite Hl'. unfold updated. destruct (Qle_bool (memory_percent s) 80).
    - destruct (Text.contains (instance_ip s) (available s)) eqn:Hin.
      + apply contains_true in Hin. by repeat split.
      + assert (Hout : instance_ip s ∉ available s).
        { intros Hin'%contains_true. congruence. }
        split; [|split].
        * apply NoDup_app. split; [done|]. split; [|apply NoDup_singleton].
          intros x Hx ->%list_elem_of_singleton. done.
        * split; [done|]. intros _. apply elem_of_app. right.
          by apply list_elem_of_singleton.
        * intros x Hx. rewrite elem_of_app, list_elem_of_singleton. tauto.
    - destruct (Text.remove (instance_ip s) (available s)) as [l|] eqn:Hr; simpl.
      + destruct (remove_NoDup _ _ _ Hnd Hr) as [Hnd' Hout]. split; [done|].
        split; [split; [done|discriminate]|].
        intros x Hx. by apply (remove_keeps _ _ _ _ Hr).
      + split; [done|]. split; [|done]. split; [|discriminate].
        intros Hin. apply remove_Some in Hin as [l Hl]. congruence. }
  destruct Hprops as (Hnd' & Hin' & Hothers).
  exists s'. split; [done|]. split; [done|]. split; [done|]. split; [done|].
  destruct (usage_memory_list s') as (s'' & Hrun2 & _ & _ & _ & Hl'');
    [done|by rewrite Hip'|].
  exists s''. split; [done|]. rewrite Hl'', Hip', Hmem'. unfold updated.
  destruct (Qle_bool (memory_percent s) 80).
  - assert (Hyes : Text.contains (instance_ip s) (available s') = true).
    { apply contains_true. by apply Hin'. }
    by rewrite Hyes.
  - rewrite remove_None; [done|]. intros Hin%Hin'. discriminate.
Qed.

(** The claim of a session appends its key to the session list whether or
    not the list holds it already. *)
Lemma claim_appends_again u s :
  obliging s → announced s → Text.token (bot_key u) →
  ∃ s', _set_bot_in_instance_redis u s = Ok () s'
        ∧ listed s' = listed s ++ [bot_key u].
Proof.
  intros Hs Hann Hu.
  destruct (claim_step u s Hs Hann) as (s' & Hrun & _ & Hreg & Hredis).
  exists s'. split; [done|].
  destruct Hreg as (_ & Hip & _).
  rewrite (listed_after_claim s s' u Hip Hredis). by rewrite split_token.
Qed.

End Availability.

(** ** The sweep on the sample machine *)



(** C5, the claim as stated fails.  On the busy sample machine the owner
    key of the idle session "a" has expired, so its release raises.  The
    sweep does not go on to "b": [garbage_collector] raises, prints nothing
    about the error, leaves both entries in the pool, writes nothing for
    "b" and starts no timer. *)
Lemma failed_eviction_aborts_sweep :
  ∃ s', @BotManager.garbage_collector Sample.externals
          (Sample.expired "BOT-a" Sample.busy)
        = BotManager.Raise (BotManager.ValueError "Error remove bot in instance redis") s'
        ∧ BotManager.timers s' = BotManager.timers (Sample.expired "BOT-a" Sample.busy)
        ∧ Dict.keys (BotManager._pool s') = ["a"; "b"]
        ∧ BotManager.log s'
          = BotManager.log (Sample.expired "BOT-a" Sample.busy) ++
            [BotManager.RedisSet "SERVER-ALIVE-10.0.0.1" "True" (Some 70%Z) true;
             BotManager.Print "Ping redis, i'm alive";
             BotManager.RedisDelete "BOT-a" 0].
Proof.
  eexists. split; [vm_compute; reflexivity|].
  vm_compute. repeat split; reflexivity.
Qed.

(** The same sweep, through the theorem: the error of the release leaves
    [garbage_collector], with the pool map and the timers as they were. *)
Lemma sweep_stops_witness :
  ∃ s', @BotManager.garbage_collector Sample.externals
          (Sample.expired "BOT-a" Sample.busy)
        = BotManager.Raise (BotManager.ValueError "Error remove bot in instance redis") s'
        ∧ BotManager._pool s' = BotManager._pool (Sample.expired "BOT-a" Sample.busy)
        ∧ BotManager.timers s' = BotManager.timers (Sample.expired "BOT-a" Sample.busy).
Proof.
  eexists.
  eapply (@sweep_stops_at_failed_eviction Sample.externals
            (Sample.expired "BOT-a" Sample.busy) _ _ _ [] _ "a" _ []).
  - vm_compute. reflexivity.
  - vm_compute. reflexivity.
  - vm_compute. reflexivity.
  - vm_compute. discriminate.
  - vm_compute. reflexivity.
Defined.

(** C6, the code against the claim.  The sweep refreshes the ownership of
    a surviving session with the call that claims it, and that call appends
    the key to the session list again: after the claim of "a" and one
    sweep the list holds "BOT-a" twice; two sweeps later "a" has been
    evicted, its owner key is gone, and the list still holds "BOT-a"
    twice. *)
Lemma refresh_lists_session_again :
  @listed Sample.externals Sample.serving_a = ["BOT-a"]
  ∧ @listed Sample.externals
      (Sample.after BotManager.garbage_collector Sample.serving_a)
    = ["BOT-a"; "BOT-a"]
  ∧ BotManager._pool
      (Sample.after BotManager.garbage_collector
         (Sample.after BotManager.garbage_collector
            (Sample.after BotManager.garbage_collector Sample.serving_a))) = []
  ∧ BotManager.redis
      (Sample.after BotManager.garbage_collector
         (Sample.after BotManager.garbage_collector
            (Sample.after BotManager.garbage_collector Sample.serving_a)))
    !! "BOT-a" = None
  ∧ @listed Sample.externals
      (Sample.after BotManager.garbage_collector
         (Sample.after BotManager.garbage_collector
            (Sample.after BotManager.garbage_collector Sample.serving_a)))
    = ["BOT-a"; "BOT-a"].
Proof. vm_compute. repeat split; reflexivity. Qed.

(** C7, the code against the claim.  A restart announces the instance a
    second time, and [_set_instance_redis] appends the address without
    looking: the list of available instances holds it twice.  Under 90 %
    memory [_set_usage_memory] removes one occurrence: the instance is
    still listed after the call, and a second call at the same usage
    changes the membership. *)
Lemma duplicate_announcement_stays_available :
  BotManager.value <$> BotManager.redis Sample.restarted !! BotManager.available_key
    = Some "10.0.0.1 10.0.0.1"
  ∧ BotManager.value <$>
      BotManager.redis
        (Sample.after BotManager._set_usage_memory
           (Sample.under_memory (90 # 1) Sample.restarted))
      !! BotManager.available_key
    = Some "10.0.0.1"
  ∧ BotManager.value <$>
      BotManager.redis
        (Sample.after BotManager._set_usage_memory
           (Sample.after BotManager._set_usage_memory
              (Sample.under_memory (90 # 1) Sample.restarted)))
      !! BotManager.available_key
    = Some "".
Proof. vm_compute. repeat split; reflexivity. Qed.

(* ===================================================================== *)

(** * Part III: further properties of the code *)
(* ===================================================================== *)

(** ** The registry calls: round trip and failures *)

Section RegistryMore.
Context `{Externals}.
Import BotManager.
Local Open Scope py_scope.
Local Arguments redis_set : simpl never.

Lemma remove_app_new x l : x ∉ l → Text.remove x (l ++ [x]) = Some l.
Proof.
  induction l as [|y l IH]; simpl.
  - intros _. by rewrite decide_True.
  - rewrite not_elem_of_cons. intros [Hne Hl].
    rewrite decide_False by done. by rewrite IH.
Qed.

(** X1.  Claiming a session that the list does not hold yet and releasing
    it again brings the registry back: both calls return, the owner key is
    absent, the session list reads as before and no other key of Redis has
    changed. *)
Theorem claim_then_release (u : string) (s : state) :
  obliging s → announced s → Text.token (bot_key u) → bot_key u ∉ listed s →
  ∃ s1 s2, _set_bot_in_instance_redis u s = Ok () s1
           ∧ _remove_bot_instance_redis u s1 = Ok () s2
           ∧ redis s2 !! bot_key u = None
           ∧ listed s2 = listed s
           ∧ ∀ k, k ≠ bot_key u → k ≠ server_key (instance_ip s) →
                  redis s2 !! k = redis s !! k.
Proof.
  intros Hs Hann Hu Hnew.
  destruct (claim_step u s Hs Hann) as (s1 & Hrun1 & Hs1 & Hreg1 & Hredis1).
  pose proof Hreg1 as (_ & Hip1 & _).
  pose proof (listed_after_claim s s1 u Hip1 Hredis1) as Hl1.
  rewrite split_token in Hl1 by done.
  assert (Hann1 : announced s1).
  { unfold announced. rewrite Hip1, Hredis1, lookup_insert_eq. eauto. }
  destruct (release_step u s1 Hs1 Hann1) as (s2 & l & Hrun2 & Hrem & _ & Hreg2 & Hredis2).
  { rewrite Hredis1.
    rewrite lookup_insert_ne by (apply not_eq_sym, bot_key_ne_server_key).
    rewrite lookup_insert_eq. eauto. }
  { rewrite Hl1. apply elem_of_app. right. by apply list_elem_of_singleton. }
  rewrite Hl1, remove_app_new in Hrem by done. injection Hrem as <-.
  pose proof Hreg2 as (_ & Hip2 & _).
  exists s1, s2. split; [done|]. split; [done|]. split; [|split].
  - rewrite Hredis2, Hip1.
    rewrite lookup_insert_ne by (apply not_eq_sym, bot_key_ne_server_key).
    by rewrite lookup_delete_eq.
  - apply (listed_after_release s1 s2 u); [done| |done].
    by rewrite Hl1, remove_app_new.
  - intros k Hk Hks. rewrite Hredis2, Hip1, lookup_insert_ne, lookup_delete_ne by done.
    by rewrite Hredis1, !lookup_insert_ne.
Qed.

(** X2.  How a release fails.  With no owner key the call raises at once and
    Redis is as it was.  With the owner key present but the session missing
    from the list, or with the list refused by Redis, the call raises after
    the owner key has been deleted: the key is gone and the list is as it
    was. *)
Theorem release_failures (u : string) (s : state) :
  (redis s !! bot_key u = None →
     ∃ s', _remove_bot_instance_redis u s
             = Raise (ValueError "Error remove bot in instance redis") s'
           ∧ redis s' = redis s)
  ∧ (is_Some (redis s !! bot_key u) → announced s → bot_key u ∉ listed s →
     ∃ s', _remove_bot_instance_redis u s
             = Raise (ValueError "list.remove(x): x not in list") s'
           ∧ redis s' = delete (bot_key u) (redis s))
  ∧ (∀ rest, is_Some (redis s !! bot_key u) → announced s → bot_key u ∈ listed s →
     set_replies s = false :: rest →
     ∃ s', _remove_bot_instance_redis u s
             = Raise (ValueError "Error remove bot in instance redis") s'
           ∧ redis s' = delete (bot_key u) (redis s)).
Proof.
  split; [|split].
  - intros Hkey. unfold _remove_bot_instance_redis. mrun.
    erewrite bind_run; [|by apply redis_delete_absent]. mrun.
    change (0 =? 0)%Z with true. unfold raise. eexists. split; [reflexivity|].
    sproj. by apply delete_id.
  - intros [o Ho] [e He] Hout. unfold _remove_bot_instance_redis. mrun.
    erewrite bind_run; [|by eapply redis_delete_present]. mrun.
    change (1 =? 0)%Z with false. mrun.
    rewrite lookup_delete_ne by apply bot_key_ne_server_key. rewrite He. mrun.
    unfold listed in Hout. rewrite He in Hout.
    rewrite remove_None by done. unfold raise. eexists. split; reflexivity.
  - intros rest [o Ho] [e He] Hin Hs. unfold _remove_bot_instance_redis. mrun.
    erewrite bind_run; [|by eapply redis_delete_present]. mrun.
    change (1 =? 0)%Z with false. mrun.
    rewrite lookup_delete_ne by apply bot_key_ne_server_key. rewrite He. mrun.
    unfold listed in Hin. rewrite He in Hin.
    destruct (remove_Some _ _ Hin) as [l Hl]. rewrite Hl.
    erewrite bind_run; [|by apply (redis_set_refused _ _ _ _ rest)]. mrun.
    unfold raise. eexists. split; reflexivity.
Qed.

End RegistryMore.

(** The round trip on the started sample machine, for the session "a". *)
Lemma claim_then_release_witness :
  ∃ s1 s2, @BotManager._set_bot_in_instance_redis Sample.externals "a" Sample.started
             = BotManager.Ok () s1
           ∧ @BotManager._remove_bot_instance_redis Sample.externals "a" s1
             = BotManager.Ok () s2
           ∧ @listed Sample.externals s2 = @listed Sample.externals Sample.started.
Proof.
  destruct (@claim_then_release Sample.externals "a" Sample.started)
    as (s1 & s2 & H1 & H2 & _ & H4 & _).
  - unfold obliging. vm_compute. constructor.
  - unfold announced. vm_compute. eexists. reflexivity.
  - split; [discriminate|]. unfold Text.no_space. vm_compute. repeat constructor.
  - vm_compute. apply not_elem_of_nil.
  - exact (ex_intro _ s1 (ex_intro _ s2 (conj H1 (conj H2 H4)))).
Defined.

(** The three failures on the sample machine: "a" is served there, "c" is
    unknown to the registry. *)
Lemma release_failures_witness :
  (∃ s', @BotManager._remove_bot_instance_redis Sample.externals "c" Sample.serving_a
           = BotManager.Raise
               (BotManager.ValueError "Error remove bot in instance redis") s')
  ∧ (∃ s', @BotManager._remove_bot_instance_redis Sample.externals "a"
             (Sample.refusing [false] Sample.serving_a)
           = BotManager.Raise
               (BotManager.ValueError "Error remove bot in instance redis") s'
           ∧ BotManager.redis s' !! "BOT-a" = None).
Proof.
  destruct (@release_failures Sample.externals "c" Sample.serving_a) as (Hc & _).
  destruct (@release_failures Sample.externals "a"
              (Sample.refusing [false] Sample.serving_a)) as (_ & _ & Ha).
  split.
  - destruct Hc as (s' & Hrun & _); [vm_compute; reflexivity|].
    exact (ex_intro _ s' Hrun).
  - destruct (Ha []) as (s' & Hrun & Hredis).
    + vm_compute. eexists. reflexivity.
    + unfold announced. vm_compute. eexists. reflexivity.
    + apply (bool_decide_unpack _). vm_compute. exact I.
    + vm_compute. reflexivity.
    + refine (ex_intro _ s' (conj Hrun _)). rewrite Hredis.
      apply lookup_delete_eq.
Defined.

(** ** Start-up and the scheduler *)

Section Scheduler.
Context `{Externals}.
Import BotManager.
Local Open Scope py_scope.
Local Arguments redis_set : simpl never.

Global Instance timers_kept_preorder : PreOrder timers_kept.
Proof.
  split.
  - by intros s.
  - intros s1 s2 s3. unfold timers_kept. congruence.
Qed.

Lemma pool_kept_timers_kept s s' : pool_kept s s' → timers_kept s s'.
Proof. by intros [_ ?]. Qed.

Lemma registry_only_timers_kept s s' : registry_only s s' → timers_kept s s'.
Proof. intros Hreg. by apply pool_kept_timers_kept, registry_only_pool_kept. Qed.

Lemma prompt_bind {A B} (m : M A) (k : A → M B) :
  prompt m → (∀ a, prompt (k a)) → prompt (bind m k).
Proof.
  intros Hm Hk s s'. unfold bind. specialize (Hm s).
  destruct (m s) as [a s1|e s1|s1]; [apply Hk|done|]. by destruct (Hm s1).
Qed.

Lemma prompt_ret {A} (a : A) : prompt (ret a).
Proof. by intros s s'. Qed.

Lemma prompt_raise {A} e : prompt (raise (A:=A) e).
Proof. by intros s s'. Qed.

Lemma prompt_gets {A} (f : state → A) : prompt (gets f).
Proof. by intros s s'. Qed.

Lemma prompt_modify f : prompt (modify f).
Proof. by intros s s'. Qed.

Lemma prompt_redis_set key val ttl : prompt (redis_set key val ttl).
Proof.
  intros s s'. by destruct (redis_set_cases key val ttl s) as (b & s1 & -> & _).
Qed.

Lemma prompt_datetime_now : prompt datetime_now.
Proof. by intros s s'. Qed.

End Scheduler.

(** [prompt_tac] walks through a method built from calls that do not wait. *)
Ltac prompt_step :=
  lazymatch goal with
  | |- prompt (BotManager.bind _ _) => apply prompt_bind; [|intros ?]
  | |- prompt (BotManager.ret _) => apply prompt_ret
  | |- prompt (BotManager.raise _) => apply prompt_raise
  | |- prompt (BotManager.gets _) => apply prompt_gets
  | |- prompt (BotManager.modify _) => apply prompt_modify
  | |- prompt (BotManager.emit _) => apply prompt_modify
  | |- prompt (BotManager.print _) => apply prompt_modify
  | |- prompt (BotManager.Timer_start _) => apply prompt_modify
  | |- prompt (BotManager.redis_set _ _ _) => apply prompt_redis_set
  | |- prompt BotManager.datetime_now => apply prompt_datetime_now
  | |- prompt (BotManager.redis_get _) => unfold BotManager.redis_get
  | |- prompt (BotManager.redis_delete _) => unfold BotManager.redis_delete
  | |- prompt (BotManager.str_utf8 _) => unfold BotManager.str_utf8
  | |- prompt (BotManager.terminate _) => unfold BotManager.terminate
  | |- prompt (if ?b then _ else _) => destruct b
  | |- prompt (match ?x with _ => _ end) => destruct x
  | |- prompt (let _ := _ in _) => cbv zeta
  end.

Ltac prompt_tac := repeat prompt_step.

Section Arming.
Context `{Externals}.
Import BotManager.
Local Open Scope py_scope.
Local Arguments redis_set : simpl never.

Lemma claim_prompt u : prompt (_set_bot_in_instance_redis u).
Proof. unfold _set_bot_in_instance_redis. prompt_tac. Qed.

Lemma release_prompt u : prompt (_remove_bot_instance_redis u).
Proof. unfold _remove_bot_instance_redis. prompt_tac. Qed.

Lemma server_alive_prompt : prompt _set_server_alive.
Proof. unfold _set_server_alive. prompt_tac. Qed.

Lemma usage_memory_prompt : prompt _set_usage_memory.
Proof. unfold _set_usage_memory. prompt_tac. Qed.

Lemma set_instance_prompt : prompt _set_instance_redis.
Proof. unfold _set_instance_redis. prompt_tac. Qed.

Lemma sweep_prompt items new_pool : prompt (sweep items new_pool).
Proof.
  revert new_pool. induction items as [|[u d] items IH]; intros new_pool.
  - apply prompt_ret.
  - cbn [sweep]. apply prompt_bind; [apply prompt_datetime_now|]. intros now.
    destruct (negb _).
    + apply prompt_bind; [apply claim_prompt|intros _; apply IH].
    + apply prompt_bind; [apply release_prompt|intros _].
      apply prompt_bind; [prompt_tac|intros _; apply IH].
Qed.

Lemma set_instance_timers_kept : preserves timers_kept _set_instance_redis.
Proof.
  unfold _set_instance_redis.
  apply preserves_bind; [apply _|apply preserves_gets, _|intros ip].
  apply preserves_bind; [apply _|by intros s|intros _].
  eapply preserves_weaken; [apply registry_only_timers_kept|]. preserves_tac.
Qed.

Lemma arming_bind {A} (m : M A) (k : A → M unit) :
  preserves timers_kept m → prompt m → (∀ a, arming (k a)) → arming (bind m k).
Proof.
  intros Hkept Hprompt Hk s. unfold bind.
  specialize (Hkept s). specialize (Hprompt s).
  destruct (m s) as [a s1|e s1|s1]; cbn [state_of] in Hkept.
  - specialize (Hk a s1). destruct (k a s1) as [[] s2|e s2|s2]; [| |done].
    + by rewrite Hk, Hkept.
    + by rewrite Hk, Hkept.
  - exact Hkept.
  - by destruct (Hprompt s1).
Qed.

Lemma arming_start : arming start_garbage_collector.
Proof. by intros s. Qed.

(** X3.  The sweep arms the timer of the next sweep exactly when it
    returns: a sweep that raises, at whatever step, leaves the timers as
    they were, so no later sweep is scheduled; and the sweep never waits. *)
Theorem collector_arms_iff_returns (s : state) :
  match garbage_collector s with
  | Ok _ s' => timers s' = timers s ++ [60%Z]
  | Raise _ s' => timers s' = timers s
  | Parked _ => False
  end.
Proof.
  revert s. change (arming garbage_collector). unfold garbage_collector.
  apply arming_bind; [|apply server_alive_prompt|intros _].
  { eapply preserves_weaken;
      [apply registry_only_timers_kept|apply server_alive_preserves]. }
  apply arming_bind; [apply preserves_gets, _|apply prompt_gets|intros pool].
  apply arming_bind; [|apply sweep_prompt|intros new_pool].
  { eapply preserves_weaken; [apply pool_kept_timers_kept|apply sweep_pool_kept]. }
  apply arming_bind; [by intros s|apply prompt_modify|intros _].
  apply arming_bind; [|apply prompt_modify|intros _].
  { eapply preserves_weaken;
      [apply registry_only_timers_kept|apply print_registry_only]. }
  apply arming_bind; [|apply usage_memory_prompt|intros _; apply arming_start].
  eapply preserves_weaken;
    [apply registry_only_timers_kept|apply usage_memory_preserves].
Qed.

Lemma init_arming : arming __init__.
Proof.
  unfold __init__.
  apply arming_bind;
    [apply set_instance_timers_kept|apply set_instance_prompt|intros _].
  apply arming_bind; [|apply server_alive_prompt|intros _; apply arming_start].
  eapply preserves_weaken;
    [apply registry_only_timers_kept|apply server_alive_preserves].
Qed.

Lemma alive_key_ne_available ip : alive_key ip ≠ available_key.
Proof. discriminate. Qed.

Lemma accepts_le n m s : n ≤ m → accepts m s → accepts n s.
Proof.
  unfold accepts. intros Hle Hm.
  replace (take n (set_replies s)) with (take n (take m (set_replies s))).
  - by apply Forall_take.
  - rewrite take_take. f_equal. lia.
Qed.

(** The announcement when Redis stores both values. *)
Lemma set_instance_run s :
  accepts 2 s →
  _set_instance_redis s =
    Ok () (with_redis
             (λ r, <[available_key :=
                       RedisEntry
                         (Text.join " " (available s ++ [local_ipv4 s])) None]>
                     (<[server_key (local_ipv4 s) := RedisEntry "" None]> r))
          (with_set_replies (tail (tail (set_replies s)))
          (with_log (log s ++
             [RedisGet available_key;
              RedisSet (server_key (local_ipv4 s)) "" None true;
              RedisSet available_key
                (Text.join " " (available s ++ [local_ipv4 s])) None true;
              Print "Set instance in redis"])
          (with_instance_ip (local_ipv4 s) s)))).
Proof.
  intros (Hs1 & Hs2)%accepts_S.
  unfold _set_instance_redis. mrun.
  assert (Hold : match value <$> redis s !! available_key with
                 | Some text => Text.split text
                 | None => []
                 end = available s).
  { unfold available. by destruct (redis s !! available_key). }
  rewrite Hold.
  erewrite bind_run; [|apply redis_set_stored; exact Hs1]. mrun.
  erewrite bind_run; [|apply redis_set_stored, Hs2; reflexivity]. mrun.
  unfold print, emit, modify. f_equal. state_ext.
Qed.

(** The heartbeat when Redis stores it. *)
Lemma server_alive_run s :
  accepts 1 s →
  _set_server_alive s =
    Ok () (with_redis
             (insert (alive_key (instance_ip s)) (RedisEntry "True" (Some 70%Z)))
          (with_set_replies (tail (set_replies s))
          (with_log (log s ++
             [RedisSet (alive_key (instance_ip s)) "True" (Some 70%Z) true;
              Print "Ping redis, i'm alive"]) s))).
Proof.
  intros Hs. unfold _set_server_alive. mrun.
  erewrite bind_run; [|apply redis_set_stored; exact Hs]. mrun.
  unfold print, emit, modify. f_equal. state_ext.
Qed.

(** X4.  Start-up.  When Redis stores the three values it is sent, the
    constructor returns with the address of the machine as the name of the
    instance, an empty session list under that name whatever the key held
    before, the address appended to the list of available instances, a
    heartbeat of 70 seconds, and every owner key and the pool map as they
    were.  In every case the first sweep is scheduled exactly when the
    constructor returns, and the constructor never waits. *)
Theorem init_announces (s : state) :
  (accepts 3 s →
   ∃ s', __init__ s = Ok () s'
         ∧ instance_ip s' = local_ipv4 s
         ∧ announced s' ∧ listed s' = []
         ∧ available s' = available s ++ Text.split (local_ipv4 s)
         ∧ redis s' !! alive_key (local_ipv4 s)
           = Some (RedisEntry "True" (Some 70%Z))
         ∧ (∀ u, redis s' !! bot_key u = redis s !! bot_key u)
         ∧ _pool s' = _pool s)
  ∧ match __init__ s with
    | Ok _ s' => timers s' = timers s ++ [60%Z]
    | Raise _ s' => timers s' = timers s
    | Parked _ => False
    end.
Proof.
  split; [|apply init_arming].
  intros Hs. pose proof Hs as (_ & Hs23)%accepts_S.
  unfold __init__.
  erewrite bind_run; [|apply set_instance_run].
  2:{ apply (accepts_le 2 3); [lia|done]. }
  set (ip := local_ipv4 s).
  erewrite bind_run.
  2:{ apply server_alive_run.
      specialize (Hs23 (with_set_replies (tail (set_replies s)) s) eq_refl)
        as (_ & Hs3)%accepts_S.
      apply Hs3. reflexivity. }
  unfold start_garbage_collector, Timer_start, modify.
  eexists. split; [reflexivity|].
  sproj. split; [reflexivity|].
  assert (Hlist : (<[alive_key ip := RedisEntry "True" (Some 70%Z)]>
                     (<[available_key :=
                          RedisEntry (Text.join " " (available s ++ [ip])) None]>
                        (<[server_key ip := RedisEntry "" None]> (redis s))))
                  !! server_key ip = Some (RedisEntry "" None)).
  { rewrite lookup_insert_ne by apply alive_key_ne_server_key.
    rewrite lookup_insert_ne by apply available_key_ne_server_key.
    apply lookup_insert_eq. }
  split; [|split; [|split; [|split; [|split] ] ] ].
  - unfold announced. sproj. rewrite Hlist. eauto.
  - unfold listed. sproj. by rewrite Hlist.
  - unfold available at 1. sproj.
    rewrite lookup_insert_ne by apply alive_key_ne_available.
    rewrite lookup_insert_eq. cbn [value].
    rewrite split_join, bind_app.
    rewrite bind_split_tokens by apply available_tokens.
    simpl. by rewrite app_nil_r.
  - apply lookup_insert_eq.
  - intros u.
    rewrite lookup_insert_ne by apply alive_key_ne_bot_key.
    rewrite lookup_insert_ne by apply not_eq_sym, bot_key_ne_available.
    by rewrite lookup_insert_ne by apply not_eq_sym, bot_key_ne_server_key.
  - reflexivity.
Qed.

End Arming.

(** ** Resolutions that go wrong *)

Section ResolutionMore.
Context `{Externals}.
Import BotManager.
Local Open Scope py_scope.
Local Arguments redis_set : simpl never.

Lemma ask_raises meanwhile question u s e s' :
  _get_bot_data u s = Raise e s' → ask meanwhile question u s = Raise e s'.
Proof.
  intros Hrun. unfold ask. erewrite bind_raise; [done|].
  by apply ask_request_raises.
Qed.

(** X5.  A snapshot that does not unpickle.  The resolution raises the
    error of [cloudpickle.loads] after the read of Redis: the database is
    not asked although it may hold the bot, the snapshot stays in Redis,
    nothing is started and the pool is as it was; [ask] passes the error on,
    and since nothing but the log has changed the next attempt ends in the
    same way. *)
Theorem corrupt_snapshot_is_not_repaired (meanwhile : state → state)
    (question bot_uuid : string) (s : state) (e : redis_entry) :
  Dict.get bot_uuid (_pool s) = None →
  redis s !! bot_uuid = Some e →
  loads (value e) = None →
  let s' := with_log (log s ++ [RedisGet bot_uuid; Print "Reusing from redis..."]) s in
  _get_bot_data bot_uuid s = Raise PickleError s'
  ∧ ask meanwhile question bot_uuid s = Raise PickleError s'
  ∧ origin_reads s' = origin_reads s
  ∧ ∃ s'', _get_bot_data bot_uuid s' = Raise PickleError s''
           ∧ origin_reads s'' = origin_reads s.
Proof.
  intros Hd He Hbot s'.
  assert (Hrun : ∀ t, Dict.get bot_uuid (_pool t) = None →
                      redis t !! bot_uuid = Some e →
                      _get_bot_data bot_uuid t
                      = Raise PickleError
                          (with_log (log t ++ [RedisGet bot_uuid;
                                               Print "Reusing from redis..."]) t)).
  { intros t Hdt Het. unfold _get_bot_data. mrun. rewrite Hdt. mrun.
    rewrite Het. mrun. unfold cloudpickle_loads. rewrite Hbot.
    unfold raise. f_equal. state_ext. }
  assert (Hreads : ∀ t, origin_reads
                          (with_log (log t ++ [RedisGet bot_uuid;
                                               Print "Reusing from redis..."]) t)
                        = origin_reads t).
  { intros t. unfold origin_reads. sproj. rewrite filter_app. simpl.
    by rewrite app_nil_r. }
  split; [by apply Hrun|]. split; [apply ask_raises; by apply Hrun|].
  split; [apply Hreads|].
  eexists. split; [by apply Hrun|]. rewrite Hreads. apply Hreads.
Qed.

(** X6.  A claim that Redis refuses, after the worker has been started.
    The resolution raises, but the entry is in the pool and its process
    runs; Redis is as it was, so the registry does not know the session.
    The next resolution finds the entry in the pool and returns it without
    writing to the registry. *)
Theorem unpublished_session_is_served (bot_uuid : string) (s : state)
    (e : redis_entry) (bot : Bot) (rest : list bool) :
  Dict.get bot_uuid (_pool s) = None →
  redis s !! bot_uuid = Some e →
  loads (value e) = Some bot →
  set_replies s = false :: rest →
  ∃ s', _get_bot_data bot_uuid s
          = Raise (ValueError "Error save bot in instance redis") s'
        ∧ Dict.get bot_uuid (_pool s') = Some (new_entry s)
        ∧ processes s' !! bot_instance (new_entry s) = Some (new_process s bot)
        ∧ redis s' = redis s
        ∧ _get_bot_data bot_uuid s'
          = Ok (new_entry s)
               (with_log (log s' ++ [Print "Reusing an instance..."]) s').
Proof.
  intros Hd He Hbot Hs.
  unfold _get_bot_data at 1. mrun. rewrite Hd. mrun. rewrite He. mrun.
  unfold cloudpickle_loads. rewrite Hbot. mrun.
  erewrite bind_raise; [|by eapply (claim_first_refused _ _ rest)].
  eexists. split; [reflexivity|]. sproj.
  assert (Hin : Dict.get bot_uuid (Dict.set bot_uuid (new_entry s) (_pool s))
                = Some (new_entry s)) by apply dict_get_set.
  split; [exact Hin|]. split; [apply lookup_insert_eq|]. split; [reflexivity|].
  by apply resolve_local.
Qed.

(** X7.  The snapshot write of the database tier is not checked.  When
    Redis refuses it and stores the two values of the claim, the resolution
    returns as if nothing had happened: the worker runs and the session is
    claimed, and Redis holds no snapshot, so the next instance to resolve
    the key asks the database again. *)
Theorem refused_snapshot_goes_unnoticed (bot_uuid : string) (s : state)
    (pickled : string) (bot : Bot) (rest : list bool) :
  Dict.get bot_uuid (_pool s) = None →
  redis s !! bot_uuid = None →
  database s !! bot_uuid = Some pickled →
  loads pickled = Some bot →
  set_replies s = false :: rest →
  Forall (λ reply, reply = true) (take 2 rest) →
  announced s →
  ∃ s', _get_bot_data bot_uuid s = Ok (new_entry s) s'
        ∧ redis s' !! bot_uuid = None
        ∧ redis s' !! bot_key bot_uuid
          = Some (RedisEntry (instance_ip s) (Some 70%Z))
        ∧ Dict.get bot_uuid (_pool s') = Some (new_entry s)
        ∧ processes s' !! bot_instance (new_entry s) = Some (new_process s bot)
        ∧ origin_reads s' = origin_reads s ++ [DbGet bot_uuid].
Proof.
  intros Hd He Hrow Hbot Hs Hrest [e' He'].
  assert (Hne : bot_uuid ≠ server_key (instance_ip s)) by congruence.
  unfold _get_bot_data. mrun. rewrite Hd. mrun. rewrite He. mrun.
  erewrite bind_run; [|by apply Bot_get_found]. mrun.
  unfold cloudpickle_loads. rewrite Hbot. mrun.
  erewrite bind_run; [|by apply (redis_set_refused _ _ _ _ rest)]. mrun.
  erewrite bind_run; [|eapply claim_stored; [exact Hrest|sproj; exact He'] ].
  mrun. eexists. split; [reflexivity|]. sproj.
  split; [|split; [|split; [|split] ] ].
  - rewrite lookup_insert_ne by apply not_eq_sym, Hne.
    by rewrite lookup_insert_ne by apply not_eq_sym, uuid_ne_bot_key.
  - rewrite lookup_insert_ne by apply not_eq_sym, bot_key_ne_server_key.
    apply lookup_insert_eq.
  - apply dict_get_set.
  - apply lookup_insert_eq.
  - unfold origin_reads. sproj. rewrite <- !app_assoc, filter_app. reflexivity.
Qed.

End ResolutionMore.

(** ** The registry and the pool stay in step *)

Section Consistency.
Context `{Externals}.
Import BotManager.
Local Open Scope py_scope.
Local Arguments redis_set : simpl never.

(** What a claim that returned has done. *)
Lemma claim_returned u s s' :
  _set_bot_in_instance_redis u s = Ok () s' →
  registry_only s s'
  ∧ listed s' = listed s ++ Text.split (bot_key u)
  ∧ announced s'
  ∧ redis s' !! bot_key u = Some (RedisEntry (instance_ip s) (Some 70%Z))
  ∧ (∀ k, k ≠ bot_key u → k ≠ server_key (instance_ip s) →
          redis s' !! k = redis s !! k).
Proof.
  intros Hrun. pose proof (claim_preserves u s) as Hreg.
  rewrite Hrun in Hreg. cbn [state_of] in Hreg. split; [exact Hreg|].
  destruct (claim_cases u s) as [(Hacc & [e He] & _)|(e & s0 & Hr)];
    [|congruence].
  rewrite (claim_stored u s e Hacc He) in Hrun. injection Hrun as <-.
  split; [|split; [|split] ].
  - apply (listed_after_claim s); [reflexivity|]. sproj. unfold listed.
    by rewrite He.
  - unfold announced. sproj. rewrite lookup_insert_eq. eauto.
  - sproj. rewrite lookup_insert_ne by apply not_eq_sym, bot_key_ne_server_key.
    apply lookup_insert_eq.
  - intros k Hk Hks. sproj. by rewrite !lookup_insert_ne.
Qed.

(** What a release that returned has done. *)
Lemma release_returned u s s' :
  _remove_bot_instance_redis u s = Ok () s' →
  registry_only s s'
  ∧ announced s'
  ∧ redis s' !! bot_key u = None
  ∧ (∀ k, k ≠ bot_key u → k ≠ server_key (instance_ip s) →
          redis s' !! k = redis s !! k)
  ∧ ∃ l, Text.remove (bot_key u) (listed s) = Some l ∧ listed s' = l.
Proof.
  intros Hrun. pose proof (release_preserves u s) as Hreg.
  rewrite Hrun in Hreg. cbn [state_of] in Hreg. split; [exact Hreg|].
  revert Hrun. unfold _remove_bot_instance_redis. mrun.
  destruct (redis s !! bot_key u) as [o|] eqn:Ho.
  2:{ erewrite bind_run; [|by apply redis_delete_absent]. mrun.
      change (0 =? 0)%Z with true. by unfold raise. }
  erewrite bind_run; [|by eapply redis_delete_present]. mrun.
  change (1 =? 0)%Z with false. mrun.
  rewrite lookup_delete_ne by apply bot_key_ne_server_key.
  destruct (redis s !! server_key (instance_ip s)) as [e|] eqn:He; mrun;
    [|by unfold raise].
  destruct (Text.remove (bot_key u) (Text.split (value e))) as [l|] eqn:Hl;
    [|by unfold raise].
  destruct (set_replies s) as [|[] rest] eqn:Hs.
  3:{ erewrite bind_run; [|by apply (redis_set_refused _ _ _ _ rest)]. mrun.
      by unfold raise. }
  all: erewrite bind_run;
         [|apply redis_set_stored; unfold accepts; sproj; rewrite Hs;
           by repeat constructor].
  all: mrun; unfold print, emit, modify; intros [= <-].
  all: assert (Hlisted : Text.remove (bot_key u) (listed s) = Some l)
         by (unfold listed; by rewrite He).
  all: split; [unfold announced; sproj; rewrite lookup_insert_eq; eauto|].
  all: split; [sproj;
               rewrite lookup_insert_ne by apply not_eq_sym, bot_key_ne_server_key;
               apply lookup_delete_eq|].
  all: split; [intros k Hk Hks; sproj;
               by rewrite lookup_insert_ne, lookup_delete_ne|].
  all: exists l; split; [done|].
  all: by apply (listed_after_release s _ u l).
Qed.

Lemma terminate_listed pid s :
  listed (state_of (terminate pid s)) = listed s.
Proof. by rewrite terminate_run. Qed.

(** What a loop that returned has done to the session list: a name that
    belongs to no entry of the loop stays, and the name of an entry that
    survives is there. *)
Lemma sweep_returned items : ∀ new_pool s p s',
  sweep items new_pool s = Ok p s' →
  NoDup items.*1 →
  (∀ k, k ∈ listed s → (∀ u, u ∈ items.*1 → k ≠ bot_key u) → k ∈ listed s')
  ∧ (∀ u, u ∈ (survivors (ticks s) items).*1 → Text.token (bot_key u) →
          bot_key u ∈ listed s').
Proof.
  induction items as [|[u d] items IH]; intros new_pool s p s' Hrun Hnd.
  { cbn [sweep] in Hrun. injection Hrun as _ <-. split; [done|].
    cbn [survivors]. intros u Hu. by apply elem_of_nil in Hu. }
  apply NoDup_cons in Hnd as [Hu Hnd].
  cbn [sweep survivors] in *.
  rewrite (bind_run _ _ s (clock (ticks s)) (with_ticks (S (ticks s)) s)) in Hrun
    by done.
  rewrite young_cond in Hrun.
  destruct (decide (young (clock (ticks s)) d)) as [Hy|Hy].
  - rewrite bool_decide_eq_true_2 in Hrun by done.
    destruct (_set_bot_in_instance_redis u (with_ticks (S (ticks s)) s))
      as [[] s1|e s1|s1] eqn:Hclaim;
      [|by rewrite (bind_raise _ _ _ _ _ Hclaim) in Hrun
       |by destruct (claim_prompt u _ _ Hclaim)].
    rewrite (bind_run _ _ _ _ _ Hclaim) in Hrun.
    destruct (claim_returned _ _ _ Hclaim) as (Hreg & Hlisted & _).
    pose proof Hreg as (_ & _ & _ & _ & _ & _ & _ & Htick & _).
    sproj in Htick.
    destruct (IH _ _ _ _ Hrun Hnd) as [Hkeep Hnew]. rewrite Htick in Hnew.
    assert (Hl1 : ∀ k, k ∈ listed s → k ∈ listed s1).
    { intros k Hk. rewrite Hlisted. apply elem_of_app. by left. }
    split.
    + intros k Hk Hout. apply Hkeep; [by apply Hl1|].
      intros u' Hin. apply Hout. by right.
    + intros u' [->|Hin]%elem_of_cons Htok; [|by apply Hnew].
      apply Hkeep.
      * rewrite Hlisted, split_token by done. apply elem_of_app. right.
        by apply list_elem_of_singleton.
      * intros u' Hin Heq%bot_key_inj. by subst.
  - rewrite bool_decide_eq_false_2 in Hrun by done.
    destruct (_remove_bot_instance_redis u (with_ticks (S (ticks s)) s))
      as [[] s1|e s1|s1] eqn:Hrel;
      [|by rewrite (bind_raise _ _ _ _ _ Hrel) in Hrun
       |by destruct (release_prompt u _ _ Hrel)].
    rewrite (bind_run _ _ _ _ _ Hrel) in Hrun.
    rewrite (bind_run _ _ _ _ _ (terminate_run _ _)) in Hrun.
    destruct (release_returned _ _ _ Hrel) as (Hreg & _ & _ & _ & l & Hrem & Hlisted).
    pose proof Hreg as (_ & _ & _ & _ & _ & _ & _ & Htick & _).
    sproj in Htick.
    destruct (IH _ _ _ _ Hrun Hnd) as [Hkeep Hnew].
    rewrite <- (terminate_listed (bot_instance d) s1), terminate_run in Hlisted.
    cbn [state_of] in Hlisted. sproj in Hnew. rewrite Htick in Hnew.
    split; [|exact Hnew].
    intros k Hk Hout. apply Hkeep.
    + rewrite Hlisted. eapply remove_other; [exact Hrem| |exact Hk].
      apply Hout. by left.
    + intros u' Hin. apply Hout. by right.
Qed.

Lemma survivors_NoDup t items : NoDup items.*1 → NoDup (survivors t items).*1.
Proof.
  revert t. induction items as [|[u d] items IH]; intros t Hnd; [constructor|].
  apply NoDup_cons in Hnd as [Hu Hnd]. cbn [survivors].
  destruct (decide _); [|by apply IH].
  rewrite fmap_cons. apply NoDup_cons. split; [|by apply IH].
  intros Hin%survivors_keys. done.
Qed.

Lemma survivors_lookup t items u :
  u ∈ (survivors t items).*1 →
  ∃ i d, items !! i = Some (u, d) ∧ young (clock (t + i)) d.
Proof.
  revert t. induction items as [|[u0 d0] items IH]; intros t; cbn [survivors].
  { intros Hu. by apply elem_of_nil in Hu. }
  destruct (decide (young (clock t) d0)) as [Hy|Hy].
  - rewrite fmap_cons. intros [->|Hin]%elem_of_cons.
    + exists 0, d0. by rewrite Nat.add_0_r.
    + destruct (IH _ Hin) as (i & d & Hi & Hyi). exists (S i), d.
      by replace (t + S i) with (S t + i) by lia.
  - intros Hin. destruct (IH _ Hin) as (i & d & Hi & Hyi). exists (S i), d.
    by replace (t + S i) with (S t + i) by lia.
Qed.

Lemma dict_set_keys {V} (k : string) (v : V) (d : Dict.t V) :
  is_Some (Dict.get k d) → Dict.keys (Dict.set k v d) = Dict.keys d.
Proof.
  unfold Dict.keys. induction d as [|[k0 v0] d IH]; simpl.
  - by intros [? [=]].
  - destruct (decide (k = k0)) as [->|Hne]; [done|].
    intros Hk. rewrite !fmap_cons. f_equal. by apply IH.
Qed.

Lemma dict_keys_elem {V} (k : string) (d : Dict.t V) :
  k ∈ Dict.keys d ↔ is_Some (Dict.get k d).
Proof.
  rewrite <- not_eq_None_Some, dict_get_None.
  split; [by intros ? ?|]. intros Hk. by destruct (decide (k ∈ Dict.keys d)).
Qed.

(** The memory report when Redis stores the list. *)
Lemma usage_step_obliging s :
  obliging s →
  ∃ s', _set_usage_memory s = Ok () s'
        ∧ obliging s' ∧ registry_only s s'
        ∧ ∀ k, k ≠ available_key → redis s' !! k = redis s !! k.
Proof.
  intros Hs. unfold _set_usage_memory. mrun.
  set (servers := match value <$> redis s !! available_key with
                  | Some text => Text.split text
                  | None => []
                  end).
  assert (Hfinish : ∀ l,
    ∃ s', bind (redis_set available_key (Text.join " " l) None)
            (λ stored, if stored then print "Setted servers availables"
                       else raise (ValueError "Error on set servers availables"))
            (with_log (log s ++ [RedisGet available_key]) s) = Ok () s'
          ∧ obliging s' ∧ registry_only s s'
          ∧ ∀ k, k ≠ available_key → redis s' !! k = redis s !! k).
  { intros l.
    erewrite bind_run; [|apply redis_set_stored; by apply obliging_accepts].
    unfold print, emit, modify. eexists. split; [reflexivity|]. split; [|split].
    - unfold obliging in *. sproj. destruct Hs; by repeat constructor.
    - unfold registry_only, origin_reads. sproj. rewrite <- !app_assoc, filter_app.
      simpl. rewrite app_nil_r. by repeat split.
    - intros k Hk. sproj. by rewrite lookup_insert_ne. }
  destruct (Qle_bool (memory_percent s) 80).
  - destruct (Text.contains (instance_ip s) servers); cbn [negb]; mrun; apply Hfinish.
  - destruct (Text.contains (instance_ip s) servers) eqn:Hin; mrun; [|apply Hfinish].
    apply contains_true, remove_Some in Hin as [l ->]. mrun. apply Hfinish.
Qed.

(** X8.  Sweeps can go on for ever.  On a Redis that stores what it is
    sent, a sweep that starts with the registry and the pool in step
    returns and leaves them in step: every session it kept has its owner
    key and its name in the session list.  What the sweep needs in order
    to return, it hands on to the next sweep. *)
Theorem sweep_keeps_consistent (s : state) :
  obliging s → consistent s →
  ∃ s', garbage_collector s = Ok () s' ∧ obliging s' ∧ consistent s'.
Proof.
  intros Hs (Hann & Hwf & Hown).
  destruct (server_alive_step s Hs) as (s0 & Halive & Hs0 & Hreg0 & Hredis0).
  pose proof Hreg0 as (Hp0 & Hip0 & _ & _ & _ & _ & _ & Htick0 & _).
  assert (Hlisted0 : listed s0 = listed s).
  { unfold listed. rewrite Hip0, Hredis0.
    by rewrite lookup_insert_ne by apply alive_key_ne_server_key. }
  assert (Hown0 : ∀ u d, (u, d) ∈ _pool s → owned s0 u).
  { intros u d Hin. destruct (Hown u) as [Hkey Hl].
    { apply list_elem_of_fmap. by exists (u, d). }
    split.
    - rewrite Hredis0. by rewrite lookup_insert_ne by apply alive_key_ne_bot_key.
    - by rewrite Hlisted0. }
  destruct (sweep_run (_pool s) [] s0) as
    (s1 & Hloop & Hs1 & Hann1 & _ & Hip1 & _ & Hidx & _);
    [done| |done|done|done|].
  { unfold announced. rewrite Hip0, Hredis0.
    by rewrite lookup_insert_ne by apply alive_key_ne_server_key. }
  destruct (sweep_returned _ _ _ _ _ Hloop Hwf) as [_ Hnew].
  rewrite Htick0 in Hloop, Hnew. cbn [app] in Hloop.
  destruct (usage_step_obliging
              (with_log (log s1 ++ [Print "garbage collected..."])
                 (with_pool (λ _, survivors (ticks s) (_pool s)) s1)))
    as (s2 & Husage & Hs2 & Hreg2 & Hframe2); [exact Hs1|].
  pose proof Hreg2 as (Hp2 & Hip2 & _). sproj in Hp2. sproj in Hip2.
  exists (with_timers (timers s2 ++ [60%Z]) s2).
  split; [|split; [exact Hs2|split; [|split] ] ].
  - unfold garbage_collector. rewrite (bind_run _ _ _ _ _ Halive). mrun.
    rewrite Hp0. rewrite (bind_run _ _ _ _ _ Hloop). mrun.
    rewrite (bind_run _ _ _ _ _ Husage). reflexivity.
  - unfold announced. sproj. rewrite Hip2.
    rewrite Hframe2 by apply not_eq_sym, available_key_ne_server_key. exact Hann1.
  - unfold Dict.wf. sproj. rewrite Hp2. by apply survivors_NoDup.
  - sproj. rewrite Hp2. intros u Hu.
    destruct (survivors_lookup _ _ _ Hu) as (i & d & Hi & Hy).
    specialize (Hidx i u d Hi). rewrite Htick0, decide_True in Hidx by done.
    split.
    + sproj. rewrite Hframe2 by apply bot_key_ne_available. sproj.
      rewrite Hidx. eauto.
    + unfold listed. sproj. rewrite Hip2.
      rewrite Hframe2 by apply not_eq_sym, available_key_ne_server_key. sproj.
      apply (Hnew u Hu).
      destruct (Hown u) as [_ Hl].
      { apply list_elem_of_fmap. exists (u, d). split; [done|].
        by eapply list_elem_of_lookup_2. }
      eapply Forall_forall; [apply listed_tokens|exact Hl].
Qed.

End Consistency.

Section ConsistencyAsk.
Context `{Externals}.
Import BotManager.
Local Open Scope py_scope.
Local Arguments redis_set : simpl never.

Lemma obliging_drop2 s s' :
  obliging s → set_replies s' = tail (tail (set_replies s)) → obliging s'.
Proof.
  intros Hs Hs'.
  apply (obliging_tail (with_set_replies (tail (set_replies s)) s)); [|exact Hs'].
  by apply (obliging_tail s).
Qed.

Lemma is_Some_insert (k k' : string) (v : redis_entry) (m : gmap string redis_entry) :
  is_Some (m !! k) → is_Some (<[k' := v]> m !! k).
Proof.
  intros Hk. destruct (decide (k' = k)) as [->|Hne].
  - rewrite lookup_insert_eq. eauto.
  - by rewrite lookup_insert_ne.
Qed.

(** A new entry of the pool whose session has been claimed: the registry
    and the pool are in step again. *)
Lemma consistent_grows u d s s' :
  consistent s →
  Dict.get u (_pool s) = None →
  _pool s' = Dict.set u d (_pool s) →
  instance_ip s' = instance_ip s →
  (∀ k, is_Some (redis s !! k) → is_Some (redis s' !! k)) →
  is_Some (redis s' !! bot_key u) →
  listed s' = listed s ++ [bot_key u] →
  consistent s'.
Proof.
  intros (Hann & Hwf & Hown) Hd Hpool Hip Hmono Hkey Hlisted.
  split; [|split].
  - unfold announced. rewrite Hip. by apply Hmono.
  - unfold Dict.wf, Dict.keys. rewrite Hpool, dict_set_absent by done.
    rewrite fmap_app. apply NoDup_app. split; [exact Hwf|]. split.
    + intros k Hk [->|[]%elem_of_nil]%elem_of_cons.
      by apply dict_get_None in Hd.
    + apply NoDup_singleton.
  - intros v. unfold Dict.keys. rewrite Hpool, dict_set_absent, fmap_app by done.
    intros [Hv|[->|[]%elem_of_nil]%elem_of_cons]%elem_of_app.
    + destruct (Hown v Hv) as [Hkv Hlv]. split; [by apply Hmono|].
      rewrite Hlisted. apply elem_of_app. by left.
    + split; [done|]. rewrite Hlisted. apply elem_of_app. right.
      by apply list_elem_of_singleton.
Qed.

(** Stamping an entry leaves the registry and the pool in step. *)
Lemma consistent_stamped u d s s' :
  consistent s →
  is_Some (Dict.get u (_pool s)) →
  _pool s' = Dict.set u d (_pool s) →
  instance_ip s' = instance_ip s →
  redis s' = redis s →
  consistent s'.
Proof.
  intros (Hann & Hwf & Hown) Hd Hpool Hip Hredis.
  assert (Hkeys : Dict.keys (_pool s') = Dict.keys (_pool s)).
  { rewrite Hpool. by apply dict_set_keys. }
  assert (Hlisted : listed s' = listed s).
  { unfold listed. by rewrite Hip, Hredis. }
  split; [|split].
  - unfold announced. by rewrite Hip, Hredis.
  - unfold Dict.wf. by rewrite Hkeys.
  - intros v Hv. rewrite Hkeys in Hv. destruct (Hown v Hv) as [Hkv Hlv].
    split; [by rewrite Hredis|by rewrite Hlisted].
Qed.

Lemma resolve_keeps_consistent u s :
  obliging s → consistent s → Text.token (bot_key u) → resolvable s u →
  ∃ d s', _get_bot_data u s = Ok d s' ∧ obliging s' ∧ consistent s'.
Proof.
  intros Hs Hc Htok Hres. pose proof Hc as ([e' He'] & Hwf & Hown).
  assert (Hnew : Text.split (Text.join " " (Text.split (value e') ++ [bot_key u]))
                 = listed s ++ [bot_key u]).
  { unfold listed. rewrite He'.
    rewrite split_join, bind_split_tokens; [done|].
    apply Forall_app. split; [apply split_tokens|].
    apply Forall_cons. split; [exact Htok|constructor]. }
  destruct (Dict.get u (_pool s)) as [d|] eqn:Hd.
  { exists d. eexists. split; [by apply resolve_local|]. split; [exact Hs|].
    exact Hc. }
  destruct Hres as [[d Hd']|[(e & bot & He & Hbot)|(He & pickled & bot & Hrow & Hbot)] ];
    [congruence| |].
  - exists (new_entry s). eexists.
    split; [exact (resolve_snapshot u s e bot e' Hd He Hbot
                     (obliging_accepts 2 s Hs) He')|].
    split; [by eapply obliging_drop2|].
    eapply (consistent_grows u (new_entry s) s); [done|done|reflexivity..| | |].
    + intros k Hk. sproj. by do 2 apply is_Some_insert.
    + sproj. rewrite lookup_insert_ne by apply not_eq_sym, bot_key_ne_server_key.
      rewrite lookup_insert_eq. eauto.
    + unfold listed at 1. sproj. rewrite lookup_insert_eq. cbn [value].
      exact Hnew.
  - exists (new_entry s). eexists.
    split; [exact (resolve_origin u s pickled bot e' Hd He Hrow Hbot
                     (obliging_accepts 3 s Hs) He')|].
    split.
    { apply (obliging_tail (with_set_replies (tail (tail (set_replies s))) s));
        [|reflexivity].
      by apply (obliging_drop2 s). }
    eapply (consistent_grows u (new_entry s) s); [done|done|reflexivity..| | |].
    + intros k Hk. sproj. by do 3 apply is_Some_insert.
    + sproj. rewrite lookup_insert_ne by apply not_eq_sym, bot_key_ne_server_key.
      rewrite lookup_insert_eq. eauto.
    + unfold listed at 1. sproj. rewrite lookup_insert_eq. cbn [value].
      exact Hnew.
Qed.

(** X9.  Asking keeps the registry and the pool in step.  On a Redis that
    stores what it is sent, for a session whose name is one word and which
    some tier can resolve, the resolution returns, [ask] gets as far as its
    wait, and after either the registry and the pool are in step: the new
    session, if there is one, has its owner key and its name in the list,
    and no session of the pool has lost either. *)
Theorem ask_keeps_consistent (question bot_uuid : string) (s : state) :
  obliging s → consistent s → Text.token (bot_key bot_uuid) →
  resolvable s bot_uuid →
  (∃ d s', _get_bot_data bot_uuid s = Ok d s' ∧ obliging s' ∧ consistent s')
  ∧ (∃ held s', ask_request question bot_uuid s = Ok held s'
                ∧ obliging s' ∧ consistent s').
Proof.
  intros Hs Hc Htok Hres.
  destruct (resolve_keeps_consistent bot_uuid s Hs Hc Htok Hres)
    as (d & s1 & Hrun & Hs1 & Hc1).
  split; [by exists d, s1|].
  eexists. eexists. split; [by apply (ask_request_run _ _ _ d s1)|].
  split; [exact Hs1|].
  eapply (consistent_stamped bot_uuid _ s1); [exact Hc1| |reflexivity..].
  rewrite (resolve_enters_pool _ _ _ _ Hrun). eauto.
Qed.

End ConsistencyAsk.

(** ** Sessions do not share their objects *)

Section Apart.
Context `{Externals}.
Import BotManager.
Local Open Scope py_scope.
Local Arguments redis_set : simpl never.

Lemma state_of_raise_bind {A B} (m : M A) (k : A → M B) s e s1 :
  m s = Raise e s1 → state_of (bind m k s) = s1.
Proof. intros Hm. by rewrite (bind_raise _ _ _ _ _ Hm). Qed.

(** What a resolution does to the pool map and to the allocator, however
    it ends: nothing, or one new entry for a session that had none, made of
    the five objects allocated next. *)
Lemma resolve_pool_cases u s :
  let s' := state_of (_get_bot_data u s) in
  (_pool s' = _pool s ∧ next_id s' = next_id s)
  ∨ (Dict.get u (_pool s) = None
     ∧ _pool s' = _pool s ++ [(u, new_entry s)]
     ∧ next_id s' = 5 + next_id s).
Proof.
  intros s'. subst s'.
  destruct (Dict.get u (_pool s)) as [d0|] eqn:Hd.
  { rewrite (resolve_local u s d0 Hd). by left. }
  assert (Hlate : ∀ (s1 : state),
            _pool s1 = Dict.set u (new_entry s) (_pool s) →
            next_id s1 = 5 + next_id s →
            let s' := state_of (bind (_set_bot_in_instance_redis u)
                                  (λ _, ret (new_entry s)) s1) in
            _pool s' = _pool s ++ [(u, new_entry s)]
            ∧ next_id s' = 5 + next_id s).
  { intros s1 Hp1 Hn1. cbv zeta. rewrite state_of_bind_ret.
    pose proof (claim_registry_only u s1) as (Hp & _ & _ & _ & _ & _ & Hn & _).
    rewrite Hp, Hn, Hp1, Hn1. by rewrite dict_set_absent. }
  unfold _get_bot_data. mrun. rewrite Hd. mrun.
  destruct (redis s !! u) as [e|] eqn:He; mrun.
  - unfold cloudpickle_loads. destruct (loads (value e)) as [bot|]; mrun;
      [|by left].
    right. split; [done|]. by apply Hlate.
  - destruct (database s !! u) as [pickled|] eqn:Hrow.
    2:{ erewrite bind_raise; [|by apply Bot_get_missing]. by left. }
    erewrite bind_run; [|by apply Bot_get_found].
    mrun. unfold cloudpickle_loads. destruct (loads pickled) as [bot|]; mrun;
      [|by left].
    unfold _set_bot_redis.
    match goal with
    | |- context [bind (redis_set ?k ?v ?t) _ ?s1] =>
        destruct (redis_set_cases k v t s1) as (b & s2 & Hset & Hreg);
        rewrite (bind_run _ _ _ _ _ Hset)
    end.
    destruct Hreg as (Hp2 & _ & _ & _ & _ & _ & Hn2 & Ht2 & _).
    sproj in Hp2. sproj in Hn2. sproj in Ht2.
    mrun. right. split; [done|].
    assert (Hentry : BotData (4 + next_id s2) (next_id s2) (1 + next_id s2)
                       (2 + next_id s2) (3 + next_id s2) (clock (ticks s2))
                     = new_entry s).
    { unfold new_entry. by rewrite Hn2, Ht2. }
    cbn [Nat.add] in Hentry. rewrite Hentry.
    apply Hlate; sproj; [by rewrite Hp2|by rewrite Hn2].
Qed.

Lemma objects_new_entry s :
  objects (new_entry s)
  = [4 + next_id s; next_id s; 1 + next_id s; 2 + next_id s; 3 + next_id s].
Proof. reflexivity. Qed.

Lemma apart_grows u s s' :
  apart s →
  Dict.get u (_pool s) = None →
  _pool s' = _pool s ++ [(u, new_entry s)] →
  next_id s' = 5 + next_id s →
  apart s'.
Proof.
  intros (Hwf & Hnd & Hlt) Hd Hpool Hnext. unfold apart, Dict.wf, Dict.keys.
  rewrite Hpool, Hnext, !fmap_app, bind_app.
  change ([(u, new_entry s)].*1) with [u].
  change ([(u, new_entry s)].*2) with [new_entry s].
  rewrite bind_singleton, objects_new_entry.
  split; [|split].
  - apply NoDup_app. split; [exact Hwf|]. split; [|apply NoDup_singleton].
    intros k Hk [->|[]%elem_of_nil]%elem_of_cons. by apply dict_get_None in Hd.
  - apply NoDup_app. split; [exact Hnd|]. split.
    + intros n Hn Hin. rewrite Forall_forall in Hlt. specialize (Hlt n Hn).
      rewrite !elem_of_cons, elem_of_nil in Hin. lia.
    + repeat (apply NoDup_cons; split;
              [rewrite ?elem_of_cons, elem_of_nil; lia|]).
      apply NoDup_nil_2.
  - apply Forall_app. split.
    + eapply Forall_impl; [exact Hlt|]. simpl. lia.
    + repeat (apply Forall_cons; split; [lia|]). apply Forall_nil_2.
Qed.

Lemma dict_set_objects u d d' (pool : Dict.t bot_data) :
  Dict.get u pool = Some d → objects d' = objects d →
  (Dict.set u d' pool).*2 ≫= objects = pool.*2 ≫= objects.
Proof.
  intros Hd Hobj. induction pool as [|[k v] pool IH]; [done|].
  cbn [Dict.get Dict.set] in Hd |- *. destruct (decide (u = k)) as [->|Hne].
  - injection Hd as ->. rewrite !fmap_cons, !bind_cons. cbn [snd].
    by rewrite Hobj.
  - rewrite !fmap_cons, !bind_cons. f_equal. by apply IH.
Qed.

Lemma apart_stamped u d d' s s' :
  apart s →
  Dict.get u (_pool s) = Some d → objects d' = objects d →
  _pool s' = Dict.set u d' (_pool s) →
  next_id s' = next_id s →
  apart s'.
Proof.
  intros (Hwf & Hnd & Hlt) Hd Hobj Hpool Hnext. unfold apart, Dict.wf.
  rewrite Hpool, Hnext, dict_set_keys by eauto.
  by rewrite (dict_set_objects u d d').
Qed.

Lemma apart_same s s' :
  apart s → _pool s' = _pool s → next_id s' = next_id s → apart s'.
Proof. unfold apart. by intros ? -> ->. Qed.

Lemma resolve_keeps_apart u s : apart s → apart (state_of (_get_bot_data u s)).
Proof.
  intros Hs. destruct (resolve_pool_cases u s) as [[Hp Hn]|(Hd & Hp & Hn)].
  - by eapply apart_same.
  - by eapply apart_grows.
Qed.

Lemma ask_request_parks question u s s' :
  _get_bot_data u s = Parked s' → ask_request question u s = Parked s'.
Proof.
  intros Hrun. unfold ask_request, _get_questions_queue, bind. by rewrite Hrun.
Qed.

Lemma ask_request_keeps_apart question u s :
  apart s → apart (state_of (ask_request question u s)).
Proof.
  intros Hs. pose proof (resolve_keeps_apart u s Hs) as Hs1.
  destruct (_get_bot_data u s) as [d s1|e s1|s1] eqn:Hrun; cbn [state_of] in Hs1.
  - rewrite (ask_request_run question u s d s1 Hrun). cbn [state_of].
    apply (apart_stamped u d
             (BotData (bot_instance d) (answers_queue d) (questions_queue d)
                (new_question_event d) (new_answer_event d) (clock (ticks s1)))
             s1); [exact Hs1|by eapply resolve_enters_pool|reflexivity..].
  - by rewrite (ask_request_raises question u s e s1 Hrun).
  - by rewrite (ask_request_parks question u s s1 Hrun).
Qed.

Global Instance heap_kept_preorder : PreOrder heap_kept.
Proof.
  split.
  - by intros s.
  - intros s1 s2 s3 [? ?] [? ?]. split; congruence.
Qed.

Lemma registry_only_heap_kept s s' : registry_only s s' → heap_kept s s'.
Proof. intros (Hp & _ & _ & _ & _ & _ & Hn & _). by split. Qed.

Lemma sweep_heap_kept items new_pool : preserves heap_kept (sweep items new_pool).
Proof.
  revert new_pool. induction items as [|[u d] items IH]; intros new_pool.
  - apply preserves_ret, _.
  - cbn [sweep]. apply preserves_bind; [apply _|by intros s|].
    intros now. destruct (negb _).
    + apply preserves_bind; [apply _| |intros _; apply IH].
      eapply preserves_weaken; [apply registry_only_heap_kept|apply claim_preserves].
    + apply preserves_bind; [apply _| |intros _].
      { eapply preserves_weaken;
          [apply registry_only_heap_kept|apply release_preserves]. }
      apply preserves_bind; [apply _| |intros _; apply IH].
      intros s. by rewrite terminate_run.
Qed.

(** The pool a loop that returned hands back: the entries it was given and
    the survivors after them. *)
Lemma sweep_result items : ∀ new_pool s p s',
  sweep items new_pool s = Ok p s' →
  NoDup items.*1 →
  (∀ u, u ∈ items.*1 → Dict.get u new_pool = None) →
  p = new_pool ++ survivors (ticks s) items.
Proof.
  induction items as [|[u d] items IH]; intros new_pool s p s' Hrun Hnd Hacc.
  { cbn [sweep survivors] in *. injection Hrun as <- _. by rewrite app_nil_r. }
  apply NoDup_cons in Hnd as [Hu Hnd].
  cbn [sweep survivors] in *.
  rewrite (bind_run _ _ s (clock (ticks s)) (with_ticks (S (ticks s)) s)) in Hrun
    by done.
  rewrite young_cond in Hrun.
  destruct (decide (young (clock (ticks s)) d)) as [Hy|Hy].
  - rewrite bool_decide_eq_true_2 in Hrun by done.
    destruct (_set_bot_in_instance_redis u (with_ticks (S (ticks s)) s))
      as [[] s1|e s1|s1] eqn:Hclaim;
      [|by rewrite (bind_raise _ _ _ _ _ Hclaim) in Hrun
       |by destruct (claim_prompt u _ _ Hclaim)].
    rewrite (bind_run _ _ _ _ _ Hclaim) in Hrun.
    pose proof (claim_preserves u (with_ticks (S (ticks s)) s)) as Hreg.
    rewrite Hclaim in Hreg. destruct Hreg as (_ & _ & _ & _ & _ & _ & _ & Htick & _).
    cbn [state_of] in Htick. sproj in Htick.
    rewrite (IH _ _ _ _ Hrun Hnd), Htick.
    + rewrite (dict_set_absent u d new_pool) by (apply Hacc; by left).
      by rewrite <- app_assoc.
    + intros u' Hin. rewrite dict_get_set_ne; [apply Hacc; by right|].
      by intros ->.
  - rewrite bool_decide_eq_false_2 in Hrun by done.
    destruct (_remove_bot_instance_redis u (with_ticks (S (ticks s)) s))
      as [[] s1|e s1|s1] eqn:Hrel;
      [|by rewrite (bind_raise _ _ _ _ _ Hrel) in Hrun
       |by destruct (release_prompt u _ _ Hrel)].
    rewrite (bind_run _ _ _ _ _ Hrel) in Hrun.
    rewrite (bind_run _ _ _ _ _ (terminate_run _ _)) in Hrun.
    pose proof (release_preserves u (with_ticks (S (ticks s)) s)) as Hreg.
    rewrite Hrel in Hreg. destruct Hreg as (_ & _ & _ & _ & _ & _ & _ & Htick & _).
    cbn [state_of] in Htick. sproj in Htick.
    rewrite (IH _ _ _ _ Hrun Hnd); [sproj; by rewrite Htick|].
    intros u' Hin. apply Hacc. by right.
Qed.

(** What a sweep does to the pool map and to the allocator, however it
    ends: the pool is as it was, or it is what survives of it; nothing is
    created. *)
Lemma collector_pool_cases s :
  Dict.wf (_pool s) →
  let s' := state_of (garbage_collector s) in
  (_pool s' = _pool s ∨ _pool s' = survivors (ticks s) (_pool s))
  ∧ next_id s' = next_id s.
Proof.
  intros Hwf s'. subst s'. unfold garbage_collector.
  pose proof (server_alive_preserves s) as Hreg0.
  rewrite state_of_bind.
  destruct (_set_server_alive s) as [[] s0|e s0|s0]; cbn [state_of] in Hreg0.
  2,3: destruct Hreg0 as (Hp & _ & _ & _ & _ & _ & Hn & _); split; [by left|done].
  pose proof Hreg0 as (Hp0 & _ & _ & _ & _ & _ & Hn0 & Ht0 & _).
  mrun. pose proof (sweep_heap_kept (_pool s0) [] s0) as Hkept.
  rewrite state_of_bind.
  destruct (sweep (_pool s0) [] s0) as [p s1|e s1|s1] eqn:Hloop;
    cbn [state_of] in Hkept; destruct Hkept as [Hp1 Hn1].
  2,3: split; [left|]; congruence.
  rewrite Hp0 in Hloop. apply sweep_result in Hloop; [|done..].
  cbn [app] in Hloop. rewrite Ht0 in Hloop. subst p.
  mrun.
  match goal with
  | |- context [bind _set_usage_memory _ ?s2] =>
      pose proof (usage_memory_preserves s2) as Hreg2; rewrite state_of_bind;
      destruct (_set_usage_memory s2) as [[] s3|e s3|s3]; cbn [state_of] in Hreg2
  end.
  all: destruct Hreg2 as (Hp2 & _ & _ & _ & _ & _ & Hn2 & _);
       sproj in Hp2; sproj in Hn2.
  all: split; [right|]; try (unfold start_garbage_collector, Timer_start, modify);
       sproj; congruence.
Qed.

Lemma survivors_sublist t items : survivors t items `sublist_of` items.
Proof.
  revert t. induction items as [|[u d] items IH]; intros t; cbn [survivors].
  - constructor.
  - destruct (decide _); [by apply sublist_skip|by apply sublist_cons].
Qed.

Lemma apart_survivors t s s' :
  apart s → _pool s' = survivors t (_pool s) → next_id s' = next_id s → apart s'.
Proof.
  intros (Hwf & Hnd & Hlt) Hpool Hnext. unfold apart, Dict.wf.
  rewrite Hpool, Hnext.
  assert (Hsub : (survivors t (_pool s)).*2 ≫= objects
                 `sublist_of` (_pool s).*2 ≫= objects).
  { apply bind_sublist, fmap_sublist, survivors_sublist. }
  split; [by apply survivors_NoDup|]. split.
  - by eapply sublist_NoDup.
  - apply Forall_forall. intros n Hn. rewrite Forall_forall in Hlt.
    apply Hlt. by eapply elem_of_sublist.
Qed.

Lemma objects_disjoint (pool : Dict.t bot_data) u v d d' n :
  NoDup (pool.*2 ≫= objects) → u ≠ v →
  (u, d) ∈ pool → (v, d') ∈ pool → n ∈ objects d → n ∉ objects d'.
Proof.
  intros Hnd Hne. revert Hnd.
  induction pool as [|[k x] pool IH]; [by intros _ []%elem_of_nil|].
  rewrite fmap_cons, bind_cons. cbn [snd].
  intros (Hx & Hout & Hrest)%NoDup_app.
  assert (Hin : ∀ w e m, (w, e) ∈ pool → m ∈ objects e → m ∈ pool.*2 ≫= objects).
  { intros w e m Hw Hm. apply list_elem_of_bind. exists e. split; [done|].
    apply list_elem_of_fmap. by exists (w, e). }
  intros [[= <- <-]|Hu]%elem_of_cons [[= <- <-]|Hv]%elem_of_cons Hn Hn'.
  - done.
  - by eapply Hout, Hin.
  - by eapply (Hout n), Hin.
  - by eapply IH.
Qed.

(** X10.  Sessions do not share their objects.  If no process, queue or
    event is referred to twice in the pool, then two sessions of the pool
    have no object in common, and that is still so after a resolution,
    after [ask] up to its wait and after a sweep, however each of them
    ends.  The pool of a new machine is empty, so it starts that way. *)
Theorem sessions_stay_apart (question bot_uuid : string) (s : state) :
  (_pool s = [] → apart s)
  ∧ (apart s →
     (∀ u v d d' n, u ≠ v → (u, d) ∈ _pool s → (v, d') ∈ _pool s →
                    n ∈ objects d → n ∉ objects d')
     ∧ apart (state_of (_get_bot_data bot_uuid s))
     ∧ apart (state_of (ask_request question bot_uuid s))
     ∧ apart (state_of (garbage_collector s))).
Proof.
  split.
  { intros Hempty. unfold apart, Dict.wf, Dict.keys. rewrite Hempty.
    split; [constructor|]. split; constructor. }
  intros Hs. split.
  { intros u v d d' n. destruct Hs as (_ & Hnd & _). by apply objects_disjoint. }
  split; [by apply resolve_keeps_apart|].
  split; [by apply ask_request_keeps_apart|].
  destruct (collector_pool_cases s) as [[Hp|Hp] Hn]; [by destruct Hs| |].
  - by eapply apart_same.
  - by eapply apart_survivors.
Qed.

End Apart.

(** ** Session names with white space *)

Section Spaced.
Context `{Externals}.
Import BotManager.
Local Open Scope py_scope.
Local Arguments redis_set : simpl never.

Lemma remove_elem x l l' : Text.remove x l = Some l' → x ∈ l.
Proof.
  revert l'. induction l as [|y l IH]; intros l'; simpl; [done|].
  destruct (decide (x = y)) as [->|Hne]; [intros _; by left|].
  destruct (Text.remove x l) as [r|]; [|done]. intros _. right. by eapply IH.
Qed.

(** X11.  A session whose name is not one word.  The session list is kept
    as words separated by blanks, so such a name is never one of its
    items.  A claim still returns on a Redis that stores what it is sent:
    it appends the pieces of the name.  A release never returns, in any
    state: it raises, so a sweep that finds such a session idle cannot
    evict it. *)
Theorem spaced_name_is_never_released (bot_uuid : string) (s : state) :
  ¬ Text.token (bot_key bot_uuid) →
  (bot_key bot_uuid ∉ listed s)
  ∧ (obliging s → announced s →
     ∃ s', _set_bot_in_instance_redis bot_uuid s = Ok () s'
           ∧ listed s' = listed s ++ Text.split (bot_key bot_uuid)
           ∧ bot_key bot_uuid ∉ listed s')
  ∧ ∃ e s', _remove_bot_instance_redis bot_uuid s = Raise e s'.
Proof.
  intros Hspaced.
  assert (Hout : ∀ t, bot_key bot_uuid ∉ listed t).
  { intros t Hin. apply Hspaced.
    eapply Forall_forall; [apply listed_tokens|exact Hin]. }
  split; [apply Hout|]. split.
  - intros Hs Hann.
    destruct (claim_step bot_uuid s Hs Hann) as (s' & Hrun & _).
    exists s'. split; [exact Hrun|].
    by destruct (claim_returned _ _ _ Hrun) as (_ & Hlisted & _).
  - destruct (_remove_bot_instance_redis bot_uuid s) as [[] s'|e s'|s'] eqn:Hrun.
    + destruct (release_returned _ _ _ Hrun) as (_ & _ & _ & _ & l & Hrem & _).
      by apply remove_elem, Hout in Hrem.
    + by exists e, s'.
    + by destruct (release_prompt bot_uuid _ _ Hrun).
Qed.

End Spaced.

(** ** The further properties on the sample machine *)

(** Start-up of the cold sample machine. *)
Lemma init_announces_witness :
  ∃ s', @BotManager.__init__ Sample.externals Sample.cold = BotManager.Ok () s'
        ∧ BotManager.instance_ip s' = "10.0.0.1"
        ∧ @listed Sample.externals s' = [].
Proof.
  pose proof (@init_announces Sample.externals Sample.cold) as [Hinit _].
  destruct Hinit as (s' & Hrun & Hip & _ & Hl & _).
  - unfold accepts. vm_compute. constructor.
  - refine (ex_intro _ s' (conj Hrun (conj _ Hl))).
    rewrite Hip. vm_compute. reflexivity.
Defined.

(** The snapshot under "z" does not unpickle. *)
Lemma corrupt_snapshot_witness :
  ∃ s', @BotManager.ask Sample.externals id "hello" "z" Scenes.corrupted
          = BotManager.Raise BotManager.PickleError s'
        ∧ @origin_reads Sample.externals s' = [].
Proof.
  destruct (@corrupt_snapshot_is_not_repaired Sample.externals id "hello" "z"
              Scenes.corrupted (BotManager.RedisEntry "" None))
    as (_ & Hask & Hreads & _).
  - vm_compute. reflexivity.
  - vm_compute. reflexivity.
  - vm_compute. reflexivity.
  - refine (ex_intro _ _ (conj Hask _)). rewrite Hreads. vm_compute. reflexivity.
Defined.

(** Redis refuses the owner key of "a". *)
Lemma unpublished_session_witness :
  ∃ s', @BotManager._get_bot_data Sample.externals "a"
          (Sample.refusing [false] Sample.started)
        = BotManager.Raise
            (BotManager.ValueError "Error save bot in instance redis") s'
        ∧ ∃ d s'', @BotManager._get_bot_data Sample.externals "a" s'
                   = BotManager.Ok d s''.
Proof.
  destruct (@unpublished_session_is_served Sample.externals "a"
              (Sample.refusing [false] Sample.started)
              (BotManager.RedisEntry "model-a" None) "model-a" [])
    as (s' & Hrun & _ & _ & _ & Hnext).
  - vm_compute. reflexivity.
  - vm_compute. reflexivity.
  - vm_compute. reflexivity.
  - vm_compute. reflexivity.
  - exact (ex_intro _ s' (conj Hrun (ex_intro _ _ (ex_intro _ _ Hnext)))).
Defined.

(** Redis refuses the snapshot of "b" and stores the claim. *)
Lemma refused_snapshot_witness :
  ∃ d s', @BotManager._get_bot_data Sample.externals "b"
            (Sample.refusing [false] Sample.started)
          = BotManager.Ok d s'
          ∧ BotManager.redis s' !! "b" = None.
Proof.
  destruct (@refused_snapshot_goes_unnoticed Sample.externals "b"
              (Sample.refusing [false] Sample.started) "model-b" "model-b" [])
    as (s' & Hrun & Hnone & _).
  - vm_compute. reflexivity.
  - vm_compute. reflexivity.
  - vm_compute. reflexivity.
  - vm_compute. reflexivity.
  - vm_compute. reflexivity.
  - constructor.
  - unfold announced. vm_compute. eexists. reflexivity.
  - exact (ex_intro _ _ (ex_intro _ s' (conj Hrun Hnone))).
Defined.

Lemma sample_busy_consistent : @consistent Sample.externals Sample.busy.
Proof.
  split; [|split].
  - unfold announced. vm_compute. eexists. reflexivity.
  - unfold Dict.wf. apply (bool_decide_unpack _). vm_compute. exact I.
  - intros u Hu. unfold owned.
    apply elem_of_cons in Hu as [->|Hu];
      [|apply elem_of_cons in Hu as [->|Hu]; [|by apply elem_of_nil in Hu] ];
      apply (bool_decide_unpack _); vm_compute; exact I.
Qed.

(** Two sweeps of the busy sample machine, one after the other. *)
Lemma sweep_keeps_consistent_witness :
  ∃ s' s'', @BotManager.garbage_collector Sample.externals Sample.busy
              = BotManager.Ok () s'
            ∧ @BotManager.garbage_collector Sample.externals s'
              = BotManager.Ok () s''.
Proof.
  destruct (@sweep_keeps_consistent Sample.externals Sample.busy)
    as (s' & Hrun & Hs' & Hc').
  - unfold obliging. vm_compute. constructor.
  - exact sample_busy_consistent.
  - destruct (@sweep_keeps_consistent Sample.externals s' Hs' Hc')
      as (s'' & Hrun' & _).
    exact (ex_intro _ s' (ex_intro _ s'' (conj Hrun Hrun'))).
Defined.

(** A first question for "a" on the started sample machine. *)
Lemma ask_keeps_consistent_witness :
  ∃ held s', @BotManager.ask_request Sample.externals "hello" "a" Sample.started
             = BotManager.Ok held s'
             ∧ @consistent Sample.externals s'.
Proof.
  destruct (@ask_keeps_consistent Sample.externals "hello" "a" Sample.started)
    as (_ & held & s' & Hrun & _ & Hc).
  - unfold obliging. vm_compute. constructor.
  - split; [|split].
    + unfold announced. vm_compute. eexists. reflexivity.
    + unfold Dict.wf. vm_compute. constructor.
    + intros u Hu. vm_compute in Hu. by apply elem_of_nil in Hu.
  - split; [discriminate|]. unfold Text.no_space. vm_compute. repeat constructor.
  - right. left. exists (BotManager.RedisEntry "model-a" None), "model-a".
    split; vm_compute; reflexivity.
  - exact (ex_intro _ held (ex_intro _ s' (conj Hrun Hc))).
Defined.

(** The busy sample machine, and the same machine after a sweep. *)
Lemma sessions_stay_apart_witness :
  @apart Sample.externals Sample.busy
  ∧ @apart Sample.externals
      (Sample.after BotManager.garbage_collector Sample.busy).
Proof.
  assert (Hbusy : @apart Sample.externals Sample.busy).
  { unfold apart, Dict.wf. vm_compute. split; [|split].
    - apply (bool_decide_unpack _). vm_compute. exact I.
    - apply (bool_decide_unpack _). vm_compute. exact I.
    - repeat constructor. }
  split; [exact Hbusy|].
  destruct (@sessions_stay_apart Sample.externals "hello" "a" Sample.busy)
    as (_ & Hkeep).
  destruct (Hkeep Hbusy) as (_ & _ & _ & Hsweep). exact Hsweep.
Defined.

(** The name "a b" on the started sample machine. *)
Lemma spaced_name_witness :
  (∃ s', @BotManager._set_bot_in_instance_redis Sample.externals "a b"
           Sample.started = BotManager.Ok () s'
         ∧ @listed Sample.externals s' = ["BOT-a"; "b"])
  ∧ ∃ e s', @BotManager._remove_bot_instance_redis Sample.externals "a b"
              Sample.started = BotManager.Raise e s'.
Proof.
  destruct (@spaced_name_is_never_released Sample.externals "a b" Sample.started)
    as (_ & Hclaim & Hrelease).
  - unfold Text.token, Text.no_space. apply (bool_decide_unpack _).
    vm_compute. exact I.
  - split; [|exact Hrelease].
    destruct Hclaim as (s' & Hrun & Hl & _).
    + unfold obliging. vm_compute. constructor.
    + unfold announced. vm_compute. eexists. reflexivity.
    + refine (ex_intro _ s' (conj Hrun _)). rewrite Hl. vm_compute. reflexivity.
Defined.

(** ** [UpdateInterpreters.get]: failures and what the cache keeps *)

Section InterpretersMore.
Context `{Backend}.
Import UpdateInterpreters.

(** X12.  A retrieval that fails leaves the cache as it was.  When the
    model has to be fetched, because the caller asked for it or because
    the cache has nothing under the name, and the retrieval raises, [get]
    raises after one request; the temporary directory has been made and
    the cache is untouched.  An interpreter that was cached under the name
    is therefore still served to the next caller that accepts the cache. *)
Theorem failed_retrieval_keeps_cache (repository_version repository_authorization : string)
    (use_cache : bool) (s : state) (depth : nat) :
  let update_request :=
    parse_nlu (requests s) repository_version repository_authorization in
  let key := repository_name update_request in
  let s' := State (interpreters s) (S (requests s)) (S (next_directory s))
              (retrieved s ++
                 [(format (field update_request "repository_uuid"),
                   next_directory s)]) in
  use_cache = false ∨ interpreters s !! key = None →
  retrieve_ok (next_directory s) = false →
  get (S depth) repository_version repository_authorization use_cache s = Raised s'
  ∧ ∀ old, interpreters s !! key = Some old →
           repository_name
             (parse_nlu (S (requests s)) repository_version repository_authorization)
           = key →
           ∃ s'', get (S depth) repository_version repository_authorization true s'
                  = Returned old s''
                  ∧ interpreters s'' = interpreters s.
Proof.
  intros update_request key s' Hreload Hfail. split.
  - rewrite get_unfold. cbv zeta. fold update_request. fold key.
    rewrite Hfail. destruct (interpreters s !! key) as [i|] eqn:Hi; [|done].
    destruct Hreload as [->|?]; done.
  - intros old Hold Hsame. rewrite get_unfold. cbv zeta.
    cbn [requests interpreters next_directory retrieved s'].
    rewrite Hsame, Hold. eexists. split; reflexivity.
Qed.



End InterpretersMore.

(** ** [get_rasa_nlu_config_from_update] *)

Section PipelineShape.
Import Config.

(** The names of the pipeline, by the five tests the function makes. *)
Lemma names_by_tests (update : gmap string pyval) :
  names (get_rasa_nlu_config_from_update update) =
    if bool_decide (get update "algorithm" = get update "ALGORITHM_STATISTICAL_MODEL")
    then
      [PyStr SpacyNLP; PyStr SpacyTokenizer; PyStr "RegexFeaturizer";
       PyStr "SpacyFeaturizer"; PyStr "CRFEntityExtractor"]
      ++ (if truthy (get update "use_name_entities")
          then [PyStr "SpacyEntityExtractor"] else [])
      ++ [PyStr CRFLabelAsEntityExtractor; PyStr "SklearnIntentClassifier"]
    else
      [PyStr SpacyNLP; PyStr SpacyTokenizer;
       PyStr (if bool_decide (get update "algorithm"
                              = get update "ALGORITHM_NEURAL_NETWORK_EXTERNAL")
              then "SpacyFeaturizer"
              else if truthy (get update "use_analyze_char")
                   then "CountVectorsFeaturizer"
                   else CountVectorsFeaturizerCustom);
       PyStr "EmbeddingIntentClassifier"; PyStr "CRFEntityExtractor"]
      ++ (if truthy (get update "use_name_entities")
          then [PyStr "SpacyEntityExtractor"] else [])
      ++ [PyStr CRFLabelAsEntityExtractor].
Proof.
  unfold names, get_rasa_nlu_config_from_update. cbv zeta. cbn [pipeline].
  destruct (bool_decide (get update "algorithm"
                         = get update "ALGORITHM_STATISTICAL_MODEL"));
    destruct (bool_decide (get update "algorithm"
                           = get update "ALGORITHM_NEURAL_NETWORK_EXTERNAL"));
    destruct (truthy (get update "use_analyze_char"));
    destruct (truthy (get update "use_competing_intents"));
    destruct (truthy (get update "use_name_entities"));
    reflexivity.
Qed.

(** X14.  The shape of every pipeline.  Whatever the update holds, the
    pipeline starts with the spaCy loader and the tokenizer; it has exactly
    one intent classifier, and a featurizer stands before it and after the
    tokenizer; the CRF entity extractor stands before the label extractor,
    with the spaCy entity extractor between the two exactly when
    [use_name_entities] is truthy, and nowhere otherwise; the classifier is
    the scikit-learn one exactly when [algorithm] equals
    [ALGORITHM_STATISTICAL_MODEL], which is so when both keys are missing;
    the language is the update's. *)
Theorem pipeline_shape (update : gmap string pyval) :
  let config := get_rasa_nlu_config_from_update update in
  let index_of name := position (λ n, bool_decide (n = name)) (names config) in
  let ner := truthy (get update "use_name_entities") in
  language config = get update "language"
  ∧ take 2 (names config) = [PyStr SpacyNLP; PyStr SpacyTokenizer]
  ∧ length (filter (λ n, is_classifier n = true) (names config)) = 1
  ∧ (∃ f c, position is_featurizer (names config) = Some f
            ∧ position is_classifier (names config) = Some c
            ∧ 2 ≤ f < c)
  ∧ (∃ i, index_of (PyStr "CRFEntityExtractor") = Some i
          ∧ index_of (PyStr CRFLabelAsEntityExtractor)
            = Some (if ner then i + 2 else i + 1)
          ∧ index_of (PyStr "SpacyEntityExtractor")
            = if ner then Some (i + 1) else None)
  ∧ (PyStr "SklearnIntentClassifier" ∈ names config
     ↔ get update "algorithm" = get update "ALGORITHM_STATISTICAL_MODEL")
  ∧ (update !! "algorithm" = None → update !! "ALGORITHM_STATISTICAL_MODEL" = None →
     PyStr "SklearnIntentClassifier" ∈ names config).
Proof.
  cbv zeta. rewrite names_by_tests. split; [reflexivity|].
  assert (Hmissing : update !! "algorithm" = None →
                     update !! "ALGORITHM_STATISTICAL_MODEL" = None →
                     get update "algorithm" = get update "ALGORITHM_STATISTICAL_MODEL").
  { unfold get. by intros -> ->. }
  destruct (bool_decide (get update "algorithm"
                         = get update "ALGORITHM_STATISTICAL_MODEL")) eqn:Hstat;
    [apply bool_decide_eq_true in Hstat|apply bool_decide_eq_false in Hstat];
    destruct (bool_decide (get update "algorithm"
                           = get update "ALGORITHM_NEURAL_NETWORK_EXTERNAL"));
    destruct (truthy (get update "use_analyze_char"));
    destruct (truthy (get update "use_name_entities")).
  all: split; [reflexivity|].
  all: split; [reflexivity|].
  all: split; [eexists _, _; split; [reflexivity|split; [reflexivity|lia] ]|].
  all: split; [eexists; split; [reflexivity|split; reflexivity]|].
  all: split;
         [split;
            [intros Hin; try exact Hstat; exfalso; revert Hin;
             apply (bool_decide_unpack _); vm_compute; exact I
            |intros Heq; try (by destruct Hstat);
             apply (bool_decide_unpack _); vm_compute; exact I]|].
  all: intros Ha Hb; try (by destruct Hstat; apply Hmissing).
  all: apply (bool_decide_unpack _); vm_compute; exact I.
Qed.

End PipelineShape.

(** ** [get_examples_request] and [get_examples_label_request] *)

Section PagedFacts.
Import Examples.
Context {A : Type}.
Variable request : string → bool → pyval → string → examples_page A.

Lemma truthy_not_None v : truthy v = true → v ≠ PyNone.
Proof. by intros Hv ->. Qed.

(** The loop over a chain of pages. *)
Lemma more_served update_id auth pages : ∀ fuel page examples requests,
  served request update_id auth page pages →
  length pages ≤ fuel →
  more request fuel update_id auth page (Some examples) requests
  = Returned (Some (examples ++ concat pages.*1)) (requests + length pages).
Proof.
  induction pages as [|[r successor] pages IH]; intros fuel page examples requests;
    [done|].
  cbn [served]. intros [Hpage Hrest] Hfuel.
  destruct fuel as [|fuel]; [simpl in Hfuel; lia|].
  cbn [more]. rewrite Hpage. cbn [results next].
  destruct pages as [|next_page pages].
  - subst successor. simpl. rewrite app_nil_r. f_equal. lia.
  - destruct Hrest as [Hsucc Hserved].
    assert (Hgo : more request fuel update_id auth successor
                    (Some (examples ++ r)) (S requests)
                  = Returned (Some ((examples ++ r) ++ concat (next_page :: pages).*1))
                      (S requests + length (next_page :: pages))).
    { apply IH; [done|]. simpl in Hfuel |- *. lia. }
    rewrite fmap_cons. cbn [concat fst].
    replace (requests + length ((r, successor) :: next_page :: pages))
      with (S requests + length (next_page :: pages)) by (simpl; lia).
    rewrite app_assoc. destruct successor; [done|exact Hgo..].
Qed.

(** The loop when no page it can reach is the last one. *)
Lemma more_endless update_id auth :
  (∀ page, page ≠ PyNone →
     ∃ r successor, request update_id true page auth = ExamplesPage (Some r) successor
                    ∧ successor ≠ PyNone) →
  ∀ fuel page examples requests,
    page ≠ PyNone →
    more request fuel update_id auth page (Some examples) requests = Endless.
Proof.
  intros Hpages. induction fuel as [|fuel IH]; intros page examples requests Hpage;
    [done|].
  destruct (Hpages page Hpage) as (r & successor & Hanswer & Hsucc).
  cbn [more]. rewrite Hanswer. cbn [results next].
  destruct successor; [done|by apply IH..].
Qed.

End PagedFacts.

Section Pagination.
Import Examples.
Context {A : Type} `{ExamplesBackend A}.

(** X15.  The pages are collected in order.  When the first answer names a
    next page and the backend serves a chain of pages from there, each
    naming its successor and the last one naming none, both functions
    return the results of the first answer followed by those of every page
    of the chain, after one request per page, provided the loop is given
    as many rounds as the chain has pages.  An empty text as the address of
    a later page does not end the chain: only [None] does. *)
Theorem pages_are_collected (fuel : nat) (update_id repository_authorization : string)
    (first : list A) (page : pyval) (pages : list (list A * pyval)) :
  truthy page = true →
  length pages ≤ fuel →
  (request_backend_get_examples update_id false PyNone repository_authorization
   = ExamplesPage (Some first) page →
   served request_backend_get_examples update_id repository_authorization page pages →
   get_examples_request fuel update_id repository_authorization
   = Returned (Some (first ++ concat pages.*1)) (1 + length pages))
  ∧ (request_backend_get_examples_labels update_id false PyNone repository_authorization
     = ExamplesPage (Some first) page →
     served request_backend_get_examples_labels update_id repository_authorization
       page pages →
     get_examples_label_request fuel update_id repository_authorization
     = Returned (Some (first ++ concat pages.*1)) (1 + length pages)).
Proof.
  intros Hpage Hfuel.
  split; intros Hstart Hserved;
    unfold get_examples_request, get_examples_label_request, paged;
    rewrite Hstart; cbn [results next]; rewrite Hpage; by apply more_served.
Qed.

(** X16.  The ends of the paging.  When the first answer names no next page
    ([None], or an empty text, or 0), [get_examples_request] returns what
    the answer holds under "results" after that one request, [None]
    included.  When it names one and has no results, or the page it names
    has none, the call raises the [TypeError] of [+=] after the second
    request.  When no page that can be reached is the last one, the call
    does not return, however many rounds the loop is given. *)
Theorem paging_ends (fuel : nat) (update_id repository_authorization : string) :
  let start :=
    request_backend_get_examples update_id false PyNone repository_authorization in
  (truthy (next start) = false →
   get_examples_request fuel update_id repository_authorization
   = Returned (results start) 1)
  ∧ (truthy (next start) = true → results start = None →
     get_examples_request (S fuel) update_id repository_authorization = TypeError 2)
  ∧ (∀ first,
       truthy (next start) = true → results start = Some first →
       results (request_backend_get_examples update_id true (next start)
                  repository_authorization) = None →
       get_examples_request (S fuel) update_id repository_authorization
       = TypeError 2)
  ∧ (∀ first,
       truthy (next start) = true → results start = Some first →
       (∀ page, page ≠ PyNone →
          ∃ r successor,
            request_backend_get_examples update_id true page repository_authorization
            = ExamplesPage (Some r) successor
            ∧ successor ≠ PyNone) →
       get_examples_request fuel update_id repository_authorization = Endless).
Proof.
  cbv zeta. unfold get_examples_request, paged. split; [|split; [|split] ].
  - by intros ->.
  - intros -> ->. cbn [more]. reflexivity.
  - intros first -> -> Hnone. cbn [more]. by rewrite Hnone.
  - intros first Hpage -> Hpages. rewrite Hpage.
    apply more_endless; [done|]. by apply truthy_not_None.
Qed.

End Pagination.

(** ** The log of an evaluation *)

Section LogFacts.
Import Evaluate EvaluateLog.

Lemma collect_nlu_successes_logged l :
  collect_nlu_successes l = logged <$> filter (λ r, target r = prediction r) l.
Proof.
  unfold collect_nlu_successes. apply Forall_fmap_ext, Forall_forall.
  intros r [Heq _]%list_elem_of_filter. unfold logged. by rewrite decide_True.
Qed.

Lemma collect_nlu_errors_logged l :
  collect_nlu_errors l = logged <$> filter (λ r, target r ≠ prediction r) l.
Proof.
  unfold collect_nlu_errors. apply Forall_fmap_ext, Forall_forall.
  intros r [Hne _]%list_elem_of_filter. unfold logged. by rewrite decide_False.
Qed.

Lemma filter_split_Permutation {A} (P : A → Prop) `{∀ x, Decision (P x)} (l : list A) :
  filter (λ x, ¬ P x) l ++ filter P l ≡ₚ l.
Proof.
  induction l as [|x l IH]; [done|].
  rewrite !filter_cons. destruct (decide (P x)) as [HP|HP].
  - rewrite decide_False by tauto.
    rewrite <- Permutation_middle. by constructor.
  - rewrite decide_True by done. simpl. by constructor.
Qed.

(** What the collectors hold. *)
Lemma collectors_items l :
  collect_nlu_errors l ++ collect_nlu_successes l ≡ₚ logged <$> l
  ∧ (∀ item, item ∈ collect_nlu_successes l →
             status item = "success" ∧ intent item = intent_prediction_name item)
  ∧ (∀ item, item ∈ collect_nlu_errors l →
             status item = "error" ∧ intent item ≠ intent_prediction_name item).
Proof.
  split; [|split].
  - rewrite collect_nlu_errors_logged, collect_nlu_successes_logged.
    rewrite <- fmap_app. apply fmap_Permutation.
    apply (filter_split_Permutation (λ r, target r = prediction r)).
  - intros item (r & -> & [Heq _]%list_elem_of_filter)%list_elem_of_fmap.
    by split.
  - intros item (r & -> & [Hne _]%list_elem_of_filter)%list_elem_of_fmap.
    by split.
Qed.

(** X17.  The two collectors split the results.  The errors followed by the
    successes are the results in another order: every result is logged
    once, as a success when its target equals its prediction and as an
    error otherwise, each list keeping the order of the results.  A result
    that has neither target nor prediction is a success. *)
Theorem collectors_split_results (intent_results : list IntentEvaluationResult) :
  collect_nlu_errors intent_results ++ collect_nlu_successes intent_results
    ≡ₚ logged <$> intent_results
  ∧ length (collect_nlu_errors intent_results)
    + length (collect_nlu_successes intent_results) = length intent_results
  ∧ (∀ item, item ∈ collect_nlu_successes intent_results →
             status item = "success" ∧ intent item = intent_prediction_name item)
  ∧ (∀ item, item ∈ collect_nlu_errors intent_results →
             status item = "error" ∧ intent item ≠ intent_prediction_name item)
  ∧ (∀ r, r ∈ intent_results → target r = None → prediction r = None →
          LogItem (message r) None None (confidence r) "success"
          ∈ collect_nlu_successes intent_results).
Proof.
  destruct (collectors_items intent_results) as (Hperm & Hsucc & Herr).
  split; [exact Hperm|]. split; [|split; [exact Hsucc|split; [exact Herr|] ] ].
  - rewrite <- length_app, Hperm. apply length_fmap.
  - intros r Hin Ht Hp. apply list_elem_of_fmap. exists r.
    rewrite Ht, Hp. split; [done|]. apply list_elem_of_filter.
    split; [congruence|done].
Qed.

End LogFacts.

Section EvaluationFacts.
Import Evaluate EvaluateLog.
Context `{Metrics}.

(** The results [evaluate_intents] works on. *)
Lemma kept_results l :
  remove_empty_intent_examples l =
    (λ r, Result (target r) (Some (default "no predicted" (prediction r)))
            (message r) (confidence r))
    <$> filter (λ r, target r ≠ None ∧ target r ≠ Some "") l.
Proof. unfold remove_empty_intent_examples. by rewrite remove_empty_fold. Qed.

(** X18.  What an evaluation reports.  When [evaluate_intents] returns, its
    predictions are the results that have a target other than [None] and
    the empty text, in their order, a missing prediction being reported as
    "no predicted"; the log has one item for each of them, the errors
    before the successes; every item of the log has an intent and a
    predicted name, and is a success exactly when the two are equal, so a
    result without prediction is logged as an error unless its intent is
    itself "no predicted". *)
Theorem evaluation_reports_kept_results (intent_results : list IntentEvaluationResult)
    (e : intent_evaluation) :
  evaluate_intents intent_results = Some e →
  let kept :=
    filter (λ r, target r ≠ None ∧ target r ≠ Some "") intent_results in
  predictions e
  = (λ r, PredictionItem (message r) (target r)
            (Some (default "no predicted" (prediction r))) (confidence r))
    <$> kept
  ∧ log e = collect_nlu_errors (remove_empty_intent_examples intent_results)
            ++ collect_nlu_successes (remove_empty_intent_examples intent_results)
  ∧ length (log e) = length kept
  ∧ (∀ item, item ∈ log e →
       ∃ t p, intent item = Some t ∧ t ≠ ""
              ∧ intent_prediction_name item = Some p
              ∧ (status item = "success" ↔ t = p))
  ∧ (∀ r, r ∈ kept → prediction r = None → target r ≠ Some "no predicted" →
          LogItem (message r) (target r) (Some "no predicted") (confidence r) "error"
          ∈ log e).
Proof.
  unfold evaluate_intents. cbv zeta.
  destruct (_targets_predictions_from (remove_empty_intent_examples intent_results))
    as [[targets preds]|]; [|done].
  cbn [mbind option_bind].
  destruct (get_evaluation_metrics targets preds) as [[[rep prec] f1] acc].
  intros [= <-]. cbn [predictions log].
  destruct (collectors_items (remove_empty_intent_examples intent_results))
    as (Hperm & Hsucc & Herr).
  split; [|split; [reflexivity|split; [|split] ] ].
  - rewrite kept_results, <- list_fmap_compose. reflexivity.
  - rewrite Hperm, length_fmap, kept_results. apply length_fmap.
  - intros item Hitem.
    assert (Hshape : ∃ r, r ∈ remove_empty_intent_examples intent_results
                          ∧ intent item = target r
                          ∧ intent_prediction_name item = prediction r).
    { apply elem_of_app in Hitem as [Hitem|Hitem];
        apply list_elem_of_fmap in Hitem as (r & -> & [_ Hr]%list_elem_of_filter);
        by exists r. }
    destruct Hshape as (r & Hr & Hi & Hn).
    rewrite kept_results in Hr.
    apply list_elem_of_fmap in Hr as (r0 & -> & [[Hsome Hfull] _]%list_elem_of_filter).
    cbn [target prediction] in Hi, Hn.
    destruct (target r0) as [t|] eqn:Ht; [|done].
    exists t, (default "no predicted" (prediction r0)).
    split; [done|]. split; [congruence|]. split; [done|].
    apply elem_of_app in Hitem as [Hitem|Hitem].
    + destruct (Herr item Hitem) as [Hst Hne]. rewrite Hst, Hi, Hn in *.
      split; [done|]. intros ->. done.
    + destruct (Hsucc item Hitem) as [Hst Heq]. rewrite Hst. rewrite Hi, Hn in Heq.
      split; [|done]. intros _. congruence.
  - intros r Hr Hp Ht. apply elem_of_app. left.
    apply list_elem_of_fmap.
    exists (Result (target r) (Some "no predicted") (message r) (confidence r)).
    split; [done|]. apply list_elem_of_filter. cbn [target prediction]. split.
    + intros Heq. apply Ht. exact Heq.
    + rewrite kept_results. apply list_elem_of_fmap. exists r.
      by rewrite Hp.
Qed.

End EvaluationFacts.

(** ** The helpers on sample backends *)

(** The storage does not deliver: nothing is cached. *)
Lemma failed_retrieval_witness :
  @UpdateInterpreters.get Worlds.offline 1 "v1" "auth" true Sample.no_interpreters
  = UpdateInterpreters.Raised (UpdateInterpreters.State ∅ 1 1 [("r-1", 0)]).
Proof.
  destruct (@failed_retrieval_keeps_cache Worlds.offline "v1" "auth" true
              Sample.no_interpreters 0) as [Hrun _].
  - right. vm_compute. reflexivity.
  - reflexivity.
  - rewrite Hrun. vm_compute. reflexivity.
Defined.

(** No update has the classifier chosen for it by its keys. *)
Lemma pipeline_shape_witness :
  PyStr "SklearnIntentClassifier"
  ∈ Config.names (Config.get_rasa_nlu_config_from_update ∅).
Proof.
  destruct (pipeline_shape ∅) as (_ & _ & _ & _ & _ & _ & Hmissing).
  apply Hmissing; reflexivity.
Defined.

(** The three pages of the sample backend. *)
Lemma pages_are_collected_witness :
  @Examples.get_examples_request string Worlds.library 2 "update" "auth"
  = Examples.Returned (Some ["e1"; "e2"; "e3"; "e4"]) 3.
Proof.
  destruct (@pages_are_collected string Worlds.library 2 "update" "auth"
              ["e1"] (PyStr "page-2")
              [(["e2"; "e3"], PyStr ""); (["e4"], PyNone)]) as [Hrun _].
  - reflexivity.
  - simpl. lia.
  - rewrite Hrun; [reflexivity|reflexivity|].
    split; [reflexivity|]. split; [discriminate|]. split; reflexivity.
Defined.

(** The three sample results. *)
Lemma evaluation_witness :
  ∃ e, @EvaluateLog.evaluate_intents Worlds.metrics Worlds.three_results = Some e
       ∧ length (EvaluateLog.log e) = 2.
Proof.
  assert (Hrun : ∃ e, @EvaluateLog.evaluate_intents Worlds.metrics
                        Worlds.three_results = Some e).
  { eexists. vm_compute. reflexivity. }
  destruct Hrun as [e Hrun]. exists e. split; [exact Hrun|].
  destruct (@evaluation_reports_kept_results Worlds.metrics _ e Hrun)
    as (_ & _ & Hlen & _).
  rewrite Hlen. vm_compute. reflexivity.
Defined.

(** ** The memory report *)

Section UsageReport.
Context `{Externals}.
Import BotManager.
Local Open Scope py_scope.
Local Arguments redis_set : simpl never.

(** The end of [_set_usage_memory]: the write of the list [l]. *)
Lemma usage_write_cases l s0 :
  let finish :=
    bind (redis_set available_key (Text.join " " l) None)
      (λ stored, if stored then print "Setted servers availables"
                 else raise (ValueError "Error on set servers availables")) in
  (∃ s', finish s0 = Ok () s'
         ∧ redis s' = <[available_key := RedisEntry (Text.join " " l) None]> (redis s0))
  ∨ (∃ s', finish s0 = Raise (ValueError "Error on set servers availables") s'
           ∧ redis s' = redis s0
           ∧ ∃ rest, set_replies s0 = false :: rest).
Proof.
  cbv zeta. destruct (set_replies s0) as [|[] rest] eqn:Hs.
  3:{ right. erewrite bind_run; [|by apply (redis_set_refused _ _ _ _ rest)].
      unfold raise. eexists. split; [reflexivity|]. split; [reflexivity|eauto]. }
  all: left; erewrite bind_run;
         [|apply redis_set_stored; unfold accepts; rewrite Hs; by repeat constructor].
  all: unfold print, emit, modify; eexists; split; reflexivity.
Qed.

(** The list [_set_usage_memory] writes. *)
Lemma usage_memory_unfold s :
  ∃ l, _set_usage_memory s
       = bind (redis_set available_key (Text.join " " l) None)
           (λ stored, if stored then print "Setted servers availables"
                      else raise (ValueError "Error on set servers availables"))
           (with_log (log s ++ [RedisGet available_key]) s)
       ∧ l = updated (instance_ip s) (Qle_bool (memory_percent s) 80) (available s).
Proof.
  unfold _set_usage_memory. mrun.
  assert (Hold : match value <$> redis s !! available_key with
                 | Some text => Text.split text
                 | None => []
                 end = available s).
  { unfold available. by destruct (redis s !! available_key). }
  rewrite Hold. unfold updated.
  destruct (Qle_bool (memory_percent s) 80).
  - destruct (Text.contains (instance_ip s) (available s)); cbn [negb]; mrun;
      eexists; split; reflexivity.
  - destruct (Text.contains (instance_ip s) (available s)) eqn:Hin; mrun.
    + apply contains_true, remove_Some in Hin as [l Hl]. rewrite Hl. mrun.
      eexists; split; reflexivity.
    + rewrite remove_None; [|by intros Hin'%contains_true; congruence].
      eexists; split; reflexivity.
Qed.

(** X19.  The memory report and its only error.  [_set_usage_memory] never
    waits, and the one error it can raise is the [ValueError] of a refused
    write, which leaves Redis as it was: a missing list is read as the
    empty list, and [remove] is only called on a list that holds the
    address.  When the list is missing and Redis stores the new one, the
    list becomes the address alone at up to 80 % of memory, and the empty
    list above. *)
Theorem usage_report_edges (s : state) :
  match _set_usage_memory s with
  | Ok _ _ => True
  | Raise e s' => e = ValueError "Error on set servers availables"
                  ∧ redis s' = redis s
                  ∧ ∃ rest, set_replies s = false :: rest
  | Parked _ => False
  end
  ∧ (redis s !! available_key = None → accepts 1 s → Text.token (instance_ip s) →
     ∃ s', _set_usage_memory s = Ok () s'
           ∧ available s'
             = if Qle_bool (memory_percent s) 80 then [instance_ip s] else []).
Proof.
  destruct (usage_memory_unfold s) as (l & -> & Hl).
  destruct (usage_write_cases l (with_log (log s ++ [RedisGet available_key]) s))
    as [(s' & Hrun & Hredis)|(s' & Hrun & Hredis & rest & Hs)].
  - cbv zeta in Hrun. rewrite Hrun. split; [done|].
    intros Hnone _ Htok. exists s'. split; [done|].
    unfold available at 1. rewrite Hredis. sproj. rewrite lookup_insert_eq.
    cbn [value]. subst l. unfold available. rewrite Hnone. unfold updated.
    destruct (Qle_bool (memory_percent s) 80); [|done].
    change (Text.contains (instance_ip s) []) with false. cbn [app Text.join].
    by apply split_token.
  - cbv zeta in Hrun. rewrite Hrun. split; [by eauto|].
    intros _ Hacc%accepts_head _. sproj in Hs. rewrite Hs in Hacc. done.
Qed.

End UsageReport.

(** The report of the cold sample machine, before any announcement. *)
Lemma usage_report_witness :
  ∃ s', @BotManager._set_usage_memory Sample.externals
          (BotManager.with_instance_ip "10.0.0.1" Sample.cold) = BotManager.Ok () s'
        ∧ @available Sample.externals s' = ["10.0.0.1"].
Proof.
  destruct (@usage_report_edges Sample.externals
              (BotManager.with_instance_ip "10.0.0.1" Sample.cold)) as [_ Hmissing].
  destruct Hmissing as (s' & Hrun & Hl).
  - vm_compute. reflexivity.
  - unfold accepts. vm_compute. constructor.
  - split; [discriminate|]. unfold Text.no_space. vm_compute. repeat constructor.
  - refine (ex_intro _ s' (conj Hrun _)). rewrite Hl. vm_compute. reflexivity.
Defined.

(** ** [PokeLogging] *)

Section Poke.
Import PokeLogging.
Context `{Contextvars}.

Lemma quiet_refl s : quiet s s.
Proof. by repeat split. Qed.

Lemma quiet_trans s1 s2 s3 : quiet s1 s2 → quiet s2 s3 → quiet s1 s3.
Proof. unfold quiet. intros ? ?. destruct_and!. repeat split; congruence. Qed.

(** With the keyword taken, a handler whose [PokeLogging] has its [cxt]
    returns, and writes to its own stream at most. *)
Lemma emit_returns h line s :
  get_takes_keyword = true → is_Some (cxt_of s !! pl h) →
  ∃ s', emit h line s = Done s' ∧ quiet s s'
        ∧ ∀ st, h_stream h ≠ st → streams s' !! st = streams s !! st.
Proof.
  intros Hkw [cxt Hcxt]. unfold emit. rewrite Hcxt, Hkw.
  destruct (bool_decide _).
  - eexists. split; [reflexivity|]. split; [by repeat split|].
    intros st Hne. cbn [streams]. by rewrite lookup_alter_ne.
  - exists s. split; [done|]. split; [apply quiet_refl|done].
Qed.

Lemma emit_own h line s cxt lines :
  get_takes_keyword = true →
  cxt_of s !! pl h = Some cxt → context s !! cxt = Some (pl h) →
  streams s !! h_stream h = Some lines →
  ∃ s', emit h line s = Done s' ∧ quiet s s'
        ∧ streams s' !! h_stream h = Some (lines ++ [line]).
Proof.
  intros Hkw Hcxt Hval Hlines. unfold emit. rewrite Hcxt, Hkw.
  rewrite bool_decide_eq_true_2 by done.
  eexists. split; [reflexivity|]. split; [by repeat split|].
  cbn [streams]. by rewrite lookup_alter_eq, Hlines.
Qed.

(** With the keyword refused, the handler raises before it writes. *)
Lemma emit_refused h line s :
  get_takes_keyword = false → is_Some (cxt_of s !! pl h) →
  emit h line s = Raised TypeError s.
Proof. intros Hkw [cxt Hcxt]. unfold emit. by rewrite Hcxt, Hkw. Qed.

Lemma callHandlers_app levelno line hs hs' : ∀ s,
  callHandlers levelno line (hs ++ hs') s =
    match callHandlers levelno line hs s with
    | Done s1 => callHandlers levelno line hs' s1
    | Raised e s1 => Raised e s1
    end.
Proof.
  induction hs as [|hd hs IH]; intros s; [done|].
  cbn [app callHandlers]. destruct (handler_of s !! hd) as [h|]; [|apply IH].
  destruct (h_level h <=? levelno)%Z; [|apply IH].
  destruct (emit h line s); [apply IH|done].
Qed.

(** The handlers [hs], none of which writes to [st], leave [st] alone. *)
Lemma handlers_other levelno line st hs : ∀ s,
  get_takes_keyword = true →
  (∀ hdlr h, hdlr ∈ hs → handler_of s !! hdlr = Some h →
             h_stream h ≠ st ∧ is_Some (cxt_of s !! pl h)) →
  ∃ s', callHandlers levelno line hs s = Done s' ∧ quiet s s'
        ∧ streams s' !! st = streams s !! st.
Proof.
  intros s Hkw. revert s.
  induction hs as [|hd hs IH]; intros s Hother.
  { exists s. split; [done|]. split; [apply quiet_refl|done]. }
  cbn [callHandlers].
  assert (Hrest : ∀ s1, quiet s s1 → streams s1 !! st = streams s !! st →
            ∃ s', callHandlers levelno line hs s1 = Done s' ∧ quiet s s'
                  ∧ streams s' !! st = streams s !! st).
  { intros s1 Hq1 Hst1. destruct (IH s1) as (s' & Hrun & Hq & Hst).
    - intros hdlr h Hin Hh. pose proof Hq1 as (_ & _ & _ & Eo & Ec & _).
      rewrite Eo in Hh. rewrite Ec. apply (Hother hdlr h); [by right|done].
    - exists s'. split; [done|]. split; [by eapply quiet_trans|]. by rewrite Hst. }
  destruct (handler_of s !! hd) as [h|] eqn:Hh; [|by apply Hrest; [apply quiet_refl|] ].
  destruct (h_level h <=? levelno)%Z; [|by apply Hrest; [apply quiet_refl|] ].
  destruct (Hother hd h) as [Hne Hcxt]; [by left|done|].
  destruct (emit_returns h line s Hkw Hcxt) as (s1 & -> & Hq1 & Hst1).
  apply Hrest; [done|]. by apply Hst1.
Qed.

(** A record on a logger whose last handler writes to [st], and is the
    only one that does. *)
Lemma log_last levelno line st hs hnew self cxt lvl lines s :
  get_takes_keyword = true →
  handlers s = hs ++ [hnew] →
  (level s ≤ levelno)%Z → (lvl ≤ levelno)%Z →
  handler_of s !! hnew = Some (Handler self st lvl) →
  cxt_of s !! self = Some cxt → context s !! cxt = Some self →
  (∀ hdlr h, hdlr ∈ hs → handler_of s !! hdlr = Some h →
             h_stream h ≠ st ∧ is_Some (cxt_of s !! pl h)) →
  streams s !! st = Some lines →
  ∃ s', log levelno line s = Done s' ∧ quiet s s'
        ∧ streams s' !! st = Some (lines ++ [line]).
Proof.
  intros Hkw Hhs Hlevel Hlvl Hnew Hcxt Hval Hother Hlines. unfold log.
  destruct (Z.ltb_spec levelno (level s)) as [?|_]; [lia|].
  rewrite Hhs, callHandlers_app.
  destruct (handlers_other levelno line st hs s Hkw Hother) as (s1 & -> & Hq & Hst).
  pose proof Hq as (_ & _ & _ & Hho & Hco & Hctx & _).
  cbn [callHandlers]. rewrite Hho, Hnew. cbn [h_level].
  destruct (Z.leb_spec lvl levelno) as [_|?]; [|lia].
  destruct (emit_own (Handler self st lvl) line s1 cxt lines Hkw)
    as (s2 & -> & Hq2 & Hst2); cbn [pl h_stream].
  - by rewrite Hco.
  - by rewrite Hctx.
  - by rewrite Hst.
  - exists s2. split; [done|]. split; [by eapply quiet_trans|done].
Qed.

(** With the keyword refused, the handlers change nothing, and the first
    one the record reaches raises. *)
Lemma handlers_refused levelno line hs s :
  get_takes_keyword = false →
  (∀ hdlr h, hdlr ∈ hs → handler_of s !! hdlr = Some h →
             is_Some (cxt_of s !! pl h)) →
  callHandlers levelno line hs s = Done s
  ∨ callHandlers levelno line hs s = Raised TypeError s.
Proof.
  intros Hkw. induction hs as [|hd hs IH]; intros Hcxt; [by left|].
  cbn [callHandlers].
  assert (Hrest : callHandlers levelno line hs s = Done s
                  ∨ callHandlers levelno line hs s = Raised TypeError s).
  { apply IH. intros hdlr h Hin. apply Hcxt. by right. }
  destruct (handler_of s !! hd) as [h|] eqn:Hh; [|done].
  destruct (h_level h <=? levelno)%Z; [|done].
  rewrite emit_refused; [by right|done|]. apply (Hcxt hd); [by left|done].
Qed.

Lemma log_refused levelno line hs hnew h s :
  get_takes_keyword = false →
  handlers s = hs ++ [hnew] →
  (level s ≤ levelno)%Z → (h_level h ≤ levelno)%Z →
  handler_of s !! hnew = Some h →
  (∀ hdlr h, hdlr ∈ handlers s → handler_of s !! hdlr = Some h →
             is_Some (cxt_of s !! pl h)) →
  log levelno line s = Raised TypeError s.
Proof.
  intros Hkw Hhs Hlevel Hlvl Hnew Hcxt. unfold log.
  destruct (Z.ltb_spec levelno (level s)) as [?|_]; [lia|].
  rewrite Hhs, callHandlers_app.
  destruct (handlers_refused levelno line hs s Hkw) as [-> | ->]; [|  |done].
  { intros hdlr h' Hin. apply Hcxt. rewrite Hhs. apply elem_of_app. by left. }
  cbn [callHandlers]. rewrite Hnew.
  destruct (Z.leb_spec (h_level h) levelno) as [_|?]; [|lia].
  rewrite emit_refused; [done..|]. apply (Hcxt hnew); [|done].
  rewrite Hhs. apply elem_of_app. right. by left.
Qed.

Lemma removeHandler_absent hdlr l : hdlr ∉ l → removeHandler hdlr l = l.
Proof.
  induction l as [|h l IH]; [done|].
  rewrite not_elem_of_cons. intros [Hne Hl]. cbn [removeHandler].
  rewrite bool_decide_eq_false_2 by done. by rewrite IH.
Qed.

(** [__exit__] takes nothing off a logger whose handlers are handlers. *)
Lemma exit_keeps_handlers self s :
  Forall (λ hdlr, 0 < hdlr < next_id s) (handlers s) → __exit__ self s = s.
Proof.
  intros Hs. unfold __exit__. rewrite removeHandler_absent; [by destruct s|].
  intros Hin. rewrite Forall_forall in Hs. specialize (Hs _ Hin).
  unfold getLogger in Hs. lia.
Qed.

Lemma sound_quiet s s' : sound s → quiet s s' → sound s'.
Proof.
  intros (Hh & Ho & Hc & Hn) (Eh & _ & _ & Eo & Ec & _ & En).
  unfold sound. by rewrite Eh, Eo, Ec, En.
Qed.

Lemma enter_sound loggingLevel s :
  sound s →
  let s0 := State (handlers s) (level s) (capture s) (handler_of s) (cxt_of s)
              (context s) (streams s) (S (next_id s)) in
  let s1 := (__enter__ (next_id s) loggingLevel s0).2 in
  sound s1 ∧ handlers s1 = handlers s ++ [3 + next_id s].
Proof.
  intros (Hh & Ho & Hc & Hn). cbv zeta. unfold __enter__. cbn [snd next_id handlers].
  assert (Hnew : 3 + next_id s ∉ handlers s).
  { intros Hin. rewrite Forall_forall in Hh. specialize (Hh _ Hin). lia. }
  unfold addHandler. change (S (S (S (next_id s)))) with (3 + next_id s).
  rewrite bool_decide_eq_false_2 by done. split; [|done].
  unfold sound. cbn [handlers handler_of cxt_of next_id].
  split; [|split; [|split] ].
  - apply Forall_app. split.
    + eapply Forall_impl; [exact Hh|]. simpl. lia.
    + apply Forall_singleton. lia.
  - intros hdlr h. destruct (decide (hdlr = 3 + next_id s)) as [->|Hne].
    + rewrite lookup_insert_eq. intros [= <-]. cbn [h_stream pl].
      rewrite lookup_insert_eq. split; [lia|]. split; [lia|]. split; [lia|eauto].
    + rewrite lookup_insert_ne by done. intros Hh'.
      destruct (Ho _ _ Hh') as (? & ? & ? & Hcxt).
      split; [lia|]. split; [lia|]. split; [lia|].
      destruct (decide (pl h = next_id s)) as [->|Hpl].
      * rewrite lookup_insert_eq. eauto.
      * by rewrite lookup_insert_ne.
  - intros self cxt. destruct (decide (self = next_id s)) as [->|Hne].
    + rewrite lookup_insert_eq. intros [= <-]. lia.
    + rewrite lookup_insert_ne by done. intros Hc'. specialize (Hc _ _ Hc'). lia.
  - lia.
Qed.

Lemma idle_use_sound loggingLevel s :
  sound s →
  sound (idle_use loggingLevel s)
  ∧ handlers (idle_use loggingLevel s) = handlers s ++ [3 + next_id s].
Proof.
  intros Hs. destruct (enter_sound loggingLevel s Hs) as [Hs1 Hh1].
  cbv zeta in Hs1, Hh1. unfold idle_use, with_PokeLogging.
  destruct (__enter__ _ _ _) as [stream s1] eqn:Henter. cbn [snd final] in *.
  rewrite exit_keeps_handlers; [done|]. by destruct Hs1.
Qed.

Lemma idle_uses_accumulate loggingLevel n : ∀ s,
  sound s →
  sound (Nat.iter n (idle_use loggingLevel) s)
  ∧ length (handlers (Nat.iter n (idle_use loggingLevel) s))
    = length (handlers s) + n.
Proof.
  induction n as [|n IH]; intros s Hs; [split; [done|simpl; lia] |].
  destruct (IH s Hs) as [Hsn Hlen].
  change (Nat.iter (S n) (idle_use loggingLevel) s)
    with (idle_use loggingLevel (Nat.iter n (idle_use loggingLevel) s)).
  destruct (idle_use_sound loggingLevel _ Hsn) as [Hs' Hh'].
  split; [done|]. rewrite Hh', length_app, Hlen. simpl. lia.
Qed.

(** X20.  [PokeLogging] does not take its handler back.  [__exit__] asks
    the root logger to remove the logger itself, which is none of its
    handlers, so nothing is removed: after the [with] block, however the
    block ended, the handler of the block is still the last handler of the
    root logger and the level the block set is still the level of the
    logger; [n] uses leave [n] handlers more.  What the handler does with a
    record depends on the module [contextvars].  Where [get] takes the
    keyword [default], the record of the block is written to the stream,
    and a record logged after the block, in the same context, is written
    after it.  Where [get] refuses the keyword, as the class of the
    standard library does, the record of the block raises [TypeError] out
    of the block with nothing written, and so does every later record that
    reaches the handler. *)
Theorem poke_logging_keeps_its_handler (loggingLevel levelno : Z)
    (inside later : string) (n : nat) (s : state) :
  sound s → (loggingLevel ≤ levelno)%Z →
  let used := with_PokeLogging loggingLevel (λ _, log levelno inside) s in
  let stream := used.1 in
  let s' := final used.2 in
  handlers s' = handlers s ++ [3 + next_id s]
  ∧ level s' = loggingLevel
  ∧ sound s'
  ∧ length (handlers (Nat.iter n (idle_use loggingLevel) s))
    = length (handlers s) + n
  ∧ (get_takes_keyword = true →
     used.2 = Done s'
     ∧ streams s' !! stream = Some [inside]
     ∧ ∃ s'', log levelno later s' = Done s''
              ∧ streams s'' !! stream = Some [inside; later])
  ∧ (get_takes_keyword = false →
     used.2 = Raised TypeError s'
     ∧ streams s' !! stream = Some []
     ∧ log levelno later s' = Raised TypeError s').
Proof.
  intros Hs Hlevel. cbv zeta.
  destruct (enter_sound loggingLevel s Hs) as [Hs1 Hh1].
  cbv zeta in Hs1, Hh1. unfold with_PokeLogging.
  destruct (__enter__ _ _ _) as [stream s1] eqn:Henter. cbn [fst snd] in *.
  assert (Hshape : stream = 2 + next_id s
            ∧ level s1 = loggingLevel
            ∧ handler_of s1 !! (3 + next_id s)
              = Some (Handler (next_id s) (2 + next_id s) loggingLevel)
            ∧ cxt_of s1 !! next_id s = Some (1 + next_id s)
            ∧ context s1 !! (1 + next_id s) = Some (next_id s)
            ∧ streams s1 !! (2 + next_id s) = Some []
            ∧ ∀ hdlr h, hdlr ∈ handlers s →
                        handler_of s1 !! hdlr = Some h →
                        h_stream h ≠ 2 + next_id s).
  { unfold __enter__ in Henter. injection Henter as <- <-.
    cbn [level handler_of cxt_of context streams next_id].
    rewrite !lookup_insert_eq. repeat split.
    intros hdlr h Hin. destruct Hs as (Hh & Ho & _).
    rewrite Forall_forall in Hh. specialize (Hh _ Hin).
    rewrite lookup_insert_ne by (simpl; lia).
    intros Hh'. destruct (Ho _ _ Hh') as (_ & ? & _). simpl. lia. }
  destruct Hshape as (-> & Hlvl & Hnew & Hcxt & Hval & Hempty & Hother).
  pose proof Hs1 as (Hh1' & Ho1 & _).
  assert (Hcxts : ∀ hdlr h, handler_of s1 !! hdlr = Some h →
                            is_Some (cxt_of s1 !! pl h)).
  { intros hdlr h Hh. by destruct (Ho1 _ _ Hh) as (_ & _ & _ & ?). }
  assert (Hend : ∃ s2, final (log levelno inside s1) = s2 ∧ quiet s1 s2
            ∧ (get_takes_keyword = true →
               log levelno inside s1 = Done s2
               ∧ streams s2 !! (2 + next_id s) = Some [inside])
            ∧ (get_takes_keyword = false →
               log levelno inside s1 = Raised TypeError s2 ∧ s2 = s1)).
  { destruct get_takes_keyword eqn:Hkw.
    - destruct (log_last levelno inside (2 + next_id s) (handlers s)
                  (3 + next_id s) (next_id s) (1 + next_id s) loggingLevel [] s1)
        as (s2 & Hrun & Hq2 & Hst2); [done|done|lia|lia|done|done|done| |done|].
      { intros hdlr h Hin Hh. split; [by eapply Hother|by eapply Hcxts]. }
      exists s2. rewrite Hrun. split; [done|]. split; [done|]. by split.
    - exists s1.
      rewrite (log_refused levelno inside (handlers s) (3 + next_id s)
                 (Handler (next_id s) (2 + next_id s) loggingLevel) s1);
        [|done|done|lia|cbn [h_level]; lia|done|].
      + split; [done|]. split; [apply quiet_refl|]. by split.
      + intros hdlr h _ Hh. by eapply Hcxts. }
  destruct Hend as (s2 & Hfinal & Hq2 & Htaken & Hrefused).
  assert (Hs2 : sound s2) by (by eapply sound_quiet).
  pose proof Hq2 as (Eh & El & _ & Eo & Ec & Ex & _).
  assert (Hlater : get_takes_keyword = true →
            streams s2 !! (2 + next_id s) = Some [inside] →
            ∃ s'', log levelno later s2 = Done s''
                   ∧ streams s'' !! (2 + next_id s) = Some [inside; later]).
  { intros Hkw Hst2.
    destruct (log_last levelno later (2 + next_id s) (handlers s)
                (3 + next_id s) (next_id s) (1 + next_id s) loggingLevel [inside] s2)
      as (s3 & Hrun3 & _ & Hst3); [done|by rewrite Eh|rewrite El; lia|lia
                                   |by rewrite Eo|by rewrite Ec|by rewrite Ex| |done|].
    { intros hdlr h Hin. rewrite Eo, Ec. intros Hh.
      split; [by eapply Hother|by eapply Hcxts]. }
    by exists s3. }
  assert (Hagain : get_takes_keyword = false → s2 = s1 →
            log levelno later s2 = Raised TypeError s2).
  { intros Hkw ->.
    apply (log_refused levelno later (handlers s) (3 + next_id s)
             (Handler (next_id s) (2 + next_id s) loggingLevel) s1);
      [done|done|lia|cbn [h_level]; lia|done|].
    intros hdlr h _ Hh. by eapply Hcxts. }
  destruct (log levelno inside s1) as [s3|e s3]; cbn [final] in Hfinal |- *;
    subst s3; rewrite exit_keeps_handlers by (by destruct Hs2).
  all: split; [by rewrite Eh|]; split; [by rewrite El|]; split; [done|].
  all: split; [by apply idle_uses_accumulate|]; split.
  - intros Hkw. destruct (Htaken Hkw) as [_ Hst2]. by auto.
  - intros Hkw. by destruct (Hrefused Hkw).
  - intros Hkw. by destruct (Htaken Hkw).
  - intros Hkw. destruct (Hrefused Hkw) as [[= ->] Heq].
    split; [done|]. split; [by rewrite Heq|by auto].
Qed.

End Poke.

(** A first use of [PokeLogging] at level 10, with a record at level 20
    inside the block and one after it: on the backport both records are
    in the stream; on the standard library the block raises. *)
Lemma poke_logging_witness :
  (∃ s', PokeLogging.log (H:=PokeLogging.backport) 20 "after"
           (PokeLogging.final
              (PokeLogging.with_PokeLogging 10
                 (λ _, PokeLogging.log (H:=PokeLogging.backport) 20 "inside")
                 PokeLogging.fresh).2)
         = PokeLogging.Done s'
         ∧ PokeLogging.streams s' !! 3 = Some ["inside"; "after"])
  ∧ ∃ s', (PokeLogging.with_PokeLogging 10
             (λ _, PokeLogging.log (H:=PokeLogging.standard_library) 20 "inside")
             PokeLogging.fresh).2
          = PokeLogging.Raised PokeLogging.TypeError s'
          ∧ PokeLogging.handlers s' = [4].
Proof.
  assert (Hfresh : PokeLogging.sound PokeLogging.fresh).
  { split; [constructor|]. split; [|split; [|simpl; lia] ].
    - intros hdlr h Hh. unfold PokeLogging.fresh in Hh.
      cbn [PokeLogging.handler_of] in Hh. by rewrite lookup_empty in Hh.
    - intros self cxt Hc. unfold PokeLogging.fresh in Hc.
      cbn [PokeLogging.cxt_of] in Hc. by rewrite lookup_empty in Hc. }
  split.
  - pose proof (@poke_logging_keeps_its_handler PokeLogging.backport 10 20
                  "inside" "after" 0 PokeLogging.fresh Hfresh)
      as (_ & _ & _ & _ & Htaken & _); [lia|].
    destruct (Htaken eq_refl) as (_ & _ & s'' & Hrun & Hst).
    exists s''. split; [exact Hrun|exact Hst].
  - pose proof (@poke_logging_keeps_its_handler PokeLogging.standard_library 10 20
                  "inside" "after" 0 PokeLogging.fresh Hfresh)
      as (Hh & _ & _ & _ & _ & Hrefused); [lia|].
    destruct (Hrefused eq_refl) as (Hrun & _).
    eexists. split; [exact Hrun|exact Hh].
Defined.

(** ** The evaluation of an update *)

Section EvaluateUpdateFacts.
Import Evaluate EvaluateLog EvaluateUpdate.
Context `{Rasa} `{Backend}.

(** With an extractor to score, [evaluate_entities] returns scores. *)
Lemma evaluate_entities_scores targets predictions tokens extractors :
  extractors ≠ [] →
  is_Some (evaluate_entities targets predictions tokens extractors).
Proof.
  destruct extractors as [|extractor extractors _] using rev_ind; [done|].
  intros _. unfold evaluate_entities. cbv zeta. rewrite fold_left_app.
  cbn [fold_left].
  destruct (get_evaluation_metrics_of_labels _ _) as [[[? ?] ?] ?]. eauto.
Qed.

(** X21.  Only the last extractor is scored.  [evaluate_entities] puts the
    scores of each extractor in the place of those of the one before: what
    it returns for the extractors [extractors ++ [last]] are the scores of
    [last], whatever the others predicted; for no extractor it returns the
    empty dict. *)
Theorem last_extractor_wins (targets : EntityTargets) (predictions : EntityPredictions)
    (tokens : Tokens) (extractors : list string) (last : string) :
  evaluate_entities targets predictions tokens [] = None
  ∧ evaluate_entities targets predictions tokens (extractors ++ [last])
    = (let aligned :=
         align_all_entity_predictions targets predictions tokens
           (extractors ++ [last]) in
       let '(report, precision, f1, accuracy) :=
         get_evaluation_metrics_of_labels
           (substitute_labels (merge_labels aligned None) "O" "no_entity")
           (substitute_labels (merge_labels aligned (Some last)) "O" "no_entity") in
       Some (EntityEvaluation report precision f1 accuracy))
  ∧ (extractors ≠ [] →
     is_Some (evaluate_entities targets predictions tokens extractors)).
Proof.
  split; [reflexivity|]. split.
  - unfold evaluate_entities. cbv zeta. rewrite fold_left_app. reflexivity.
  - apply evaluate_entities_scores.
Qed.

Lemma upload_posts filename url w :
  posts (upload filename url w).2 = posts w
  ∧ cache (upload filename url w).2 = cache w.
Proof.
  unfold upload, posts. destruct (upload_fileobj filename); cbn [snd tell events cache].
  all: rewrite filter_app; split; [|done].
  all: rewrite ?filter_cons_False, filter_nil, ?app_nil_r by (cbn [posted]; done).
  all: done.
Qed.

(** The charts reach the bucket, not the backend. *)
Lemma plot_posts update intent_results w :
  match plot_and_save_charts update intent_results w with
  | Done _ w' | Failed _ w' => posts w' = posts w ∧ cache w' = cache w
  end.
Proof.
  unfold plot_and_save_charts. cbv zeta.
  destruct (forallb _ _); [|done].
  destruct (_targets_predictions_from _); [|done].
  match goal with
  | |- context [upload ?f ?u ?w0] =>
      pose proof (upload_posts f u w0) as [Hp1 Hc1];
      destruct (upload f u w0) as [url1 w1]
  end.
  match goal with
  | |- context [upload ?f ?u w1] =>
      pose proof (upload_posts f u w1) as [Hp2 Hc2];
      destruct (upload f u w1) as [url2 w2]
  end.
  cbn [snd] in *. unfold posts in *. cbn [events cache] in *. split; congruence.
Qed.

(** X22.  The charts.  Unless the key, the secret and the bucket are all
    set, [plot_and_save_charts] returns two empty addresses and does
    nothing at all.  When they are set and the results unzip, both uploads
    are tried, the second whatever became of the first: an upload that
    raises [ClientError] is logged and leaves its address empty, the call
    returns all the same, and the address of a stored chart is the end
    point, the bucket and the file name. *)
Theorem charts_survive_upload_errors (update : string)
    (intent_results : list IntentEvaluationResult) (w : world) :
  let confmat :=
    "repository_" +:+ update +:+ "/confmat_" +:+ uuid4 (uuids w) +:+ ".png" in
  let intent_hist :=
    "repository_" +:+ update +:+ "/intent_hist_" +:+ uuid4 (S (uuids w)) +:+ ".png" in
  let address filename :=
    if upload_fileobj filename
    then endpoint_url +:+ "/" +:+ aws_bucket_name +:+ "/" +:+ filename else "" in
  let trace filename :=
    if upload_fileobj filename then [Upload aws_bucket_name filename true]
    else [Upload aws_bucket_name filename false; LoggerError filename] in
  (aws_access_key_id = "" ∨ aws_secret_access_key = "" ∨ aws_bucket_name = "" →
   plot_and_save_charts update intent_results w = Done ("", "") w)
  ∧ (aws_access_key_id ≠ "" → aws_secret_access_key ≠ "" → aws_bucket_name ≠ "" →
     is_Some (_targets_predictions_from
                (remove_empty_intent_examples intent_results)) →
     plot_and_save_charts update intent_results w
     = Done (address confmat, address intent_hist)
         (World (cache w) (S (S (uuids w)))
            (events w ++ trace confmat ++ trace intent_hist))).
Proof.
  cbv zeta. unfold plot_and_save_charts. cbv zeta. cbn [forallb]. split.
  - intros Hunset.
    destruct (decide (aws_access_key_id = "")) as [->|?];
      [by rewrite bool_decide_eq_true_2|].
    destruct (decide (aws_secret_access_key = "")) as [->|?];
      [rewrite (bool_decide_eq_true_2 ("" = "")) by done;
       by rewrite andb_false_r|].
    destruct (decide (aws_bucket_name = "")) as [->|?]; [|tauto].
    rewrite (bool_decide_eq_true_2 ("" = "")) by done.
    by rewrite !andb_false_r.
  - intros Hid Hsecret Hbucket [unzipped Hunzip].
    rewrite !bool_decide_eq_false_2 by done. cbn [negb andb].
    rewrite Hunzip. unfold upload.
    destruct (upload_fileobj _); destruct (upload_fileobj _);
      cbv beta iota zeta delta [tell cache uuids events];
      rewrite <- ?app_assoc; reflexivity.
Qed.

Lemma posts_tell evs w :
  posts (tell evs w) = posts w ++ filter (λ ev, posted ev = true) evs.
Proof. unfold posts, tell. cbn [events]. apply filter_app. Qed.

(** A loop of [evaluate_update] over the rows of a report. *)
Lemma report_loop (post : string → Row → event) (l : list (string * Row)) :
  (∀ key row, posted (post key row) = true) →
  ∀ w,
    let w' := fold_left
                (λ w '(key, row), if reported key then tell [post key row] w else w)
                l w in
    posts w' = posts w
               ++ ((λ '(key, row), post key row)
                   <$> filter (λ '(key, _), reported key = true) l)
    ∧ cache w' = cache w.
Proof.
  intros Hpost. induction l as [|[key row] l IH]; intros w; cbv zeta.
  { cbn [fold_left]. rewrite filter_nil, fmap_nil, app_nil_r. done. }
  cbn [fold_left].
  destruct (reported key) eqn:Hkey.
  - destruct (IH (tell [post key row] w)) as [Hp Hc]. cbv zeta in Hp, Hc.
    rewrite Hp, Hc, posts_tell.
    rewrite (filter_cons_True _ (key, row)) by exact Hkey.
    rewrite fmap_cons, filter_cons_True, filter_nil, <- app_assoc by apply Hpost.
    done.
  - destruct (IH w) as [Hp Hc]. cbv zeta in Hp, Hc.
    rewrite Hp, Hc.
    by rewrite (filter_cons_False _ (key, row)) by (cbn; congruence).
Qed.

(** X23.  An evaluation needs an intent classifier and an entity extractor.
    Once the interpreter is loaded: without an intent classifier
    [evaluate_update] raises [UnboundLocalError] for [intent_results]
    before anything is uploaded or posted; without an entity extractor it
    fails as well, and nothing has been sent to the backend although the
    charts may have been uploaded; so whenever it returns the interpreter
    has both.  When it returns, the backend has received, in this order,
    the results of the evaluation, one item for each key of the intent
    report that is neither empty nor excluded, and one for each such key
    of the entity report. *)
Theorem evaluate_update_needs_both (depth : nat)
    (update repository_authorization : string) (w : world)
    (interpreter : UpdateInterpreters.interpreter) (c : UpdateInterpreters.state) :
  UpdateInterpreters.get depth update repository_authorization false (cache w)
  = UpdateInterpreters.Returned interpreter c →
  let w0 := World c (uuids w) (events w) in
  let test_data :=
    TrainingData_of
      ((λ evaluate, Message_build (evaluation_get evaluate "text")
                      (evaluation_get evaluate "intent")
                      (evaluation_get evaluate "entities"))
       <$> request_backend_start_evaluation update repository_authorization) in
  let intent_results :=
    get_intent_predictions (get_intent_targets test_data) interpreter test_data in
  (is_intent_classifier_present interpreter = false →
   evaluate_update depth update repository_authorization w
   = Failed (UnboundLocalError "intent_results") w0)
  ∧ (get_entity_extractors interpreter = [] →
     ∃ e w', evaluate_update depth update repository_authorization w = Failed e w'
             ∧ posts w' = posts w)
  ∧ (∀ ids w',
       evaluate_update depth update repository_authorization w = Done ids w' →
       is_intent_classifier_present interpreter = true
       ∧ get_entity_extractors interpreter ≠ []
       ∧ ∃ intent_evaluation entity_evaluation charts w1,
           evaluate_intents intent_results = Some intent_evaluation
           ∧ evaluate_entities (get_entity_targets test_data)
               (get_entity_predictions interpreter test_data).1
               (get_entity_predictions interpreter test_data).2
               (get_entity_extractors interpreter)
             = Some entity_evaluation
           ∧ plot_and_save_charts update intent_results w0 = Done charts w1
           ∧ let payload :=
               ResultsPayload update charts.1 charts.2
                 (log intent_evaluation) (precision intent_evaluation)
                 (f1_score intent_evaluation) (accuracy intent_evaluation)
                 (Some (e_precision entity_evaluation))
                 (Some (e_f1_score entity_evaluation))
                 (Some (e_accuracy entity_evaluation)) in
             let evaluate_result :=
               request_backend_create_evaluate_results payload
                 repository_authorization in
             ids = (UpdateInterpreters.field evaluate_result "evaluate_id",
                    UpdateInterpreters.field evaluate_result "evaluate_version")
             ∧ posts w'
               = posts w ++ [CreateEvaluateResults payload]
                 ++ ((λ '(key, row), CreateEvaluateResultsIntent ids.1 key row)
                     <$> filter (λ '(key, _), reported key = true)
                           (rows (report intent_evaluation)))
                 ++ ((λ '(key, row),
                        CreateEvaluateResultsScore ids.1 update key row)
                     <$> filter (λ '(key, _), reported key = true)
                           (rows (e_report entity_evaluation)))).
Proof.
  intros Hget. cbv zeta. unfold evaluate_update. cbv zeta. rewrite Hget.
  set (test_data := TrainingData_of _).
  destruct (get_entity_predictions interpreter test_data)
    as [entity_predictions tokens].
  cbn [fst snd].
  set (w0 := World c (uuids w) (events w)).
  assert (Hw0 : posts w0 = posts w) by reflexivity.
  destruct (is_intent_classifier_present interpreter) eqn:Hclassifier.
  2:{ split; [done|]. split; [|done]. intros _. by eexists _, _. }
  split; [done|].
  set (intent_results := get_intent_predictions _ _ _).
  destruct (evaluate_intents intent_results) as [intent_evaluation|].
  2:{ split; [|done]. intros _. by eexists _, _. }
  pose proof (plot_posts update intent_results w0) as Hplot.
  destruct (plot_and_save_charts update intent_results w0)
    as [[matrix_chart confidence_chart] w1|e w1]; destruct Hplot as [Hp1 Hc1].
  2:{ split; [|by destruct (get_entity_extractors interpreter)].
      intros _. exists e, w1. split; [by destruct (get_entity_extractors interpreter)|].
      congruence. }
  split.
  { intros ->. eexists _, _. split; [reflexivity|]. congruence. }
  intros ids w'. destruct (get_entity_extractors interpreter) as [|x xs] eqn:Hx;
    [done|].
  destruct (evaluate_entities_scores (get_entity_targets test_data)
              entity_predictions tokens (x :: xs)) as [entity_evaluation Hscore];
    [done|].
  rewrite Hscore. cbn [fmap option_fmap option_map].
  set (payload := ResultsPayload _ _ _ _ _ _ _ _ _ _).
  set (evaluate_result := request_backend_create_evaluate_results payload _).
  match goal with
  | |- context [fold_left ?f (rows (report intent_evaluation)) ?wa] =>
      destruct (report_loop
                  (CreateEvaluateResultsIntent
                     (UpdateInterpreters.field evaluate_result "evaluate_id"))
                  (rows (report intent_evaluation)) (λ _ _, eq_refl) wa)
        as [Hpi Hci];
      cbv zeta in Hpi, Hci;
      set (w2 := fold_left f (rows (report intent_evaluation)) wa) in *
  end.
  match goal with
  | |- context [fold_left ?f (rows (e_report entity_evaluation)) w2] =>
      destruct (report_loop
                  (CreateEvaluateResultsScore
                     (UpdateInterpreters.field evaluate_result "evaluate_id") update)
                  (rows (e_report entity_evaluation)) (λ _ _, eq_refl) w2)
        as [Hpe Hce];
      cbv zeta in Hpe, Hce;
      set (w3 := fold_left f (rows (e_report entity_evaluation)) w2) in *
  end.
  intros [= <- <-]. split; [done|]. split; [done|].
  exists intent_evaluation, entity_evaluation, (matrix_chart, confidence_chart), w1.
  split; [reflexivity|]. split; [reflexivity|]. split; [reflexivity|].
  cbn [fst snd]. fold payload. fold evaluate_result. split; [reflexivity|].
  rewrite Hpe, Hpi, posts_tell, Hp1, Hw0.
  rewrite filter_cons_True, filter_nil by done. by rewrite <- !app_assoc.
Qed.

End EvaluateUpdateFacts.

(** ** The sample evaluation *)

(** On the sample model the evaluation returns the identifiers the backend
    gave, after five posts: the results, and two rows of each report. *)
Lemma evaluate_update_witness :
  ∃ w',
    @EvaluateUpdate.evaluate_update Worlds.metrics Studio.rasa Sample.backend
      2 "v1" "auth" Studio.quiet_world
    = EvaluateUpdate.Done (PyInt 5, PyInt 1) w'
    ∧ length (EvaluateUpdate.posts w') = 5.
Proof.
  assert (Hrun : ∃ ids w',
            @EvaluateUpdate.evaluate_update Worlds.metrics Studio.rasa Sample.backend
              2 "v1" "auth" Studio.quiet_world
            = EvaluateUpdate.Done ids w'
            ∧ ids = (PyInt 5, PyInt 1)).
  { eexists _, _. split; vm_compute; reflexivity. }
  destruct Hrun as (ids & w' & Hrun & Hids). exists w'. subst ids.
  split; [exact Hrun|].
  assert (Hget : ∃ interpreter c,
            @UpdateInterpreters.get Sample.backend 2 "v1" "auth" false
              (EvaluateUpdate.cache Studio.quiet_world)
            = UpdateInterpreters.Returned interpreter c).
  { eexists _, _. vm_compute. reflexivity. }
  destruct Hget as (interpreter & c & Hget).
  pose proof (@evaluate_update_needs_both Worlds.metrics Studio.rasa Sample.backend
                2 "v1" "auth" Studio.quiet_world interpreter c Hget)
    as (_ & _ & Hdone).
  destruct (Hdone _ _ Hrun)
    as (_ & _ & ie & ee & charts & w1 & _ & _ & _ & _ & Hposts).
  rewrite Hposts. rewrite !length_app, !length_fmap. vm_compute. reflexivity.
Defined.
